(** * AI-Insurance-Query-System: the decision engine, the entity extractor
      and the document pipeline

    A shallow embedding of

    - [ReasoningEngine.make_decision]  (ai-model/src/reasoning_engine.py),
    - [QueryAnalyzer.extract_entities] (ai-model/src/query_analyzer.py),
    - [TextChunker.split_text_optimized] and [PDFProcessor._clean_text]
      (utils.py),
    - the chunk limit and the answer cleaning of [process_pdf_qa] (main.py),
    - [LLMClient._create_optimized_prompt] and the parsing of the reply in
      [LLMClient.generate_answer_optimized] (llm.py),
    - [VectorStore._generate_embeddings], [VectorStore._create_chunk_id]
      and [VectorStore.store_document_chunks_optimized] (vector.py),
    - [DocumentProcessor._categorize_clause]
      (ai-model/src/document_processor.py),

    followed by the properties of these functions.

    Conventions of the embedding.
    - A Python value is a [pyval]; a dict is a [gmap string pyval].
    - A Python [str] is a Rocq [string] (a sequence of bytes); case mapping
      and white space are the ASCII ones.
    - A Python [float] that takes part in arithmetic is an IEEE-754 binary64
      number, [spec_float] at precision 53, with the round-to-nearest-even
      operations of [SpecFloat].  A float literal that is only stored and
      returned (a confidence, a similarity) is kept as the rational number
      its decimal digits denote.
    - An f-string is kept as the list of its literal pieces and of the values
      it interpolates ([text]).  Rendering a value with [str()] is not
      unfolded, but it is checked ([fstr]): CPython raises [ValueError] when
      it has to print an [int] of more than 4300 decimal digits, and also
      when [int()] reads a numeral of more than 4300 digits.
    - A raised exception is the [Raise] branch of the [res] monad. *)

From Stdlib Require Import ZArith QArith String Ascii List Lia Bool ZifyBool.
From Stdlib Require Import Floats.SpecFloat.
From stdpp Require Import base option list gmap strings pretty.

Set Warnings "-register-all".
#[local] Open Scope string_scope.
#[local] Open Scope list_scope.
#[local] Open Scope Z_scope.

(** ** Python values, exceptions, and the exception monad *)

Inductive pyval : Type :=
| PNone
| PBool (b : bool)
| PInt (z : Z)
| PStr (s : string)
| PList (l : list pyval)
| PDict (d : gmap string pyval).

Inductive exn : Type :=
| AttributeError (type_name attr : string)
| TypeError (op left_type right_type : string)
| OverflowError (msg : string)
| ValueError (msg : string).

Inductive res (A : Type) : Type :=
| Ok (a : A)
| Raise (e : exn).
Arguments Ok {A} a.
Arguments Raise {A} e.

Definition res_bind {A B} (m : res A) (f : A -> res B) : res B :=
  match m with
  | Ok a => f a
  | Raise e => Raise e
  end.

Declare Scope res_scope.
Delimit Scope res_scope with res.
Notation "'let*' x ':=' m 'in' k" := (res_bind m (fun x => k))
  (at level 10, x pattern, m at level 100, k at level 200) : res_scope.
#[local] Open Scope res_scope.

Definition type_name (v : pyval) : string :=
  match v with
  | PNone => "NoneType"
  | PBool _ => "bool"
  | PInt _ => "int"
  | PStr _ => "str"
  | PList _ => "list"
  | PDict _ => "dict"
  end.

(** Truth value of an object, as [if v:] and [v and ...] test it. *)
Definition truthy (v : pyval) : bool :=
  match v with
  | PNone => false
  | PBool b => b
  | PInt z => negb (z =? 0)
  | PStr s => negb (String.eqb s "")
  | PList l => match l with [] => false | _ => true end
  | PDict d => match map_to_list d with [] => false | _ => true end
  end.

(** [o.get(key, dflt)]: only a dict has the method. *)
Definition py_get (o : pyval) (key : string) (dflt : pyval) : res pyval :=
  match o with
  | PDict d => Ok (default dflt (d !! key))
  | _ => Raise (AttributeError (type_name o) "get")
  end.

(** ** The limit on conversions between [int] and [str]

    CPython converts an [int] to a decimal string, and a decimal string to
    an [int], only up to [sys.int_info.default_max_str_digits] = 4300
    digits; beyond that both conversions raise [ValueError]. *)

Definition int_str_limit : Z := 10 ^ 4300.

(** [str(z)] returns: [z] has at most 4300 digits. *)
Definition int_renders (z : Z) : bool := Z.abs z <? int_str_limit.
Arguments int_renders : simpl never.

(** [str(v)] returns: the [int]s printed with [v] (the members of a list,
    the values of a dict) all have at most 4300 digits. *)
Fixpoint renders (v : pyval) : bool :=
  match v with
  | PInt z => int_renders z
  | PList l => forallb renders l
  | PDict d => map_fold (fun _ v' ok => renders v' && ok) true d
  | PNone | PBool _ | PStr _ => true
  end.

Definition int_to_str_error : exn :=
  ValueError "Exceeds the limit (4300 digits) for integer string conversion; use sys.set_int_max_str_digits() to increase the limit".

(** ** Strings *)

Definition is_upper (c : ascii) : bool :=
  let n := nat_of_ascii c in ((65 <=? n) && (n <=? 90))%nat.
Definition is_lower (c : ascii) : bool :=
  let n := nat_of_ascii c in ((97 <=? n) && (n <=? 122))%nat.
Definition is_digit (c : ascii) : bool :=
  let n := nat_of_ascii c in ((48 <=? n) && (n <=? 57))%nat.
(** The ASCII characters for which [str.isspace] holds; [str.strip] and the
    regular-expression class [\s] use the same set. *)
Definition is_space (c : ascii) : bool :=
  let n := nat_of_ascii c in
  (((9 <=? n) && (n <=? 13)) || ((28 <=? n) && (n <=? 32)))%nat.

Definition lower_char (c : ascii) : ascii :=
  if is_upper c then ascii_of_nat (nat_of_ascii c + 32) else c.
Definition upper_char (c : ascii) : ascii :=
  if is_lower c then ascii_of_nat (nat_of_ascii c - 32) else c.

(** [s.lower()] *)
Fixpoint lower (s : string) : string :=
  match s with
  | EmptyString => EmptyString
  | String c s' => String (lower_char c) (lower s')
  end.

(** [s.upper()] *)
Fixpoint upper (s : string) : string :=
  match s with
  | EmptyString => EmptyString
  | String c s' => String (upper_char c) (upper s')
  end.

(** [s.title()]: a letter that follows a letter is lower-cased, any other
    letter is upper-cased. *)
Fixpoint title_from (prev_cased : bool) (s : string) : string :=
  match s with
  | EmptyString => EmptyString
  | String c s' =>
      let cased := is_upper c || is_lower c in
      String (if prev_cased then lower_char c else upper_char c)
             (title_from cased s')
  end.
Definition title (s : string) : string := title_from false s.

(** [sub in s] *)
Fixpoint contains (sub s : string) : bool :=
  if String.prefix sub s then true
  else match s with
       | EmptyString => false
       | String _ s' => contains sub s'
       end.

(** [s * n] *)
Definition str_repeat (s : string) (n : Z) : string :=
  String.concat "" (repeat s (Z.to_nat n)).

Fixpoint lstrip (s : string) : string :=
  match s with
  | EmptyString => EmptyString
  | String c s' => if is_space c then lstrip s' else s
  end.
Fixpoint rstrip (s : string) : string :=
  match s with
  | EmptyString => EmptyString
  | String c s' =>
      match rstrip s' with
      | EmptyString => if is_space c then EmptyString else String c EmptyString
      | r => String c r
      end
  end.
(** [s.strip()] *)
Definition strip (s : string) : string := rstrip (lstrip s).

Fixpoint str_drop (n : nat) (s : string) : string :=
  match n, s with
  | O, _ => s
  | S n', String _ s' => str_drop n' s'
  | S _, EmptyString => EmptyString
  end.
Fixpoint str_take (n : nat) (s : string) : string :=
  match n, s with
  | S n', String c s' => String c (str_take n' s')
  | _, _ => EmptyString
  end.
(** [s[a:b]] for indices [0 <= a] and [0 <= b]. *)
Definition slice (s : string) (a b : nat) : string :=
  str_take (b - a) (str_drop a s).

(** [int(s)] for a string of decimal digits. *)
Fixpoint int_of_digits_from (acc : Z) (s : string) : Z :=
  match s with
  | EmptyString => acc
  | String c s' =>
      int_of_digits_from (10 * acc + Z.of_nat (nat_of_ascii c - 48)) s'
  end.
Definition int_of_digits (s : string) : Z := int_of_digits_from 0 s.

(** [int(s)] for a string of decimal digits, as the patterns of the
    extractor capture them: a numeral of more than 4300 digits is
    refused. *)
Definition py_int (s : string) : res Z :=
  if (4300 <? String.length s)%nat
  then Raise (ValueError
                ("Exceeds the limit (4300 digits) for integer string conversion: value has "
                 +:+ pretty (String.length s)
                 +:+ " digits; use sys.set_int_max_str_digits() to increase the limit"))
  else Ok (int_of_digits s).

(** [s.replace(c, "")] for a one-character [c]. *)
Fixpoint remove_char (c : ascii) (s : string) : string :=
  match s with
  | EmptyString => EmptyString
  | String d s' =>
      if Ascii.eqb c d then remove_char c s' else String d (remove_char c s')
  end.

(** ** binary64 arithmetic *)

Definition prec : Z := 53.
Definition emax : Z := 1024.

(** [float(z)] *)
Definition float_of_int (z : Z) : spec_float :=
  binary_normalize prec emax z 0 false.

(** The double a decimal literal [num/den] is read as: the correctly rounded
    quotient. *)
Definition float_literal (num den : Z) : spec_float :=
  SFdiv prec emax (float_of_int num) (float_of_int den).

Definition float_1_1 : spec_float := float_literal 11 10.
Definition float_1_15 : spec_float := float_literal 115 100.
Definition float_0_9 : spec_float := float_literal 9 10.

(** [int(x)]: truncation towards zero. *)
Definition int_of_float (x : spec_float) : res Z :=
  match x with
  | S754_zero _ => Ok 0
  | S754_finite s m e =>
      let a := match e with
               | Z0 => Zpos m
               | Zpos p => Zpos m * 2 ^ Zpos p
               | Zneg p => Zpos m / 2 ^ Zpos p
               end in
      Ok (if s then - a else a)
  | S754_infinity _ =>
      Raise (OverflowError "cannot convert float infinity to integer")
  | S754_nan => Raise (OverflowError "cannot convert float NaN to integer")
  end.

(** [int(amount * f)] for an [int] amount and a [float] factor. *)
Definition int_mul_float (amount : Z) (f : spec_float) : res Z :=
  int_of_float (SFmul prec emax (float_of_int amount) f).

(** ** Operators of the decision engine on Python values *)

(** [bool] is a subtype of [int]. *)
Definition as_int (v : pyval) : option Z :=
  match v with
  | PInt z => Some z
  | PBool b => Some (if b then 1 else 0)
  | _ => None
  end.

(** [v < n], [v > n], [v >= n] against an [int] literal: ordering an [int]
    with anything but a number is a [TypeError]. *)
Definition py_cmp (op : string) (f : Z -> Z -> bool) (v : pyval) (n : Z)
  : res bool :=
  match as_int v with
  | Some z => Ok (f z n)
  | None => Raise (TypeError op (type_name v) "int")
  end.
Definition py_lt := py_cmp "<" Z.ltb.
Definition py_gt := py_cmp ">" Z.gtb.
Definition py_ge := py_cmp ">=" Z.geb.

(** [v * n] for an [int] literal [n]: numbers multiply, sequences repeat. *)
Definition py_mul (v : pyval) (n : Z) : res pyval :=
  match v with
  | PInt z => Ok (PInt (z * n))
  | PBool b => Ok (PInt ((if b then 1 else 0) * n))
  | PStr s => Ok (PStr (str_repeat s n))
  | PList l => Ok (PList (concat (repeat l (Z.to_nat n))))
  | PNone | PDict _ => Raise (TypeError "*" (type_name v) "int")
  end.

(** [v == "literal"] *)
Definition py_eq_str (v : pyval) (s : string) : bool :=
  match v with
  | PStr s' => String.eqb s' s
  | _ => false
  end.

(** [v.lower()]: only a [str] has the method. *)
Definition py_lower (v : pyval) : res string :=
  match v with
  | PStr s => Ok (lower s)
  | _ => Raise (AttributeError (type_name v) "lower")
  end.

(** ** The decision record *)

Inductive Decision : Type := Approved | Rejected.

Definition decision_str (d : Decision) : string :=
  match d with
  | Approved => "Approved"
  | Rejected => "Rejected"
  end.

(** An f-string: literal pieces, interpolated values, and [str(e)] of a
    caught exception. *)
Inductive piece : Type :=
| Lit (s : string)
| Val (v : pyval)
| ExnMsg (e : exn).
Abbreviation text := (list piece) (only parsing).

Definition piece_renders (p : piece) : bool :=
  match p with
  | Val v => renders v
  | Lit _ | ExnMsg _ => true
  end.

(** The evaluation of an f-string: it raises when an interpolated value
    cannot be printed. *)
Definition fstr (pieces : text) : res text :=
  if forallb piece_renders pieces then Ok pieces else Raise int_to_str_error.

Definition amount_val (a : option Z) : pyval :=
  match a with
  | Some z => PInt z
  | None => PNone
  end.

Record Clause : Type := {
  clause_id : string;
  clause_text : string;
  policy_name : string;
  similarity : Q
}.

Record DecisionResult : Type := {
  decision : Decision;
  amount : option Z;
  justification : text;
  confidence : Q;
  source_clauses : list Clause;
  reasoning_steps : list text
}.

Definition _format_result (decision : Decision) (amount : option Z)
    (justification : text) (confidence : Q) (source_clauses : list Clause)
    (reasoning_steps : list text) : DecisionResult :=
  {| decision := decision; amount := amount; justification := justification;
     confidence := confidence; source_clauses := source_clauses;
     reasoning_steps := reasoning_steps |}.

(** ** [ReasoningEngine.make_decision] *)

Definition BAJ_003 (similarity : Q) : Clause :=
  {| clause_id := "BAJ-003";
     clause_text :=
       "Day care procedures covered where treatment is less than 24 hours";
     policy_name := "Bajaj Allianz Global Health Care";
     similarity := similarity |}.

Definition HDFC_001 (similarity : Q) : Clause :=
  {| clause_id := "HDFC-001";
     clause_text :=
       "Critical illness coverage includes cancer, CABG, heart attack, stroke, kidney failure";
     policy_name := "HDFC Ergo Easy Health";
     similarity := similarity |}.

Definition metro_cities : list string :=
  ["mumbai"; "delhi"; "bangalore"; "chennai"; "kolkata"; "hyderabad"].

Definition str_in (s : string) (l : list string) : bool :=
  existsb (String.eqb s) l.

(** "Convert policy duration to days": the value of [duration_days] and the
    reasoning step the block appends. *)
Definition duration_in_days (policy_duration : pyval)
  : res (pyval * list text) :=
  if truthy policy_duration then
    let* value := py_get policy_duration "value" (PInt 0) in
    let* unit := py_get policy_duration "unit" (PStr "") in
    let* duration_days :=
      if py_eq_str unit "month" then py_mul value 30
      else if py_eq_str unit "year" then py_mul value 365
      else Ok (PInt 0) in
    let* step :=
      fstr [Lit "Policy duration: "; Val duration_days; Lit " days"] in
    Ok (duration_days, [step])
  else Ok (PInt 0, []).

(** [age and (age < 18 or age > 70)] *)
Definition age_out_of_range (age : pyval) : res bool :=
  if truthy age then
    let* young := py_lt age 18 in
    if young then Ok true else py_gt age 70
  else Ok false.

(** The local variables the rules assign. *)
Record locals : Type := {
  l_decision : Decision;
  l_amount : option Z;
  l_justification : text;
  l_confidence : Q;
  l_source_clauses : list Clause;
  l_steps : list text
}.

(** "Procedure-specific logic": the [if]/[elif] chain over the lower-cased
    procedure.  [steps] is the trail so far; the initial values of the other
    locals are those set at the top of the function. *)
Definition procedure_rules (procedure : string)
    (age policy_duration duration_days : pyval) (steps : list text)
  : res locals :=
  if contains "knee" procedure then
    let steps := steps ++ [[Lit "Processing knee surgery claim"]] in
    let required_waiting := 90 in
    let* waited := py_ge duration_days required_waiting in
    if waited then
      let* older := py_gt age 45 in
      let base_amount := if older then 150000 else 120000 in
      let* value := py_get policy_duration "value" (PInt 0) in
      let* unit := py_get policy_duration "unit" (PStr "") in
      let* justification :=
        fstr [Lit "Knee surgery is covered under day care procedures. Policy duration of ";
              Val value; Lit " "; Val unit; Lit " meets the ";
              Val (PInt required_waiting);
              Lit "-day waiting period requirement."] in
      let* step :=
        fstr [Lit "Approved: Waiting period satisfied ("; Val duration_days;
              Lit " >= "; Val (PInt required_waiting); Lit " days)"] in
      Ok {| l_decision := Approved;
            l_amount := Some base_amount;
            l_justification := justification;
            l_confidence := 0.85;
            l_source_clauses := [BAJ_003 0.85];
            l_steps := steps ++ [step] |}
    else
      let* justification :=
        fstr [Lit "Policy duration of "; Val duration_days;
              Lit " days is less than the required ";
              Val (PInt required_waiting);
              Lit "-day waiting period for knee surgery."] in
      let* step :=
        fstr [Lit "Rejected: Waiting period not satisfied (";
              Val duration_days; Lit " < "; Val (PInt required_waiting);
              Lit " days)"] in
      Ok {| l_decision := Rejected;
            l_amount := None;
            l_justification := justification;
            l_confidence := 0.9;
            l_source_clauses := [];
            l_steps := steps ++ [step] |}
  else if contains "heart" procedure || contains "cardiac" procedure
          || contains "cabg" procedure then
    Ok {| l_decision := Approved;
          l_amount := Some 500000;
          l_justification :=
            [Lit "Heart surgery is covered under critical illness benefits with no waiting period."];
          l_confidence := 0.9;
          l_source_clauses := [HDFC_001 0.9];
          l_steps := steps ++
            [[Lit "Processing heart surgery claim"];
             [Lit "Approved: Critical illness coverage applies"]] |}
  else if contains "cancer" procedure then
    Ok {| l_decision := Approved;
          l_amount := Some 1000000;
          l_justification :=
            [Lit "Cancer treatment is fully covered under critical illness benefits with no waiting period."];
          l_confidence := 0.95;
          l_source_clauses := [HDFC_001 0.95];
          l_steps := steps ++
            [[Lit "Processing cancer treatment claim"];
             [Lit "Approved: Cancer covered under critical illness"]] |}
  else if contains "eye" procedure || contains "cataract" procedure then
    let steps := steps ++ [[Lit "Processing eye surgery claim"]] in
    let required_waiting := 30 in
    let* waited := py_ge duration_days required_waiting in
    if waited then
      let* justification :=
        fstr [Lit "Eye surgery is covered under day care procedures. Policy duration meets the ";
              Val (PInt required_waiting); Lit "-day waiting period."] in
      Ok {| l_decision := Approved;
            l_amount := Some 60000;
            l_justification := justification;
            l_confidence := 0.8;
            l_source_clauses := [BAJ_003 0.8];
            l_steps := steps ++
              [[Lit "Approved: Eye surgery waiting period satisfied"]] |}
    else
      let* justification :=
        fstr [Lit "Policy duration of "; Val duration_days;
              Lit " days is less than the required ";
              Val (PInt required_waiting);
              Lit "-day waiting period for eye surgery."] in
      Ok {| l_decision := Rejected;
            l_amount := None;
            l_justification := justification;
            l_confidence := 0.85;
            l_source_clauses := [];
            l_steps := steps ++
              [[Lit "Rejected: Eye surgery waiting period not satisfied"]] |}
  else
    Ok {| l_decision := Rejected;
          l_amount := None;
          l_justification := [Lit "No matching coverage found"];
          l_confidence := 0.5;
          l_source_clauses := [];
          l_steps := steps |}.

(** [location and location.lower() in metro_cities] *)
Definition in_metro (location : pyval) : res bool :=
  if truthy location then
    let* l := py_lower location in Ok (str_in l metro_cities)
  else Ok false.

(** [age and age > n], [age and age < n] *)
Definition age_above (age : pyval) (n : Z) : res bool :=
  if truthy age then py_gt age n else Ok false.
Definition age_below (age : pyval) (n : Z) : res bool :=
  if truthy age then py_lt age n else Ok false.

(** "Location-based adjustments": the amount and the step appended. *)
Definition metro_adjustment (location : pyval) (amount : Z)
  : res (Z * list text) :=
  let* metro := in_metro location in
  if metro then
    let* a := int_mul_float amount float_1_1 in
    Ok (a, [[Lit "Metro city adjustment applied: +10%"]])
  else Ok (amount, []).

(** "Age-based adjustments" *)
Definition age_adjustment (age : pyval) (amount : Z) : res (Z * list text) :=
  let* senior := age_above age 60 in
  if senior then
    let* a := int_mul_float amount float_1_15 in
    Ok (a, [[Lit "Senior citizen adjustment applied: +15%"]])
  else
    let* young := age_below age 25 in
    if young then
      let* a := int_mul_float amount float_0_9 in
      Ok (a, [[Lit "Young adult discount applied: -10%"]])
    else Ok (amount, []).

(** "Apply additional business rules": only for [decision == "Approved" and
    amount]. *)
Definition business_rules (age location : pyval) (st : locals) : res locals :=
  match l_decision st, l_amount st with
  | Approved, Some amount =>
      if amount =? 0 then Ok st
      else
        let* (a1, s1) := metro_adjustment location amount in
        let* (a2, s2) := age_adjustment age a1 in
        Ok {| l_decision := l_decision st;
              l_amount := Some a2;
              l_justification := l_justification st;
              l_confidence := l_confidence st;
              l_source_clauses := l_source_clauses st;
              l_steps := l_steps st ++ s1 ++ s2 |}
  | _, _ => Ok st
  end.

(** The [try] block from the first reasoning step on, as a function of the
    local variables read from [entities]. *)
Definition assess (procedure : string)
    (policy_duration age gender location : pyval) : res DecisionResult :=
  let* step :=
    fstr [Lit "Analyzing query for: Age="; Val age; Lit ", Gender=";
          Val gender; Lit ", Procedure="; Val (PStr procedure)] in
  let steps := [step] in
  let* (duration_days, duration_steps) := duration_in_days policy_duration in
  let steps := steps ++ duration_steps in
  let* age_invalid := age_out_of_range age in
  if age_invalid then
    let* justification :=
      fstr [Lit "Age "; Val age;
            Lit " is outside the eligible range (18-70 years)"] in
    Ok (_format_result Rejected None justification
          0.95 [] (steps ++ [[Lit "Age validation failed"]]))
  else if String.eqb procedure "" then
    Ok (_format_result Rejected None
          [Lit "No medical procedure identified in the query"]
          0.8 [] (steps ++ [[Lit "No procedure identified"]]))
  else
    let* st := procedure_rules procedure age policy_duration duration_days
                 steps in
    let* st := business_rules age location st in
    let* final :=
      fstr [Lit "Final decision: "; Val (PStr (decision_str (l_decision st)));
            Lit ", Amount: "; Val (amount_val (l_amount st))] in
    Ok (_format_result (l_decision st) (l_amount st) (l_justification st)
          (l_confidence st) (l_source_clauses st) (l_steps st ++ [final])).

(** The body of the [try] block; [relevant_clauses] is never read. *)
Definition make_decision_body (entities relevant_clauses : pyval)
  : res DecisionResult :=
  let* has_procedure := py_get entities "procedure" PNone in
  let* procedure :=
    if truthy has_procedure then
      let* p := py_get entities "procedure" (PStr "") in py_lower p
    else Ok "" in
  let* policy_duration := py_get entities "policy_duration" (PDict ∅) in
  let* age := py_get entities "age" (PInt 0) in
  let* gender := py_get entities "gender" (PStr "") in
  let* location := py_get entities "location" (PStr "") in
  assess procedure policy_duration age gender location.

(** The fail-safe result of the [except Exception] handler. *)
Definition error_result (e : exn) : DecisionResult :=
  _format_result Rejected None [Lit "Error processing claim"] 0.1 []
    [[Lit "Error: "; ExnMsg e]].

Definition make_decision (entities relevant_clauses : pyval)
  : DecisionResult :=
  match make_decision_body entities relevant_clauses with
  | Ok r => r
  | Raise e => error_result e
  end.

(** ** Entity records

    The record [extract_entities] builds: every key is present, an absent
    field holds [None]. *)

Record Duration : Type := { value : Z; unit : string }.

Record Entities : Type := {
  age : option Z;
  gender : option string;
  procedure : option string;
  location : option string;
  policy_duration : option Duration;
  claimed_amount : option Z   (* the key "amount" *)
}.

Definition opt_val {A} (f : A -> pyval) (o : option A) : pyval :=
  match o with
  | Some a => f a
  | None => PNone
  end.

Definition duration_dict (d : Duration) : pyval :=
  PDict (<["value" := PInt (value d)]> (<["unit" := PStr (unit d)]> ∅)).

Definition entities_dict (e : Entities) : pyval :=
  PDict (<["age" := opt_val PInt (age e)]>
        (<["gender" := opt_val PStr (gender e)]>
        (<["procedure" := opt_val PStr (procedure e)]>
        (<["location" := opt_val PStr (location e)]>
        (<["policy_duration" := opt_val duration_dict (policy_duration e)]>
        (<["amount" := opt_val PInt (claimed_amount e)]> ∅)))))).

(** ** Regular expressions

    The fragment of [re] the sources use, matched by backtracking in
    priority order (greedy repetition first, left alternative first), as
    [re.search] and [re.sub] do.  Group [n] captures the text its last match
    consumed. *)

Inductive regex : Type :=
| REps
| RChar (p : ascii -> bool)
| RSeq (r1 r2 : regex)
| RAlt (r1 r2 : regex)
| RStar (r : regex)
| ROpt (r : regex)
| RGroup (n : nat) (r : regex)
| REnd.

Abbreviation groups := (list (nat * string)) (only parsing).

Fixpoint group (n : nat) (g : groups) : string :=
  match g with
  | [] => ""
  | (m, s) :: g' => if Nat.eqb n m then s else group n g'
  end.

Definition consumed (s rest : string) : string :=
  str_take (String.length s - String.length rest) s.

Fixpoint rmatch {A} (r : regex) (s : string) (g : groups)
    (k : string -> groups -> option A) : option A :=
  match r with
  | REps => k s g
  | RChar p =>
      match s with
      | String c s' => if p c then k s' g else None
      | EmptyString => None
      end
  | RSeq r1 r2 => rmatch r1 s g (fun s1 g1 => rmatch r2 s1 g1 k)
  | RAlt r1 r2 =>
      match rmatch r1 s g k with
      | Some x => Some x
      | None => rmatch r2 s g k
      end
  | RStar r1 =>
      (fix star (fuel : nat) (s : string) (g : groups) : option A :=
         match fuel with
         | O => k s g
         | S fuel' =>
             match rmatch r1 s g
                     (fun s1 g1 =>
                        if (String.length s1 <? String.length s)%nat
                        then star fuel' s1 g1 else None) with
             | Some x => Some x
             | None => k s g
             end
         end) (String.length s) s g
  | ROpt r1 =>
      match rmatch r1 s g k with
      | Some x => Some x
      | None => k s g
      end
  | RGroup n r1 => rmatch r1 s g (fun s1 g1 => k s1 ((n, consumed s s1) :: g1))
  | REnd =>
      (* [$]: at the end, or just before a final newline *)
      if String.eqb s "" || String.eqb s (String (ascii_of_nat 10) "")
      then k s g else None
  end.

(** [re.search(r, s)]: the match at the leftmost position that has one. *)
Fixpoint re_search (r : regex) (s : string) : option groups :=
  match rmatch r s [] (fun _ g => Some g) with
  | Some g => Some g
  | None =>
      match s with
      | EmptyString => None
      | String _ s' => re_search r s'
      end
  end.

(** [re.sub(r, repl, s)] for a pattern that matches no empty string. *)
Fixpoint re_sub_from (fuel : nat) (r : regex) (repl s : string) : string :=
  match fuel, s with
  | S fuel', String c s' =>
      match rmatch r s [] (fun rest _ => Some rest) with
      | Some rest =>
          if (String.length rest <? String.length s)%nat
          then String.append repl (re_sub_from fuel' r repl rest)
          else String c (re_sub_from fuel' r repl s')
      | None => String c (re_sub_from fuel' r repl s')
      end
  | _, _ => s
  end.
Definition re_sub (r : regex) (repl s : string) : string :=
  re_sub_from (String.length s) r repl s.

Definition seq (l : list regex) : regex := fold_right RSeq REps l.
Definition plus (r : regex) : regex := RSeq r (RStar r).
Definition chr (c : ascii) : regex := RChar (Ascii.eqb c).
(** A literal character under [re.IGNORECASE]. *)
Definition chr_i (c : ascii) : regex :=
  RChar (fun d => Ascii.eqb (lower_char d) (lower_char c)).
Fixpoint word_i (w : string) : regex :=
  match w with
  | EmptyString => REps
  | String c w' => RSeq (chr_i c) (word_i w')
  end.
Definition digit : regex := RChar is_digit.
Definition space : regex := RChar is_space.

(** ** [QueryAnalyzer.extract_entities] *)

Definition medical_patterns : list (string * list string) :=
  [("knee_surgery", ["knee surgery"; "knee operation"; "knee replacement"]);
   ("heart_surgery", ["heart surgery"; "cardiac surgery"; "cabg"; "bypass"]);
   ("cancer", ["cancer"; "tumor"; "oncology"; "chemotherapy"]);
   ("eye_surgery", ["eye surgery"; "cataract"; "lasik"]);
   ("day_care", ["day care"; "daycare"; "outpatient"])].

Definition indian_cities : list string :=
  ["mumbai"; "delhi"; "bangalore"; "pune"; "chennai"; "kolkata";
   "hyderabad"; "ahmedabad"; "surat"; "jaipur"; "lucknow"; "kanpur"].

(** [(\d+)([MF])] *)
Definition age_gender_re : regex :=
  seq [RGroup 1 (plus digit); RGroup 2 (RAlt (chr_i "M") (chr_i "F"))].

(** [(\d+)[\s]*[-]?[\s]*(month|year)s?] and
    [(\d+)[\s]*[-]?[\s]*(m|y)(?:\s|$)] *)
Definition duration_patterns : list regex :=
  [seq [RGroup 1 (plus digit); RStar space; ROpt (chr "-"); RStar space;
        RGroup 2 (RAlt (word_i "month") (word_i "year")); ROpt (chr_i "s")];
   seq [RGroup 1 (plus digit); RStar space; ROpt (chr "-"); RStar space;
        RGroup 2 (RAlt (chr_i "m") (chr_i "y")); RAlt space REnd]].

(** [\d+(?:,\d+)*] *)
Definition grouped_digits : regex :=
  RSeq (plus digit) (RStar (RSeq (chr ",") (plus digit))).

Definition amount_patterns : list regex :=
  [seq [word_i "â‚¹"; RStar space; RGroup 1 grouped_digits];
   seq [word_i "rs"; ROpt (chr "."); RStar space; RGroup 1 grouped_digits];
   seq [word_i "rupee"; ROpt (chr_i "s"); RStar space;
        RGroup 1 grouped_digits];
   seq [RGroup 1 grouped_digits; RStar space; word_i "rupee";
        ROpt (chr_i "s")]].

(** [for pattern in patterns: m = re.search(pattern, s); if m: ...; break] *)
Fixpoint search_first (patterns : list regex) (s : string) : option groups :=
  match patterns with
  | [] => None
  | r :: rest =>
      match re_search r s with
      | Some g => Some g
      | None => search_first rest s
      end
  end.

Definition normalize_unit (u : string) : string :=
  if str_in u ["m"; "month"] then "month"
  else if str_in u ["y"; "year"] then "year"
  else u.

Fixpoint extract_procedure (table : list (string * list string))
    (query_lower : string) : option string :=
  match table with
  | [] => None
  | (_, patterns) :: rest =>
      match find (fun pattern => contains pattern query_lower) patterns with
      | Some pattern => Some pattern
      | None => extract_procedure rest query_lower
      end
  end.

(** [self.nlp(text)], the call of the spaCy pipeline.  The document it
    returns is never read; the call raises [ValueError] (spaCy's E088) for a
    text of more than [nlp.max_length] characters, 1000000 by default.  The
    message is only logged. *)
Definition nlp_max_length : Z := 1000000.
Definition nlp (text : string) : res Datatypes.unit :=
  if nlp_max_length <? Z.of_nat (String.length text)
  then Raise (ValueError "[E088] Text exceeds maximum length")
  else Ok tt.

(** [f(m) if m else None] for a conversion [f] that can raise. *)
Definition on_match {A} (m : option groups) (f : groups -> res A)
  : res (option A) :=
  match m with
  | Some g => let* a := f g in Ok (Some a)
  | None => Ok None
  end.

(** The body of the [try] block of [extract_entities]. *)
Definition extract_entities_body (query : string) : res Entities :=
  let* doc := nlp (lower query) in
  let age_gender_match := re_search age_gender_re query in
  let* a := on_match age_gender_match (fun m => py_int (group 1 m)) in
  let g :=
    (fun m => if String.eqb (upper (group 2 m)) "M"
              then "Male" else "Female") <$> age_gender_match in
  let duration_match := search_first duration_patterns query in
  let* pd :=
    on_match duration_match
      (fun m =>
         let* v := py_int (group 1 m) in
         Ok {| value := v; unit := normalize_unit (lower (group 2 m)) |}) in
  let query_lower := lower query in
  let proc := extract_procedure medical_patterns query_lower in
  let loc :=
    title <$> find (fun city => contains city query_lower) indian_cities in
  let amount_match := search_first amount_patterns query in
  let* amt :=
    on_match amount_match
      (fun m => py_int (remove_char "," (group 1 m))) in
  Ok {| age := a; gender := g; procedure := proc; location := loc;
        policy_duration := pd; claimed_amount := amt |}.

(** The record of the [except Exception] handler: every field is None. *)
Definition no_entities : Entities :=
  {| age := None; gender := None; procedure := None; location := None;
     policy_duration := None; claimed_amount := None |}.

Definition extract_entities (query : string) : Entities :=
  match extract_entities_body query with
  | Ok e => e
  | Raise _ => no_entities
  end.

(** ** [TextChunker.split_text_optimized] *)

Record TextChunker : Type := { chunk_size : nat; overlap : nat }.

Definition max_chunks : nat := 40.

Definition newline : ascii := ascii_of_nat 10.

(** [re.sub(r' +', ' ', text)], then
    [re.sub(r'\n\s*\n\s*\n+', '\n\n', text)], then [strip()]. *)
Definition _preprocess_text (text : string) : string :=
  let text := re_sub (plus (chr " ")) " " text in
  let text :=
    re_sub (seq [chr newline; RStar space; chr newline; RStar space;
                 plus (chr newline)])
           (String newline (String newline "")) text in
  strip text.

Definition is_terminator (c : ascii) : bool :=
  Ascii.eqb c "." || Ascii.eqb c "!" || Ascii.eqb c "?".

(** [for i in range(i, stop, -1): if text[i] in '.!?': end = i + 1; break]:
    the new [end], if the scan finds a terminator.  Every index visited is
    below [len(text)] where the function is called. *)
Fixpoint sentence_boundary (text : string) (stop i : nat) : option nat :=
  match i with
  | O => None
  | S i' =>
      if (i <=? stop)%nat then None
      else
        match String.get i text with
        | Some c =>
            if is_terminator c then Some (S i)
            else sentence_boundary text stop i'
        | None => sentence_boundary text stop i'
        end
  end.

(** The end of the chunk that starts at [start]. *)
Definition chunk_end (c : TextChunker) (text : string) (start : nat) : nat :=
  let end_ := (start + chunk_size c)%nat in
  if (end_ <? String.length text)%nat then
    match sentence_boundary text
            (Nat.max (start + chunk_size c / 2) (end_ - 100)) end_ with
    | Some e => e
    | None => end_
    end
  else end_.

(** [if chunk and len(chunk) > 50: chunks.append(chunk)] *)
Definition keep_chunk (chunks : list string) (chunk : string) : list string :=
  if negb (String.eqb chunk "") && (50 <? String.length chunk)%nat
  then chunks ++ [chunk] else chunks.

(** [start = end - self.overlap if end > self.overlap else end] *)
Definition next_start (c : TextChunker) (end_ : nat) : nat :=
  if (overlap c <? end_)%nat then (end_ - overlap c)%nat else end_.

(** The [while] loop; [None] when [fuel] iterations do not finish it. *)
Fixpoint split_loop (fuel : nat) (c : TextChunker) (text : string)
    (start : nat) (chunks : list string) : option (list string) :=
  if (start <? String.length text)%nat && (length chunks <? max_chunks)%nat
  then
    match fuel with
    | O => None
    | S fuel' =>
        let end_ := chunk_end c text start in
        let chunk := strip (slice text start end_) in
        let chunks := keep_chunk chunks chunk in
        let start := next_start c end_ in
        if (String.length text <=? start)%nat then Some chunks
        else split_loop fuel' c text start chunks
    end
  else Some chunks.

Definition split_text_optimized (fuel : nat) (c : TextChunker) (text : string)
  : option (list string) :=
  if String.eqb text "" || (String.length (strip text) <? 50)%nat
  then Some []
  else split_loop fuel c (_preprocess_text text) 0 [].

(** ** The callers of the chunker (main.py) and the prompt (llm.py) *)

(** An endpoint either goes on or raises an [HTTPException]. *)
Inductive http (A : Type) : Type :=
| HttpOk (a : A)
| HttpError (status_code : nat) (detail : string).
Arguments HttpOk {A} a.
Arguments HttpError {A} status_code detail.

(** Steps 1 and 2 of [process_pdf_qa], from the extracted text to the chunks
    handed to the vector store; the chunker is the one [get_components]
    builds, [TextChunker(chunk_size=600, overlap=100)].  [None] when the
    loop of the chunker does not finish within [fuel] iterations. *)
Definition text_chunker : TextChunker := {| chunk_size := 600; overlap := 100 |}.

Definition chunks_for_store (fuel : nat) (pdf_text : string)
  : option (http (list string)) :=
  if String.eqb pdf_text "" || (String.length (strip pdf_text) <? 100)%nat
  then Some (HttpError 400 "Could not extract sufficient text from PDF")
  else
    match split_text_optimized fuel text_chunker pdf_text with
    | None => None
    | Some chunks =>
        match chunks with
        | [] => Some (HttpError 400 "No text chunks generated from PDF")
        | _ =>
            Some (HttpOk (if (50 <? length chunks)%nat
                          then take 50 chunks else chunks))
        end
    end.

(** [sep.join(parts)] *)
Fixpoint join (sep : string) (parts : list string) : string :=
  match parts with
  | [] => ""
  | [part] => part
  | part :: rest => part +:+ sep +:+ join sep rest
  end.

(** [str(n)] for a natural number. *)
Definition str_of_nat (n : nat) : string := pretty n.

Definition max_context_length : nat := 2000.

(** The loop of [LLMClient._create_optimized_prompt] over
    [enumerate(context_chunks[:3])], from index [i] on. *)
Fixpoint context_loop (i : nat) (chunks : list string)
    (context_parts : list string) (current_length : nat) : list string :=
  match chunks with
  | [] => context_parts
  | chunk :: rest =>
      if (max_context_length <? current_length + String.length chunk)%nat
      then context_parts
      else context_loop (S i) rest
             (context_parts
              ++ ["Context " +:+ str_of_nat (i + 1) +:+ ": " +:+ chunk])
             (current_length + String.length chunk)
  end.

Definition prompt_head : string :=
  "Based on the provided context, answer the question directly and concisely.

Context:
".

Definition prompt_middle : string := "

Question: ".

Definition prompt_tail : string := "

Instructions:
- Use only the provided context
- Be direct and specific
- If information is insufficient, state clearly
- Keep answer under 200 words

ANSWER: [Your answer here]
REASONING: [Brief explanation]".

Definition _create_optimized_prompt (question : string)
    (context_chunks : list string) : string :=
  let context_parts := context_loop 0 (take 3 context_chunks) [] 0 in
  let context := join (String newline (String newline "")) context_parts in
  prompt_head +:+ context +:+ prompt_middle +:+ question +:+ prompt_tail.

(** The first occurrence of [sep] in [s]: the text before it and the text
    after it. *)
Fixpoint find_first (sep s : string) : option (string * string) :=
  if String.prefix sep s then Some ("", str_drop (String.length sep) s)
  else match s with
       | EmptyString => None
       | String c s' =>
           match find_first sep s' with
           | Some (before, after) => Some (String c before, after)
           | None => None
           end
       end.

(** [s.split(sep)] for a non-empty [sep], cutting from left to right; every
    cut removes at least one character, so [String.length s] cuts are
    enough. *)
Fixpoint split_fuel (fuel : nat) (sep s : string) : list string :=
  match fuel with
  | O => [s]
  | S fuel =>
      match find_first sep s with
      | Some (before, after) => before :: split_fuel fuel sep after
      | None => [s]
      end
  end.
Definition str_split (sep s : string) : list string :=
  split_fuel (String.length s) sep s.

(** [s.replace(old, new)] for a non-empty [old]. *)
Fixpoint replace_fuel (fuel : nat) (old new s : string) : string :=
  match fuel with
  | O => s
  | S fuel =>
      match find_first old s with
      | Some (before, after) =>
          before +:+ new +:+ replace_fuel fuel old new after
      | None => s
      end
  end.
Definition str_replace (old new s : string) : string :=
  replace_fuel (String.length s) old new s.

Definition no_reasoning : string :=
  "Generated response without explicit reasoning".

(** "Parse answer and reasoning" in [LLMClient.generate_answer_optimized],
    from the content of the first choice of the reply.  [parts[1]] exists
    whenever the test holds. *)
Definition parse_reply (raw_content : string) : string * string :=
  let content := strip raw_content in
  if contains "ANSWER:" content && contains "REASONING:" content
  then
    let parts := str_split "REASONING:" content in
    let answer := strip (str_replace "ANSWER:" "" (nth 0 parts "")) in
    let reasoning := strip (nth 1 parts "") in
    (answer, reasoning)
  else (content, no_reasoning).

(** The text after the first occurrence of [sep], if there is one. *)
Fixpoint after_first_opt (sep s : string) : option string :=
  if String.prefix sep s then Some (str_drop (String.length sep) s)
  else match s with
       | EmptyString => None
       | String _ s' => after_first_opt sep s'
       end.

(** [s.split(sep, 1)[-1]]: the text after the first occurrence of [sep], or
    all of [s] when there is none. *)
Definition after_first (sep s : string) : string :=
  default s (after_first_opt sep s).

Definition no_answer : string :=
  "I cannot find sufficient information to answer this question.".

(** "Clean answer" and "Limit answer length" in [process_pdf_qa]. *)
Definition clean_answer (answer : string) : string :=
  let answer :=
    if negb (String.eqb answer "")
       && String.prefix "answer:" (lower (strip answer))
    then strip (after_first "ANSWER:" answer)
    else answer in
  let answer :=
    if String.eqb answer "" || (String.length (strip answer) <? 5)%nat
    then no_answer else answer in
  if (500 <? String.length answer)%nat
  then str_take 500 answer +:+ "..." else answer.

(** ** The text of a PDF ([PDFProcessor], utils.py) *)

(** [re.sub(r, repl, s)] for a pattern that matches no empty string and a
    replacement that refers to the groups of the match. *)
Fixpoint re_sub_groups_from (fuel : nat) (r : regex)
    (repl : groups -> string) (s : string) : string :=
  match fuel, s with
  | S fuel', String c s' =>
      match rmatch r s [] (fun rest g => Some (rest, g)) with
      | Some (rest, g) =>
          if (String.length rest <? String.length s)%nat
          then repl g +:+ re_sub_groups_from fuel' r repl rest
          else String c (re_sub_groups_from fuel' r repl s')
      | None => String c (re_sub_groups_from fuel' r repl s')
      end
  | _, _ => s
  end.
Definition re_sub_groups (r : regex) (repl : groups -> string)
    (s : string) : string :=
  re_sub_groups_from (String.length s) r repl s.

(** The replacement [r'\1 \2']. *)
Definition spaced_groups (g : groups) : string :=
  group 1 g +:+ " " +:+ group 2 g.

(** [(p)(q)] for two character classes. *)
Definition two_chars (p q : ascii -> bool) : regex :=
  seq [RGroup 1 (RChar p); RGroup 2 (RChar q)].

Definition is_dot (c : ascii) : bool := Ascii.eqb "." c.

(** [PDFProcessor._clean_text]: [re.sub(r'\s+', ' ', text)],
    [re.sub(r'\n\s*\n', '\n\n', text)],
    [re.sub(r'([a-z])([A-Z])', r'\1 \2', text)],
    [re.sub(r'(\.)([A-Z])', r'\1 \2', text)], then [strip()]. *)
Definition _clean_text (text : string) : string :=
  let text := re_sub (plus space) " " text in
  let text :=
    re_sub (seq [chr newline; RStar space; chr newline])
           (String newline (String newline "")) text in
  let text := re_sub_groups (two_chars is_lower is_upper) spaced_groups text in
  let text := re_sub_groups (two_chars is_dot is_upper) spaced_groups text in
  strip text.

Definition max_text_length : nat := Z.to_nat 100000.

Definition truncation_note : string :=
  String newline "[Content truncated for memory efficiency]".

(** "Clean and limit text length" in [_extract_text_from_file]: the text
    the PDF processor returns for the text of the pages. *)
Definition clean_and_limit (text_content : string) : string :=
  let text_content := _clean_text text_content in
  if (max_text_length <? String.length text_content)%nat
  then str_take max_text_length text_content +:+ truncation_note
  else text_content.

(** ** The vector store (vector.py) *)

(** [range(0, n, step)] for a positive [step]. *)
Definition range_step (n step : nat) : list nat :=
  map (fun k => (k * step)%nat) (List.seq 0 ((n + step - 1) / step))%nat.

(** [for i in range(0, len(l), size): batch = l[i:i + size]] *)
Definition batches {A} (size : nat) (l : list A) : list (list A) :=
  map (fun i => take size (drop i l)) (range_step (length l) size).

(** [VectorStore._create_chunk_id] *)
Definition _create_chunk_id (doc_id : string) (chunk_index : nat) : string :=
  doc_id +:+ "_chunk_" +:+ str_of_nat chunk_index.

Section VectorStore.
(** The embedding model and the hash are library code: [encode] is
    [embedding_model.encode] on one batch, [md5_hexdigest s] is
    [hashlib.md5(s.encode()).hexdigest()]. *)
Variable embedding : Type.
Variable encode : list string -> list embedding.
Variable md5_hexdigest : string -> string.

(** A vector as it is upserted; the metadata dict is flattened. *)
Record vector : Type := {
  v_id : string;
  v_values : embedding;
  v_doc_id : string;
  v_doc_title : string;
  v_chunk_index : nat;
  v_text : string;
  v_chunk_length : nat
}.

Definition _generate_embeddings (texts : list string) : list embedding :=
  match texts with
  | [] => []
  | _ => concat (map encode (batches 8 texts))
  end.

Definition document_vectors (doc_id doc_title : string)
    (chunks : list string) (embeddings : list embedding) : list vector :=
  imap (fun i '(chunk, emb) =>
          {| v_id := _create_chunk_id doc_id i;
             v_values := emb;
             v_doc_id := doc_id;
             v_doc_title := str_take 100 doc_title;
             v_chunk_index := i;
             v_text := str_take 1000 chunk;
             v_chunk_length := String.length chunk |})
       (zip chunks embeddings).

(** [store_document_chunks_optimized]: the document id it returns and the
    batches it upserts, after the calls [upserted] already made. *)
Definition store_document_chunks_optimized (chunks : list string)
    (doc_title : string) (upserted : list (list vector))
  : string * list (list vector) :=
  let doc_id := str_take 12 (md5_hexdigest doc_title) in
  let embeddings := _generate_embeddings chunks in
  let vectors := document_vectors doc_id doc_title chunks embeddings in
  (doc_id, upserted ++ batches 25 vectors).
End VectorStore.

(** ** Clause categories (document_processor.py) *)

(** [any(word in text_lower for word in words)] *)
Definition any_in (words : list string) (text_lower : string) : bool :=
  existsb (fun word => contains word text_lower) words.

(** [DocumentProcessor._categorize_clause] *)
Definition _categorize_clause (text : string) : string :=
  let text_lower := lower text in
  if any_in ["define"; "means"; "definition"] text_lower then "definitions"
  else if any_in ["cover"; "benefit"; "include"] text_lower then "coverage"
  else if any_in ["exclude"; "not cover"; "limitation"] text_lower
  then "exclusions"
  else if any_in ["eligible"; "qualify"; "requirement"] text_lower
  then "eligibility"
  else if any_in ["claim"; "procedure"; "process"] text_lower then "claims"
  else "general".

(** ** Vocabulary of the statements *)

(** The duration in days as the rules describe it: months of 30 days, years
    of 365 days, 0 without a duration. *)
Definition duration_days (pd : option Duration) : Z :=
  match pd with
  | Some d =>
      if String.eqb (unit d) "month" then value d * 30
      else if String.eqb (unit d) "year" then value d * 365
      else 0
  | None => 0
  end.

Definition duration_steps (pd : option Duration) : list text :=
  match pd with
  | Some _ =>
      [[Lit "Policy duration: "; Val (PInt (duration_days pd)); Lit " days"]]
  | None => []
  end.

(** The first reasoning step for an entity record. *)
Definition analyzing_step (e : Entities) : text :=
  [Lit "Analyzing query for: Age="; Val (opt_val PInt (age e));
   Lit ", Gender="; Val (opt_val PStr (gender e)); Lit ", Procedure=";
   Val (PStr (lower (default "" (procedure e))))].

Definition is_metro (loc : option string) : bool :=
  match loc with
  | Some l => str_in (lower l) metro_cities
  | None => false
  end.

(** The age can be printed: it is absent or has at most 4300 digits. *)
Definition age_prints (a : option Z) : bool :=
  match a with
  | Some z => int_renders z
  | None => true
  end.

(** The age is absent (or the marker 0) or within the eligible range. *)
Definition age_eligible (a : option Z) : Prop :=
  match a with
  | Some z => z = 0 \/ 18 <= z <= 70
  | None => True
  end.

(** No age-based adjustment applies. *)
Definition age_unadjusted (a : option Z) : Prop :=
  match a with
  | Some z => z = 0 \/ 25 <= z <= 60
  | None => True
  end.

Definition heart_group (procedure : string) : bool :=
  contains "heart" procedure || contains "cardiac" procedure
  || contains "cabg" procedure.


(** The amounts the procedure rules assign. *)
Definition base_amounts : list Z := [120000; 150000; 500000; 1000000; 60000].

(** What the procedure rules leave in the locals: a rejection without an
    amount, or an approval with one of the base amounts. *)
Definition rules_outcome (st : locals) : Prop :=
  (l_decision st = Rejected /\ l_amount st = None)
  \/ (l_decision st = Approved
      /\ exists b, l_amount st = Some b /\ In b base_amounts).

(** A decision and its amount agree: a rejection carries no amount, an
    approval carries a positive one. *)
Definition amount_agrees (d : Decision) (a : option Z) : Prop :=
  (d = Rejected /\ a = None) \/ (d = Approved /\ exists z, a = Some z /\ 0 < z).

(** Every iteration of the chunking loop moves [start] forward. *)
Definition advances (c : TextChunker) : Prop :=
  (overlap c < chunk_size c /\ overlap c <= chunk_size c / 2 + 1)%nat.

(** A returned chunk: trimmed, longer than 50 characters, and at most one
    character longer than [chunk_size]. *)
Definition chunk_ok (c : TextChunker) (chunk : string) : Prop :=
  strip chunk = chunk
  /\ (50 < String.length chunk <= chunk_size c + 1)%nat.

Definition terminator_at (text : string) (i : nat) : Prop :=
  exists ch, String.get i text = Some ch /\ is_terminator ch = true.

(** [n] copies of the character [c]. *)
Definition fill (n : nat) (c : ascii) : string :=
  string_of_list_ascii (repeat c n).

(** ** Vocabulary of the further properties *)

(** The last reasoning step of a run that reaches the end of the rules. *)
Definition final_step (d : Decision) (a : option Z) : text :=
  [Lit "Final decision: "; Val (PStr (decision_str d)); Lit ", Amount: ";
   Val (amount_val a)].

(** The confidences the rules assign. *)
Definition rule_confidences : list Q := [0.95; 0.9; 0.85; 0.8; 0.5]%Q.

(** How decision, confidence and cited clauses go together in the locals: a
    rejection cites nothing, an approval cites one of the two built-in
    clauses with the confidence as its similarity. *)
Definition cites_ok (d : Decision) (c : Q) (cl : list Clause) : Prop :=
  In c rule_confidences
  /\ ((d = Rejected /\ cl = [])
      \/ (d = Approved /\ (cl = [BAJ_003 c] \/ cl = [HDFC_001 c]))).

(** The age bands of the business rules. *)
Inductive age_band : Type := Senior | Young | Standard.

Definition band_of (a : option Z) : age_band :=
  match a with
  | Some z =>
      if negb (z =? 0) && (z >? 60) then Senior
      else if negb (z =? 0) && (z <? 25) then Young
      else Standard
  | None => Standard
  end.

(** The adjusted amount in exact arithmetic: +10% for a metro city, then
    +15% for a senior or -10% for a young adult. *)
Definition exact_amount (base : Z) (metro : bool) (band : age_band) : Z :=
  base * (if metro then 110 else 100)
  * match band with Senior => 115 | Young => 90 | Standard => 100 end
  / 10000.

(** The amount the matching rule assigns before the adjustments. *)
Definition rule_base (q : string) (a : option Z) : Z :=
  if contains "knee" q then
    if match a with Some z => z >? 45 | None => false end
    then 150000 else 120000
  else if heart_group q then 500000
  else if contains "cancer" q then 1000000
  else 60000.

(** Every character of [s] belongs to the class [p]. *)
Fixpoint all_chars (p : ascii -> bool) (s : string) : bool :=
  match s with
  | String c s' => p c && all_chars p s'
  | EmptyString => true
  end.

(** The [try] block of [extract_entities] raised, so the handler returned
    the record without entities. *)
Definition extraction_failed (query : string) : Prop :=
  exists err, extract_entities_body query = Raise err.

(** All procedure patterns, in the order the two nested loops of the
    extractor visit them. *)
Definition all_patterns : list string :=
  concat (map snd medical_patterns).

(** What the backtracking matcher finds: [matches r m rest g g'] says that
    [r] matches the text [m], followed in the subject by [rest], and turns
    the captures [g] into [g']. *)
Inductive matches : regex -> string -> string -> groups -> groups -> Prop :=
| m_eps rest g : matches REps "" rest g g
| m_char (p : ascii -> bool) c rest g :
    p c = true -> matches (RChar p) (String c "") rest g g
| m_seq r1 r2 m1 m2 rest g g1 g2 :
    matches r1 m1 (m2 +:+ rest) g g1 ->
    matches r2 m2 rest g1 g2 ->
    matches (RSeq r1 r2) (m1 +:+ m2) rest g g2
| m_alt_l r1 r2 m rest g g' :
    matches r1 m rest g g' -> matches (RAlt r1 r2) m rest g g'
| m_alt_r r1 r2 m rest g g' :
    matches r2 m rest g g' -> matches (RAlt r1 r2) m rest g g'
| m_star_nil r rest g : matches (RStar r) "" rest g g
| m_star_cons r m1 m2 rest g g1 g2 :
    matches r m1 (m2 +:+ rest) g g1 ->
    matches (RStar r) m2 rest g1 g2 ->
    matches (RStar r) (m1 +:+ m2) rest g g2
| m_opt_some r m rest g g' :
    matches r m rest g g' -> matches (ROpt r) m rest g g'
| m_opt_none r rest g : matches (ROpt r) "" rest g g
| m_group n r m rest g g' :
    matches r m rest g g' -> matches (RGroup n r) m rest g ((n, m) :: g')
| m_end rest g :
    rest = "" \/ rest = String newline "" -> matches REnd "" rest g g.

(** A pattern without capturing groups. *)
Fixpoint group_free (r : regex) : bool :=
  match r with
  | REps | RChar _ | REnd => true
  | RSeq r1 r2 | RAlt r1 r2 => group_free r1 && group_free r2
  | RStar r1 | ROpt r1 => group_free r1
  | RGroup _ _ => false
  end.

(** The characters of a list of strings. *)
Definition total_length (l : list string) : nat :=
  foldr (fun s n => (String.length s + n)%nat) 0%nat l.

(** The context lines of the prompt for the chunks that are used. *)
Definition context_lines (chunks : list string) : list string :=
  imap (fun k chunk => "Context " +:+ str_of_nat (k + 1) +:+ ": " +:+ chunk)
       chunks.

(** The procedure patterns of the extractor that no branch of the engine
    matches. *)
Definition unmatched_patterns : list string :=
  ["bypass"; "tumor"; "oncology"; "chemotherapy"; "lasik"; "day care";
   "daycare"; "outpatient"].

(** No character of the class [p] is directly followed by one of the class
    [q]. *)
Fixpoint no_pair (p q : ascii -> bool) (s : string) : bool :=
  match s with
  | String c s' =>
      negb (p c && match s' with String d _ => q d | EmptyString => false end)
      && no_pair p q s'
  | EmptyString => true
  end.

Definition is_blank (c : ascii) : bool := Ascii.eqb " " c.

(** Every white-space character is a blank. *)
Fixpoint blanks_only (s : string) : bool :=
  match s with
  | String c s' => (negb (is_space c) || is_blank c) && blanks_only s'
  | EmptyString => true
  end.

(** The reply format the prompt asks for. *)
Definition reply_format (answer reasoning : string) : string :=
  "ANSWER: " +:+ answer +:+ String newline ("REASONING: " +:+ reasoning).

(** * Properties *)

(** ** Strings *)

Lemma prefix_lower (sub s : string) :
  String.prefix sub s = true -> String.prefix (lower sub) (lower s) = true.
Proof.
  revert s; induction sub as [|a sub IH]; intros [|b s]; simpl; try done.
  destruct (ascii_dec a b) as [->|]; [|done].
  intros H. destruct (ascii_dec (lower_char b) (lower_char b)); [auto|done].
Qed.

(** A lower-case needle found in [s] is found in [s.lower()]. *)
Lemma contains_lower (sub s : string) :
  lower sub = sub -> contains sub s = true -> contains sub (lower s) = true.
Proof.
  intros Hsub. induction s as [|b s IH].
  - simpl. destruct (String.prefix sub "") eqn:E; [|done].
    intros _. apply prefix_lower in E. rewrite Hsub in E. simpl in E.
    by rewrite E.
  - cbn [contains lower].
    destruct (String.prefix sub (String b s)) eqn:E.
    + intros _. apply prefix_lower in E. rewrite Hsub in E.
      cbn [lower] in E. by rewrite E.
    + intros H. rewrite (IH H).
      by destruct (String.prefix sub (String (lower_char b) (lower s))).
Qed.

Lemma length_lstrip (s : string) :
  (String.length (lstrip s) <= String.length s)%nat.
Proof.
  induction s as [|c s IH]; simpl; [lia|].
  destruct (is_space c); simpl; lia.
Qed.

Lemma length_rstrip (s : string) :
  (String.length (rstrip s) <= String.length s)%nat.
Proof.
  induction s as [|c s IH]; simpl; [lia|].
  destruct (rstrip s) eqn:E; [destruct (is_space c)|]; simpl in *; lia.
Qed.

Lemma length_strip (s : string) :
  (String.length (strip s) <= String.length s)%nat.
Proof.
  unfold strip. pose proof (length_rstrip (lstrip s)).
  pose proof (length_lstrip s). lia.
Qed.

Lemma length_str_take (n : nat) (s : string) :
  (String.length (str_take n s) <= n)%nat.
Proof.
  revert s; induction n as [|n IH]; intros [|c s]; simpl; try lia.
  specialize (IH s). lia.
Qed.

Lemma length_slice (s : string) (a b : nat) :
  (String.length (slice s a b) <= b - a)%nat.
Proof. apply length_str_take. Qed.

(** ** Floating point *)

(** The three factors are the doubles Python reads the literals as:
    [1.1 = 0x1.199999999999ap+0], [1.15 = 0x1.2666666666666p+0] and
    [0.9 = 0x1.ccccccccccccdp-1]. *)
Lemma float_literals :
  float_1_1 = S754_finite false 0x1199999999999a (-52)
  /\ float_1_15 = S754_finite false 0x12666666666666 (-52)
  /\ float_0_9 = S754_finite false 0x1ccccccccccccd (-53).
Proof. vm_compute. split_and!; reflexivity. Qed.

(** [int(b * f)] on the amounts the rules can reach, next to the exact
    product: truncation of the double loses one unit exactly once. *)
Lemma adjusted_amounts :
  map (fun b => int_mul_float b float_1_1) base_amounts
  = map Ok [132000; 165000; 550000; 1100000; 66000]
  /\ map (fun b => int_mul_float b float_1_15)
       (base_amounts ++ [132000; 165000; 550000; 1100000; 66000])
     = map Ok [138000; 172500; 575000; 1150000; 69000;
               151800; 189749; 632500; 1265000; 75900]
  /\ map (fun b => int_mul_float b float_0_9)
       (base_amounts ++ [132000; 165000; 550000; 1100000; 66000])
     = map Ok [108000; 135000; 450000; 900000; 54000;
               118800; 148500; 495000; 990000; 59400].
Proof. vm_compute. split_and!; reflexivity. Qed.

(** ** The evaluation of f-strings *)

Lemma fstr_inv (pieces t : list piece) :
  fstr pieces = Ok t -> t = pieces /\ forallb piece_renders pieces = true.
Proof. unfold fstr. destruct (forallb _ _); [|done]. by intros [= <-]. Qed.

Lemma fstr_ok (pieces : list piece) :
  forallb piece_renders pieces = true -> fstr pieces = Ok pieces.
Proof. unfold fstr. by intros ->. Qed.

Lemma fstr_raise (pieces : list piece) (err : exn) :
  fstr pieces = Raise err ->
  err = int_to_str_error /\ forallb piece_renders pieces = false.
Proof. unfold fstr. destruct (forallb _ _); [done|]. by intros [= <-]. Qed.

Lemma int_str_limit_large : 10 ^ 10 < int_str_limit.
Proof. vm_compute. reflexivity. Qed.

Lemma int_renders_small (z : Z) : Z.abs z < 10 ^ 10 -> int_renders z = true.
Proof. unfold int_renders. pose proof int_str_limit_large. lia. Qed.

(** A factor of a number that can be printed can be printed. *)
Lemma int_renders_factor (z n : Z) :
  n <> 0 -> int_renders (z * n) = true -> int_renders z = true.
Proof. unfold int_renders. intros Hn H. nia. Qed.

(** An f-string whose interpolated numbers are known to be printable (a
    literal, or by a hypothesis) is evaluated. *)
Ltac solve_renders :=
  cbn [forallb piece_renders renders amount_val];
  repeat match goal with
    | |- context [int_renders ?z] =>
        let H := fresh in
        assert (int_renders z = true) as H
          by (assumption
              || (apply int_renders_small; vm_compute; reflexivity));
        rewrite H; clear H
    end;
  reflexivity.
Ltac fstr_next := rewrite fstr_ok by solve_renders; cbn [res_bind].

(** ** The decision engine on arbitrary values *)

(** Case analysis of a computation in the exception monad that is known to
    return. *)
Ltac res_cases :=
  repeat match goal with
    | H : Raise _ = Ok _ |- _ => discriminate H
    | H : fstr _ = Ok _ |- _ => apply fstr_inv in H as [-> _]
    | H : Ok _ = Ok _ |- _ => injection H as H; try subst
    | H : res_bind ?m _ = Ok _ |- _ =>
        let E := fresh "E" in
        destruct m as [?|?] eqn:E; cbn [res_bind] in H; [|discriminate H]
    | H : (let '(_, _) := ?p in _) = Ok _ |- _ => destruct p
    | H : (if ?b then _ else _) = Ok _ |- _ =>
        let E := fresh "E" in destruct b eqn:E
    end.

Lemma procedure_rules_outcome (procedure : string)
    (age pd dd : pyval) (steps : list text) (st : locals) :
  procedure_rules procedure age pd dd steps = Ok st -> rules_outcome st.
Proof.
  unfold procedure_rules, rules_outcome, base_amounts. intros H.
  res_cases; cbn;
    try match goal with |- context [if ?b then _ else _] => destruct b end;
    eauto 10.
Qed.

Lemma metro_adjustment_amounts (location : pyval) (b a : Z)
    (steps : list text) :
  metro_adjustment location b = Ok (a, steps) ->
  In b base_amounts ->
  In a (base_amounts ++ [132000; 165000; 550000; 1100000; 66000]).
Proof.
  unfold metro_adjustment. intros H Hb.
  destruct (in_metro location) as [[|]|]; cbn [res_bind] in H;
    [| injection H as <- _; apply in_or_app; by left | discriminate H].
  cbn in Hb.
  destruct Hb as [<-|[<-|[<-|[<-|[<-|[]]]]]];
    vm_compute in H; injection H as <- _; cbn; tauto.
Qed.

Lemma age_adjustment_positive (age : pyval) (b a : Z) (steps : list text) :
  age_adjustment age b = Ok (a, steps) ->
  In b (base_amounts ++ [132000; 165000; 550000; 1100000; 66000]) ->
  0 < a.
Proof.
  unfold age_adjustment. intros H Hb.
  destruct (age_above age 60) as [[|]|]; cbn [res_bind] in H;
    [| destruct (age_below age 25) as [[|]|]; cbn [res_bind] in H |];
    try discriminate H; cbn in Hb;
    destruct Hb as [<-|[<-|[<-|[<-|[<-|[<-|[<-|[<-|[<-|[<-|[]]]]]]]]]]];
    vm_compute in H; injection H as <- _; reflexivity.
Qed.

Lemma business_rules_agrees (age location : pyval) (st st' : locals) :
  business_rules age location st = Ok st' ->
  rules_outcome st ->
  amount_agrees (l_decision st') (l_amount st').
Proof.
  unfold business_rules, rules_outcome, amount_agrees.
  intros H [[Hd Ha]|[Hd [b [Ha Hb]]]]; rewrite Hd in H; try rewrite Ha in H.
  - injection H as <-. by left.
  - right.
    assert ((b =? 0) = false) as Hz
      by (cbn in Hb; destruct Hb as [<-|[<-|[<-|[<-|[<-|[]]]]]]; reflexivity).
    rewrite Hz in H.
    destruct (metro_adjustment location b) as [[a1 s1]|] eqn:E1;
      cbn [res_bind] in H; [|discriminate H].
    destruct (age_adjustment age a1) as [[a2 s2]|] eqn:E2;
      cbn [res_bind] in H; [|discriminate H].
    injection H as <-. cbn [l_decision l_amount]. split; [done|].
    exists a2. split; [done|].
    eauto using age_adjustment_positive, metro_adjustment_amounts.
Qed.

Lemma assess_agrees (procedure : string)
    (policy_duration age gender location : pyval) (r : DecisionResult) :
  assess procedure policy_duration age gender location = Ok r ->
  amount_agrees (decision r) (amount r).
Proof.
  unfold assess. intros H.
  destruct (fstr _) as [step|]; cbn [res_bind] in H; [|discriminate H].
  destruct (duration_in_days policy_duration) as [[dd ds]|];
    cbn [res_bind] in H; [|discriminate H].
  destruct (age_out_of_range age) as [[|]|]; cbn [res_bind] in H;
    [| | discriminate H].
  { destruct (fstr _); cbn [res_bind] in H; [|discriminate H].
    injection H as <-. by left. }
  destruct (String.eqb procedure ""); [injection H as <-; by left|].
  destruct (procedure_rules _ _ _ _ _) as [st|] eqn:Ep;
    cbn [res_bind] in H; [|discriminate H].
  destruct (business_rules age location st) as [st'|] eqn:Eb;
    cbn [res_bind] in H; [|discriminate H].
  destruct (fstr _); cbn [res_bind] in H; [|discriminate H].
  injection H as <-. cbn [decision amount _format_result].
  eauto using business_rules_agrees, procedure_rules_outcome.
Qed.

Lemma make_decision_body_agrees (entities clauses : pyval)
    (r : DecisionResult) :
  make_decision_body entities clauses = Ok r ->
  amount_agrees (decision r) (amount r).
Proof.
  unfold make_decision_body. intros H.
  repeat match type of H with
    | res_bind ?m _ = Ok _ =>
        destruct m as [?|?]; cbn [res_bind] in H; [|discriminate H]
    end.
  eauto using assess_agrees.
Qed.

Lemma make_decision_agrees (entities clauses : pyval) :
  amount_agrees (decision (make_decision entities clauses))
    (amount (make_decision entities clauses)).
Proof.
  unfold make_decision.
  destruct (make_decision_body entities clauses) as [r|err] eqn:E.
  - eauto using make_decision_body_agrees.
  - by left.
Qed.

(** C9. For every input, the result of [make_decision] has no amount if and
    only if the decision is Rejected; an Approved result carries a positive
    integer amount, and no Rejected result (a business rejection or the
    fall-back of the exception handler) carries one. *)
Theorem make_decision_amount_iff_approved (entities clauses : pyval) :
  let r := make_decision entities clauses in
  (amount r = None <-> decision r = Rejected)
  /\ (decision r = Approved -> exists a, amount r = Some a /\ 0 < a)
  /\ (decision r = Rejected -> amount r = None).
Proof.
  cbn zeta.
  destruct (make_decision_agrees entities clauses)
    as [[-> ->]|[-> [a [-> Ha]]]].
  - split_and!; [done | discriminate | done].
  - split_and!; [split; discriminate | eauto | discriminate].
Qed.

Lemma make_decision_amount_iff_approved_witness :
  let r := make_decision
             (entities_dict (extract_entities "30F, cataract, Surat"))
             (PList []) in
  decision r = Rejected /\ amount r = None.
Proof.
  cbn zeta.
  assert (decision
            (make_decision
               (entities_dict (extract_entities "30F, cataract, Surat"))
               (PList [])) = Rejected) as H by (vm_compute; reflexivity).
  split; [exact H|].
  exact (proj2 (proj2 (make_decision_amount_iff_approved _ _)) H).
Defined.

(** C5. [make_decision] never raises: it returns a result on every input,
    and whenever the body of its [try] block raises (as it does for entities
    that are not a dict), the result is the fail-safe record: Rejected, no
    amount, justification "Error processing claim", confidence 0.1, no
    source clauses, and the error message as the reasoning step. *)
Theorem make_decision_never_raises (entities clauses : pyval) :
  (exists r, make_decision entities clauses = r
     /\ (make_decision_body entities clauses = Ok r
         \/ exists err,
              make_decision_body entities clauses = Raise err
              /\ r = {| decision := Rejected;
                        amount := None;
                        justification := [Lit "Error processing claim"];
                        confidence := 0.1;
                        source_clauses := [];
                        reasoning_steps := [[Lit "Error: "; ExnMsg err]] |}))
  /\ ((forall d, entities <> PDict d) ->
      make_decision entities clauses
      = {| decision := Rejected;
           amount := None;
           justification := [Lit "Error processing claim"];
           confidence := 0.1;
           source_clauses := [];
           reasoning_steps :=
             [[Lit "Error: ";
               ExnMsg (AttributeError (type_name entities) "get")]] |}).
Proof.
  split.
  - unfold make_decision.
    destruct (make_decision_body entities clauses) as [r|err];
      eexists; (split; [reflexivity|]); eauto.
  - intros Hnd. destruct entities; try reflexivity. by destruct (Hnd d).
Qed.

Lemma make_decision_never_raises_witness :
  make_decision (PStr "46M, knee surgery") PNone
  = {| decision := Rejected;
       amount := None;
       justification := [Lit "Error processing claim"];
       confidence := 0.1;
       source_clauses := [];
       reasoning_steps :=
         [[Lit "Error: "; ExnMsg (AttributeError "str" "get")]] |}.
Proof.
  apply (proj2 (make_decision_never_raises (PStr "46M, knee surgery") PNone)).
  intros d. discriminate.
Defined.

(** Malformed fields end in the handler too: a procedure that is a number,
    a policy duration that is a string, a duration without a numeric value,
    an age that is a string, a location that is a list. *)
Lemma malformed_entities_fail :
  let run d := make_decision (PDict d) (PStr "no clauses") in
  run {[ "procedure" := PInt 7 ]}
  = error_result (AttributeError "int" "lower")
  /\ run {[ "policy_duration" := PStr "3 months" ]}
     = error_result (AttributeError "str" "get")
  /\ run {[ "policy_duration" := PDict {[ "unit" := PStr "month";
                                          "value" := PNone ]} ]}
     = error_result (TypeError "*" "NoneType" "int")
  /\ run {[ "age" := PStr "46" ]} = error_result (TypeError "<" "str" "int")
  /\ run (<["procedure" := PStr "cancer"]> {[ "location" := PList [PNone] ]})
     = error_result (AttributeError "list" "lower").
Proof. vm_compute. split_and!; reflexivity. Qed.

(** ** The decision engine on entity records *)

Section TypedEntities.
Variable e : Entities.

Lemma get_procedure (d : pyval) :
  py_get (entities_dict e) "procedure" d = Ok (opt_val PStr (procedure e)).
Proof. reflexivity. Qed.

Lemma get_policy_duration (d : pyval) :
  py_get (entities_dict e) "policy_duration" d
  = Ok (opt_val duration_dict (policy_duration e)).
Proof. reflexivity. Qed.

Lemma get_age (d : pyval) :
  py_get (entities_dict e) "age" d = Ok (opt_val PInt (age e)).
Proof. reflexivity. Qed.

Lemma get_gender (d : pyval) :
  py_get (entities_dict e) "gender" d = Ok (opt_val PStr (gender e)).
Proof. reflexivity. Qed.

Lemma get_location (d : pyval) :
  py_get (entities_dict e) "location" d = Ok (opt_val PStr (location e)).
Proof. reflexivity. Qed.
End TypedEntities.

Lemma make_decision_body_typed (e : Entities) (clauses : pyval) :
  make_decision_body (entities_dict e) clauses
  = assess (lower (default "" (procedure e)))
      (opt_val duration_dict (policy_duration e)) (opt_val PInt (age e))
      (opt_val PStr (gender e)) (opt_val PStr (location e)).
Proof.
  unfold make_decision_body.
  rewrite !get_procedure, get_policy_duration, get_age, get_gender,
    get_location.
  destruct (procedure e) as [[|ch p]|]; reflexivity.
Qed.

(** On an entity record the conversion to days fails only when the number
    of days cannot be printed. *)
Lemma duration_in_days_typed (pd : option Duration) :
  duration_in_days (opt_val duration_dict pd)
  = if int_renders (duration_days pd)
    then Ok (PInt (duration_days pd), duration_steps pd)
    else Raise int_to_str_error.
Proof.
  destruct pd as [[v u]|]; [|reflexivity].
  unfold duration_in_days, duration_steps; simpl opt_val.
  replace (truthy (duration_dict {| value := v; unit := u |})) with true
    by reflexivity.
  replace (py_get (duration_dict {| value := v; unit := u |}) "value" (PInt 0))
    with (@Ok pyval (PInt v)) by reflexivity.
  replace (py_get (duration_dict {| value := v; unit := u |}) "unit" (PStr ""))
    with (@Ok pyval (PStr u)) by reflexivity.
  cbn [res_bind py_eq_str].
  assert (forall z,
            (let* step :=
               fstr [Lit "Policy duration: "; Val (PInt z); Lit " days"] in
             Ok (PInt z, [step]))
            = if int_renders z
              then Ok (PInt z,
                       [[Lit "Policy duration: "; Val (PInt z); Lit " days"]])
              else Raise int_to_str_error) as Hstep.
  { intros z. unfold fstr. cbn [forallb piece_renders renders].
    rewrite andb_true_r. by destruct (int_renders z). }
  unfold duration_days. cbn [value unit].
  destruct (String.eqb u "month") eqn:Em; [cbn [py_mul res_bind]; apply Hstep|].
  destruct (String.eqb u "year") eqn:Ey; cbn [py_mul res_bind]; apply Hstep.
Qed.

Lemma age_eligible_prints (a : option Z) :
  age_eligible a -> age_prints a = true.
Proof.
  destruct a as [z|]; [|done]. cbn. intros Hz.
  apply int_renders_small. lia.
Qed.

Lemma fstr_analyzing_step (e : Entities) :
  fstr (analyzing_step e)
  = if age_prints (age e) then Ok (analyzing_step e)
    else Raise int_to_str_error.
Proof.
  unfold fstr, analyzing_step. cbn [forallb piece_renders].
  replace (renders (opt_val PStr (gender e))) with true
    by by destruct (gender e).
  cbn [renders andb]. rewrite andb_true_r.
  by destruct (age e).
Qed.

Lemma age_out_of_range_typed (a : option Z) :
  age_out_of_range (opt_val PInt a)
  = Ok (match a with
        | Some z => negb (z =? 0) && ((z <? 18) || (z >? 70))
        | None => false
        end).
Proof.
  destruct a as [z|]; [|reflexivity].
  unfold age_out_of_range; cbn.
  destruct (z =? 0); [reflexivity|]; cbn.
  destruct (z <? 18); reflexivity.
Qed.

Lemma in_metro_typed (loc : option string) :
  in_metro (opt_val PStr loc) = Ok (is_metro loc).
Proof. destruct loc as [[|ch l]|]; reflexivity. Qed.

Lemma age_above_typed (a : option Z) (n : Z) :
  age_above (opt_val PInt a) n
  = Ok (match a with Some z => negb (z =? 0) && (z >? n) | None => false end).
Proof.
  destruct a as [z|]; [|reflexivity].
  unfold age_above; cbn. destruct (z =? 0); reflexivity.
Qed.

Lemma age_below_typed (a : option Z) (n : Z) :
  age_below (opt_val PInt a) n
  = Ok (match a with Some z => negb (z =? 0) && (z <? n) | None => false end).
Proof.
  destruct a as [z|]; [|reflexivity].
  unfold age_below; cbn. destruct (z =? 0); reflexivity.
Qed.

Lemma metro_adjustment_typed (loc : option string) (b : Z) :
  In b base_amounts ->
  exists a steps,
    metro_adjustment (opt_val PStr loc) b = Ok (a, steps)
    /\ In a (base_amounts ++ [132000; 165000; 550000; 1100000; 66000])
    /\ (is_metro loc = false -> a = b).
Proof.
  intros Hb. unfold metro_adjustment. rewrite in_metro_typed.
  destruct (is_metro loc); cbn [res_bind].
  - cbn in Hb.
    destruct Hb as [<-|[<-|[<-|[<-|[<-|[]]]]]];
      eexists _, _; (split; [vm_compute; reflexivity|]);
      (split; [cbn; tauto | discriminate]).
  - eexists _, _. split; [reflexivity|]. split; [|done].
    apply in_or_app. by left.
Qed.

Lemma age_adjustment_typed (age : option Z) (b : Z) :
  In b (base_amounts ++ [132000; 165000; 550000; 1100000; 66000]) ->
  exists a steps,
    age_adjustment (opt_val PInt age) b = Ok (a, steps)
    /\ (age_unadjusted age -> a = b).
Proof.
  intros Hb. unfold age_adjustment.
  rewrite age_above_typed, age_below_typed.
  set (senior := match age with Some z => _ | None => false end).
  set (young := match age with Some z => _ | None => false end).
  assert (age_unadjusted age -> senior = false /\ young = false) as Hu.
  { subst senior young. destruct age as [z|]; [|done]. cbn.
    intros [->|Hz]; [done|].
    destruct (z =? 0); [done|]. cbn. split; lia. }
  cbn [res_bind].
  destruct senior; [|destruct young]; cbn [res_bind].
  1,2: cbn in Hb;
    destruct Hb as [<-|[<-|[<-|[<-|[<-|[<-|[<-|[<-|[<-|[<-|[]]]]]]]]]]];
    eexists _, _; (split; [vm_compute; reflexivity|]);
    intros Ha; destruct (Hu Ha); discriminate.
  eexists _, _. by split.
Qed.

(** On an entity record the business rules always complete; they keep the
    decision and every local but the amount and the trail, and leave the
    amount alone when neither adjustment applies. *)
Lemma business_rules_typed (age : option Z) (loc : option string)
    (st : locals) :
  rules_outcome st ->
  exists st',
    business_rules (opt_val PInt age) (opt_val PStr loc) st = Ok st'
    /\ l_decision st' = l_decision st
    /\ l_confidence st' = l_confidence st
    /\ (is_metro loc = false -> age_unadjusted age ->
        l_amount st' = l_amount st).
Proof.
  unfold business_rules.
  intros [[Hd Ha]|[Hd [b [Ha Hb]]]]; rewrite Hd; try rewrite Ha.
  - by exists st.
  - assert ((b =? 0) = false) as ->
      by (cbn in Hb; destruct Hb as [<-|[<-|[<-|[<-|[<-|[]]]]]]; reflexivity).
    destruct (metro_adjustment_typed loc b Hb) as (a1 & s1 & -> & H1 & Hm).
    cbn [res_bind].
    destruct (age_adjustment_typed age a1 H1) as (a2 & s2 & -> & Hu).
    cbn [res_bind]. eexists. split; [reflexivity|].
    cbn [l_decision l_confidence l_amount]. split_and!; [done..|].
    intros Hloc Hage. by rewrite (Hu Hage), (Hm Hloc).
Qed.

Lemma age_adjustment_bounded (age : pyval) (b a : Z) (steps : list text) :
  age_adjustment age b = Ok (a, steps) ->
  In b (base_amounts ++ [132000; 165000; 550000; 1100000; 66000]) ->
  a < 10000000.
Proof.
  unfold age_adjustment. intros H Hb.
  destruct (age_above age 60) as [[|]|]; cbn [res_bind] in H;
    [| destruct (age_below age 25) as [[|]|]; cbn [res_bind] in H |];
    try discriminate H; cbn in Hb;
    destruct Hb as [<-|[<-|[<-|[<-|[<-|[<-|[<-|[<-|[<-|[<-|[]]]]]]]]]]];
    vm_compute in H; injection H as <- _; reflexivity.
Qed.

(** The amount the business rules leave can always be printed. *)
Lemma business_rules_final_step (age location : pyval) (st st' : locals) :
  business_rules age location st = Ok st' ->
  rules_outcome st ->
  fstr (final_step (l_decision st') (l_amount st'))
  = Ok (final_step (l_decision st') (l_amount st')).
Proof.
  intros H Hout. apply fstr_ok. unfold final_step.
  cbn [forallb piece_renders renders]. rewrite !andb_true_r.
  revert H. unfold business_rules, rules_outcome in *.
  destruct Hout as [[Hd Ha]|[Hd [b [Ha Hb]]]]; rewrite Hd; try rewrite Ha.
  - by intros [= <-]; rewrite Ha.
  - assert ((b =? 0) = false) as ->
      by (cbn in Hb; destruct Hb as [<-|[<-|[<-|[<-|[<-|[]]]]]]; reflexivity).
    destruct (metro_adjustment location b) as [[a1 s1]|] eqn:E1;
      cbn [res_bind]; [|done].
    destruct (age_adjustment age a1) as [[a2 s2]|] eqn:E2;
      cbn [res_bind]; [|done].
    intros [= <-]. cbn [l_amount amount_val renders].
    pose proof (metro_adjustment_amounts _ _ _ _ E1 Hb) as H1.
    pose proof (age_adjustment_positive _ _ _ _ E2 H1).
    pose proof (age_adjustment_bounded _ _ _ _ E2 H1).
    apply int_renders_small. lia.
Qed.

Lemma business_rules_amount_indep (age location : pyval)
    (st1 st2 st1' st2' : locals) :
  l_decision st1 = l_decision st2 ->
  l_amount st1 = l_amount st2 ->
  business_rules age location st1 = Ok st1' ->
  business_rules age location st2 = Ok st2' ->
  l_amount st1' = l_amount st2'.
Proof.
  unfold business_rules. intros Hd Ha H1 H2. rewrite <- Hd, <- Ha in H2.
  destruct (l_decision st1), (l_amount st1) as [b|] eqn:Eb; try congruence.
  destruct (b =? 0); [congruence|].
  destruct (metro_adjustment location b) as [[a1 s1]|];
    cbn [res_bind] in *; [|discriminate].
  destruct (age_adjustment age a1) as [[a2 s2]|];
    cbn [res_bind] in *; [|discriminate].
  by injection H1 as <-; injection H2 as <-.
Qed.

Lemma age_gate_passes (a : option Z) :
  age_eligible a ->
  match a with
  | Some z => negb (z =? 0) && ((z <? 18) || (z >? 70))
  | None => false
  end = false.
Proof. destruct a as [z|]; cbn; [lia|done]. Qed.

(** Past the two terminal gates the result is assembled from the locals the
    procedure rules and the business rules leave. *)
Lemma make_decision_typed_rules (e : Entities) (clauses : pyval)
    (st : locals) :
  age_eligible (age e) ->
  int_renders (duration_days (policy_duration e)) = true ->
  String.eqb (lower (default "" (procedure e))) "" = false ->
  procedure_rules (lower (default "" (procedure e))) (opt_val PInt (age e))
    (opt_val duration_dict (policy_duration e))
    (PInt (duration_days (policy_duration e)))
    ([analyzing_step e] ++ duration_steps (policy_duration e)) = Ok st ->
  exists st',
    business_rules (opt_val PInt (age e)) (opt_val PStr (location e)) st
    = Ok st'
    /\ l_decision st' = l_decision st
    /\ l_confidence st' = l_confidence st
    /\ (is_metro (location e) = false -> age_unadjusted (age e) ->
        l_amount st' = l_amount st)
    /\ make_decision (entities_dict e) clauses
       = _format_result (l_decision st') (l_amount st') (l_justification st')
           (l_confidence st') (l_source_clauses st')
           (l_steps st' ++
              [[Lit "Final decision: ";
                Val (PStr (decision_str (l_decision st')));
                Lit ", Amount: "; Val (amount_val (l_amount st'))]]).
Proof.
  intros Hage Hdays Hproc Hrules.
  destruct (business_rules_typed (age e) (location e) st)
    as (st' & Hb & Hd & Hc & Ha).
  { eauto using procedure_rules_outcome. }
  exists st'. split_and!; [done..|].
  unfold make_decision. rewrite make_decision_body_typed. unfold assess.
  fold (analyzing_step e).
  rewrite fstr_analyzing_step, (age_eligible_prints _ Hage). cbn [res_bind].
  rewrite duration_in_days_typed, Hdays. cbn [res_bind].
  rewrite age_out_of_range_typed, (age_gate_passes _ Hage). cbn [res_bind].
  rewrite Hproc, Hrules. cbn [res_bind]. rewrite Hb. cbn [res_bind].
  fold (final_step (l_decision st') (l_amount st')).
  rewrite (business_rules_final_step _ _ _ _ Hb)
    by eauto using procedure_rules_outcome.
  done.
Qed.

Lemma contains_nonempty (sub s : string) :
  sub <> "" -> contains sub s = true -> String.eqb s "" = false.
Proof. destruct s, sub; cbn; congruence. Qed.

Lemma get_value (d : Duration) (dflt : pyval) :
  py_get (duration_dict d) "value" dflt = Ok (PInt (value d)).
Proof. reflexivity. Qed.

Lemma get_unit (d : Duration) (dflt : pyval) :
  py_get (duration_dict d) "unit" dflt = Ok (PStr (unit d)).
Proof. reflexivity. Qed.

Lemma value_renders (d : Duration) :
  int_renders (duration_days (Some d)) = true ->
  duration_days (Some d) <> 0 ->
  int_renders (value d) = true.
Proof.
  unfold duration_days.
  destruct (String.eqb (unit d) "month");
    [intros H _; by apply (int_renders_factor _ 30)|].
  destruct (String.eqb (unit d) "year");
    [intros H _; by apply (int_renders_factor _ 365)|done].
Qed.

(** The knee branch on an integer age. *)
Lemma knee_rules (q : string) (a : Z) (pd : option Duration)
    (steps : list text) :
  contains "knee" q = true ->
  int_renders (duration_days pd) = true ->
  exists st,
    procedure_rules q (PInt a) (opt_val duration_dict pd)
      (PInt (duration_days pd)) steps = Ok st
    /\ l_decision st
       = if 90 <=? duration_days pd then Approved else Rejected.
Proof.
  intros Hk Hr. unfold procedure_rules. rewrite Hk.
  unfold py_ge, py_gt, py_cmp. cbn [as_int res_bind].
  destruct (duration_days pd >=? 90) eqn:E.
  - destruct pd as [d|]; [|discriminate E]. cbn [opt_val].
    rewrite get_value, get_unit. cbn [res_bind].
    assert (int_renders (value d) = true) as Hv
      by (apply value_renders; [done|lia]).
    do 2 fstr_next.
    eexists. split; [reflexivity|]. cbn [l_decision].
    by replace (90 <=? duration_days (Some d)) with true by lia.
  - do 2 fstr_next.
    eexists. split; [reflexivity|]. cbn [l_decision].
    by replace (90 <=? duration_days pd) with false by lia.
Qed.

(** The eye branch, reached when no branch of higher priority matches. *)
Lemma eye_rules (q : string) (age : pyval) (pd : option Duration)
    (steps : list text) :
  contains "knee" q = false ->
  heart_group q = false ->
  contains "cancer" q = false ->
  contains "eye" q = true \/ contains "cataract" q = true ->
  int_renders (duration_days pd) = true ->
  exists st,
    procedure_rules q age (opt_val duration_dict pd)
      (PInt (duration_days pd)) steps = Ok st
    /\ l_decision st
       = if 30 <=? duration_days pd then Approved else Rejected.
Proof.
  intros Hk Hh Hc He Hr. unfold procedure_rules. unfold heart_group in Hh.
  rewrite Hk, Hh, Hc.
  replace (contains "eye" q || contains "cataract" q) with true
    by (destruct He as [-> | ->]; by rewrite ?orb_true_r).
  unfold py_ge, py_cmp. cbn [as_int res_bind].
  destruct (duration_days pd >=? 30) eqn:E; fstr_next;
    (eexists; split; [reflexivity|]); cbn [l_decision].
  - by replace (30 <=? duration_days pd) with true by lia.
  - by replace (30 <=? duration_days pd) with false by lia.
Qed.


(** ** The gates of the decision engine *)

(** The age gate on a record whose trail can be printed: an age other than
    0 that is below 18 or above 70 is rejected with confidence 0.95, whatever
    the procedure and the other fields are; the trail ends with the failed
    age validation, so no later gate is evaluated. *)
Lemma age_gate_rejects (e : Entities) (clauses : pyval) (a : Z) :
  age e = Some a ->
  a <> 0 ->
  a < 18 \/ 70 < a ->
  int_renders a = true ->
  int_renders (duration_days (policy_duration e)) = true ->
  make_decision (entities_dict e) clauses
  = {| decision := Rejected;
       amount := None;
       justification :=
         [Lit "Age "; Val (PInt a);
          Lit " is outside the eligible range (18-70 years)"];
       confidence := 0.95;
       source_clauses := [];
       reasoning_steps :=
         [analyzing_step e] ++ duration_steps (policy_duration e)
         ++ [[Lit "Age validation failed"]] |}.
Proof.
  intros Ha Hz Hout Hra Hrd.
  unfold make_decision. rewrite make_decision_body_typed. unfold assess.
  fold (analyzing_step e). rewrite fstr_analyzing_step, Ha.
  cbn [age_prints]. rewrite Hra. cbn [res_bind].
  rewrite duration_in_days_typed, Hrd. cbn [res_bind].
  rewrite age_out_of_range_typed.
  replace (negb (a =? 0) && ((a <? 18) || (a >? 70))) with true by lia.
  cbn [res_bind opt_val]. fstr_next.
  unfold _format_result. by rewrite <- app_assoc.
Qed.

(** C2. The age gate does not reject age 0.  For the query "0M, cancer" the
    extractor returns age 0, which is below 18, and [make_decision] approves
    the claim with the amount 1000000 and the confidence 0.95: the gate is
    skipped (no "Age validation failed" step) and the cancer rule applies.
    An age from 1 to 17 is rejected by the gate with confidence 0.95, as for
    "17M, cancer" and "1M, cancer". *)
Theorem age_zero_passes_gate :
  let e := extract_entities "0M, cancer" in
  let r := make_decision (entities_dict e) (PList []) in
  let run q := make_decision (entities_dict (extract_entities q)) (PList []) in
  e = {| age := Some 0; gender := Some "Male"; procedure := Some "cancer";
         location := None; policy_duration := None;
         claimed_amount := None |}
  /\ 0 < 18
  /\ decision r = Approved
  /\ amount r = Some 1000000
  /\ confidence r = 0.95%Q
  /\ reasoning_steps r
     = [analyzing_step e;
        [Lit "Processing cancer treatment claim"];
        [Lit "Approved: Cancer covered under critical illness"];
        [Lit "Final decision: "; Val (PStr "Approved"); Lit ", Amount: ";
         Val (PInt 1000000)]]
  /\ (decision (run "17M, cancer") = Rejected
      /\ confidence (run "17M, cancer") = 0.95%Q
      /\ last (reasoning_steps (run "17M, cancer"))
         = Some [Lit "Age validation failed"])
  /\ (decision (run "1M, cancer") = Rejected
      /\ confidence (run "1M, cancer") = 0.95%Q).
Proof. vm_compute. split_and!; reflexivity. Qed.

(** The waiting periods on a record that carries an eligible age and whose
    duration in days can be printed: a knee procedure is approved if and
    only if duration_days >= 90, and an eye or cataract procedure that
    names none of "knee", "heart", "cardiac", "cabg", "cancer" if and only
    if duration_days >= 30.  Both thresholds are inclusive. *)
Lemma waiting_period_threshold (e : Entities) (clauses : pyval)
    (p : string) :
  procedure e = Some p ->
  age_eligible (age e) ->
  int_renders (duration_days (policy_duration e)) = true ->
  let r := make_decision (entities_dict e) clauses in
  let days := duration_days (policy_duration e) in
  (contains "knee" (lower p) = true -> age e <> None ->
   (decision r = Approved <-> 90 <= days))
  /\ (contains "eye" (lower p) = true \/ contains "cataract" (lower p) = true ->
      contains "knee" (lower p) = false ->
      heart_group (lower p) = false ->
      contains "cancer" (lower p) = false ->
      (decision r = Approved <-> 30 <= days)).
Proof.
  intros Hp Hage Hdays. cbn zeta. split.
  - intros Hk Hsome.
    destruct (age e) as [a|] eqn:Ea; [|done].
    destruct (knee_rules (lower p) a (policy_duration e)
                ([analyzing_step e] ++ duration_steps (policy_duration e))
                Hk Hdays)
      as (st & Hst & Hd).
    destruct (make_decision_typed_rules e clauses st)
      as (st' & _ & Hd' & _ & _ & ->).
    { by rewrite Ea. }
    { done. }
    { rewrite Hp. by apply (contains_nonempty "knee"). }
    { by rewrite Hp, Ea. }
    cbn [decision _format_result]. rewrite Hd', Hd.
    destruct (90 <=? duration_days (policy_duration e)) eqn:E;
      split; intros; (done || lia).
  - intros He Hk Hh Hc.
    destruct (eye_rules (lower p) (opt_val PInt (age e)) (policy_duration e)
                ([analyzing_step e] ++ duration_steps (policy_duration e))
                Hk Hh Hc He Hdays) as (st & Hst & Hd).
    destruct (make_decision_typed_rules e clauses st)
      as (st' & _ & Hd' & _ & _ & ->).
    { done. }
    { done. }
    { rewrite Hp.
      destruct He; [by apply (contains_nonempty "eye")
                   |by apply (contains_nonempty "cataract")]. }
    { by rewrite Hp. }
    cbn [decision _format_result]. rewrite Hd', Hd.
    destruct (30 <=? duration_days (policy_duration e)) eqn:E;
      split; intros; (done || lia).
Qed.

(** C1. A knee claim that has waited long enough is rejected when the query
    names no age.  For "knee surgery, Pune, 3-month policy" the extractor
    returns age None and a duration of 90 days, which meets the 90-day
    threshold; [make_decision] evaluates [None > 45] for the base amount,
    the comparison raises a TypeError and the handler returns the fail-safe
    rejection.  The same query with an age ("30M, ...") is approved. *)
Theorem knee_without_age_rejected :
  let e := extract_entities "knee surgery, Pune, 3-month policy" in
  let r := make_decision (entities_dict e) (PList []) in
  e = {| age := None; gender := None; procedure := Some "knee surgery";
         location := Some "Pune";
         policy_duration := Some {| value := 3; unit := "month" |};
         claimed_amount := None |}
  /\ duration_days (policy_duration e) = 90
  /\ 90 <= duration_days (policy_duration e)
  /\ make_decision_body (entities_dict e) (PList [])
     = Raise (TypeError ">" "NoneType" "int")
  /\ r = error_result (TypeError ">" "NoneType" "int")
  /\ decision r = Rejected
  /\ decision
       (make_decision
          (entities_dict
             (extract_entities "30M, knee surgery, Pune, 3-month policy"))
          (PList []))
     = Approved.
Proof. vm_compute. split_and!; (reflexivity || discriminate). Qed.

(** ** The chunk splitter *)

Lemma rstrip_cons (c : ascii) (s : string) :
  rstrip s <> "" -> rstrip (String c s) = String c (rstrip s).
Proof. cbn [rstrip]. by destruct (rstrip s). Qed.

Lemma rstrip_idem (s : string) : rstrip (rstrip s) = rstrip s.
Proof.
  induction s as [|c s IH]; [done|]. cbn [rstrip].
  destruct (rstrip s) as [|d r] eqn:E.
  - destruct (is_space c) eqn:Ec; [done|]. cbn. by rewrite Ec.
  - rewrite rstrip_cons; rewrite IH; done.
Qed.

Lemma lstrip_fixed (c : ascii) (s : string) :
  is_space c = false -> lstrip (String c s) = String c s.
Proof. intros H. cbn. by rewrite H. Qed.

Lemma lstrip_shape (s : string) :
  lstrip s = "" \/ exists c r, lstrip s = String c r /\ is_space c = false.
Proof.
  induction s as [|c s IH]; [by left|]. cbn.
  destruct (is_space c) eqn:E; [done|]. right. by exists c, s.
Qed.

Lemma strip_idem (s : string) : strip (strip s) = strip s.
Proof.
  unfold strip.
  destruct (lstrip_shape s) as [->|(c & r & -> & Hc)]; [done|].
  assert (exists r', rstrip (String c r) = String c r') as [r' Hr].
  { cbn [rstrip]. destruct (rstrip r); [rewrite Hc|]; by eexists. }
  rewrite Hr, (lstrip_fixed _ _ Hc), <- Hr. apply rstrip_idem.
Qed.

Section Chunker.
Variable c : TextChunker.
Variable text : string.

Lemma sentence_boundary_some (stop i e : nat) :
  sentence_boundary text stop i = Some e ->
  exists j, e = S j /\ (stop < j <= i)%nat /\ terminator_at text j
            /\ forall k, (j < k <= i)%nat -> ~ terminator_at text k.
Proof.
  induction i as [|i IH]; [done|]. cbn [sentence_boundary].
  destruct (S i <=? stop)%nat eqn:Es; [done|].
  destruct (String.get (S i) text) as [ch|] eqn:Eg.
  - destruct (is_terminator ch) eqn:Et.
    + intros [= <-]. exists (S i). split_and!; [done|lia|lia| |intros; lia].
      by exists ch.
    + intros H. destruct (IH H) as (j & -> & Hj & Ht & Hn).
      exists j. split_and!; [done|lia|lia|done|].
      intros k Hk (ch' & Hg & Ht').
      destruct (decide (k = S i)) as [->|].
      * congruence.
      * apply (Hn k); [lia|by exists ch'].
  - intros H. destruct (IH H) as (j & -> & Hj & Ht & Hn).
    exists j. split_and!; [done|lia|lia|done|].
    intros k Hk (ch' & Hg & Ht').
    destruct (decide (k = S i)) as [->|].
    * congruence.
    * apply (Hn k); [lia|by exists ch'].
Qed.


Lemma chunk_end_upper (start : nat) :
  (chunk_end c text start <= start + chunk_size c + 1)%nat.
Proof.
  unfold chunk_end.
  destruct (_ <? _)%nat; [|lia].
  destruct (sentence_boundary _ _ _) as [e|] eqn:E; [|lia].
  apply sentence_boundary_some in E as (j & -> & ? & _). lia.
Qed.

Lemma chunk_end_lower (start : nat) :
  (start + Nat.min (chunk_size c) (chunk_size c / 2 + 2)
   <= chunk_end c text start)%nat.
Proof.
  unfold chunk_end.
  destruct (_ <? _)%nat; [|lia].
  destruct (sentence_boundary _ _ _) as [e|] eqn:E; [|lia].
  apply sentence_boundary_some in E as (j & -> & ? & _). lia.
Qed.

Lemma next_start_advances (start : nat) :
  advances c -> (start < next_start c (chunk_end c text start))%nat.
Proof.
  intros [H1 H2]. pose proof (chunk_end_lower start).
  unfold next_start. destruct (_ <? _)%nat eqn:E; lia.
Qed.

(** What the loop appends: a trimmed chunk of more than 50 characters that
    is at most one character longer than [chunk_size]. *)
Lemma keep_chunk_ok (chunks : list string) (start : nat) :
  Forall (chunk_ok c) chunks ->
  Forall (chunk_ok c)
    (keep_chunk chunks
       (strip (slice text start (chunk_end c text start)))).
Proof.
  intros H. unfold keep_chunk.
  destruct (negb _ && (50 <? _)%nat) eqn:E; [|done].
  apply Forall_app. split; [done|]. apply Forall_singleton.
  unfold chunk_ok. split_and!; [apply strip_idem|lia|].
  pose proof (length_strip (slice text start (chunk_end c text start))).
  pose proof (length_slice text start (chunk_end c text start)).
  pose proof (chunk_end_upper start). lia.
Qed.

Lemma length_keep_chunk (chunks : list string) (chunk : string) :
  (length (keep_chunk chunks chunk) <= S (length chunks))%nat.
Proof.
  unfold keep_chunk. destruct (_ && _); [|lia].
  rewrite length_app. cbn. lia.
Qed.

Lemma split_loop_chunks (fuel start : nat) (chunks res : list string) :
  split_loop fuel c text start chunks = Some res ->
  Forall (chunk_ok c) chunks ->
  (length chunks <= max_chunks)%nat ->
  Forall (chunk_ok c) res /\ (length res <= max_chunks)%nat.
Proof.
  revert start chunks.
  induction fuel as [|fuel IH]; intros start chunks H Hok Hlen;
    cbn [split_loop] in H;
    destruct ((start <? String.length text)%nat
              && (length chunks <? max_chunks)%nat) eqn:E.
  - done.
  - injection H as <-. by split.
  - pose proof (keep_chunk_ok chunks start Hok) as Hok'.
    pose proof (length_keep_chunk chunks
                  (strip (slice text start (chunk_end c text start)))).
    destruct (_ <=? _)%nat.
    + injection H as <-. split; [done|lia].
    + eapply IH; [exact H|done|lia].
  - injection H as <-. by split.
Qed.

Lemma split_loop_enough (n fuel start : nat) (chunks : list string) :
  advances c ->
  (String.length text - start <= n)%nat -> (n <= fuel)%nat ->
  split_loop fuel c text start chunks = split_loop n c text start chunks
  /\ exists res, split_loop n c text start chunks = Some res.
Proof.
  intros Hadv. revert fuel start chunks.
  induction n as [|n IH]; intros fuel start chunks Hn Hf.
  - assert ((start <? String.length text)%nat = false) as E by lia.
    destruct fuel; cbn [split_loop]; rewrite E; cbn; eauto.
  - destruct fuel as [|fuel]; [lia|]. cbn [split_loop].
    destruct (_ && _); [|eauto].
    pose proof (next_start_advances start Hadv).
    destruct (_ <=? _)%nat; [eauto|].
    apply IH; lia.
Qed.
End Chunker.

(** With a configuration that advances, the splitter returns on every text,
    with at most 40 chunks, each trimmed, longer than 50 characters and at
    most one character longer than [chunk_size]. *)
Lemma split_text_chunks (c : TextChunker) (text : string) :
  advances c ->
  exists chunks,
    (forall fuel, (String.length (_preprocess_text text) <= fuel)%nat ->
                  split_text_optimized fuel c text = Some chunks)
    /\ Forall (chunk_ok c) chunks
    /\ (length chunks <= max_chunks)%nat.
Proof.
  intros Hadv. unfold split_text_optimized.
  destruct (String.eqb text "" || _); [exists []; split_and!; [done..|cbn; lia]|].
  set (t := _preprocess_text text).
  destruct (split_loop_enough c t (String.length t) (String.length t) 0 [])
    as [_ [res Hres]]; [done|lia|lia|].
  exists res. split.
  - intros fuel Hfuel.
    destruct (split_loop_enough c t (String.length t) fuel 0 [])
      as [-> _]; [done|lia|lia|done].
  - eapply split_loop_chunks; [exact Hres|done|cbn; lia].
Qed.

(** C10. 50 characters is a strict threshold at both ends: an empty text or
    one whose trimmed length is below 50 yields the empty list, for every
    configuration and without raising; a candidate chunk of trimmed length
    exactly 50 is discarded; and every chunk returned is trimmed and strictly
    longer than 50 characters. *)
Theorem split_text_strict_threshold (c : TextChunker) (text : string) :
  (text = "" \/ (String.length (strip text) < 50)%nat ->
   forall fuel, split_text_optimized fuel c text = Some [])
  /\ (forall chunks chunk,
        String.length chunk = 50%nat -> keep_chunk chunks chunk = chunks)
  /\ (advances c ->
      exists chunks,
        (forall fuel, (String.length (_preprocess_text text) <= fuel)%nat ->
                      split_text_optimized fuel c text = Some chunks)
        /\ Forall (fun chunk => strip chunk = chunk
                                /\ (50 < String.length chunk)%nat) chunks).
Proof.
  split_and!.
  - intros Hshort fuel. unfold split_text_optimized.
    destruct Hshort as [->|Hlen]; [done|].
    replace (String.length (strip text) <? 50)%nat with true by lia.
    by rewrite orb_true_r.
  - intros chunks chunk Hlen. unfold keep_chunk. rewrite Hlen.
    by rewrite andb_false_r.
  - intros Hadv.
    destruct (split_text_chunks c text Hadv) as (chunks & Hrun & Hok & _).
    exists chunks. split; [done|].
    eapply Forall_impl; [exact Hok|]. intros chunk (? & ? & _). done.
Qed.

Lemma split_text_strict_threshold_witness :
  split_text_optimized 0 {| chunk_size := 600; overlap := 100 |} "  too short  "
  = Some []
  /\ keep_chunk [] (fill 50 "a") = []
  /\ exists chunks,
       split_text_optimized 51 {| chunk_size := 600; overlap := 100 |}
         (fill 51 "a") = Some chunks
       /\ Forall (fun chunk => strip chunk = chunk
                               /\ (50 < String.length chunk)%nat) chunks.
Proof.
  split_and!.
  - apply (proj1 (split_text_strict_threshold
                    {| chunk_size := 600; overlap := 100 |} "  too short  ")).
    right. vm_compute. lia.
  - apply (proj1 (proj2 (split_text_strict_threshold
                           {| chunk_size := 600; overlap := 100 |} ""))).
    reflexivity.
  - destruct (proj2 (proj2 (split_text_strict_threshold
                              {| chunk_size := 600; overlap := 100 |}
                              (fill 51 "a"))))
      as (chunks & Hrun & Hok).
    + unfold advances; cbn; lia.
    + exists chunks. split; [|exact Hok]. apply Hrun. vm_compute. lia.
Defined.

(** A text of exactly 50 characters passes the guard and loses its only
    candidate chunk; one more character and the chunk is returned. *)
Lemma strict_threshold_examples :
  let c := {| chunk_size := 600; overlap := 100 |} in
  split_text_optimized 1 c (fill 49 "a") = Some []
  /\ split_text_optimized 1 c (fill 50 "a") = Some []
  /\ split_text_optimized 1 c (fill 51 "a") = Some [fill 51 "a"].
Proof. vm_compute. split_and!; reflexivity. Qed.




(** C6. At the deployed configuration (chunk_size 600, overlap 100), for the
    701-character text made of 600 letters, a full stop and 100 letters, the
    splitter returns two chunks and the first has 601 characters, none of
    them white space: one more than chunk_size. *)
Theorem split_text_chunk_exceeds_size :
  let c := {| chunk_size := 600; overlap := 100 |} in
  let text := fill 600 "a" +:+ "." +:+ fill 100 "b" in
  split_text_optimized 2 c text
  = Some [fill 600 "a" +:+ "."; fill 99 "a" +:+ "." +:+ fill 100 "b"]
  /\ strip (fill 600 "a" +:+ ".") = fill 600 "a" +:+ "."
  /\ String.length (fill 600 "a" +:+ ".") = 601%nat
  /\ (chunk_size c < 601)%nat.
Proof. vm_compute. split_and!; (reflexivity || lia). Qed.

(** ** The adjustment of an approved amount *)

(** C4. For age 65, location Mumbai and the knee base amount 150000 the
    metro adjustment is applied first and gives 165000, the senior
    adjustment is applied to that and gives 189749: [int()] cuts the double
    165000 * 1.15, which lies just below 189750, instead of rounding it. *)
Theorem senior_metro_amount_truncated :
  let e := {| age := Some 65; gender := Some "Male";
              procedure := Some "knee surgery"; location := Some "Mumbai";
              policy_duration := Some {| value := 3; unit := "month" |};
              claimed_amount := None |} in
  let r := make_decision (entities_dict e) (PList []) in
  extract_entities "65M, knee surgery, Mumbai, 3-month policy" = e
  /\ int_mul_float 150000 float_1_1 = Ok 165000
  /\ int_mul_float 165000 float_1_15 = Ok 189749
  /\ 165000 * 115 = 189750 * 100
  /\ decision r = Approved
  /\ amount r = Some 189749
  /\ reasoning_steps r
     = [analyzing_step e;
        [Lit "Policy duration: "; Val (PInt 90); Lit " days"];
        [Lit "Processing knee surgery claim"];
        [Lit "Approved: Waiting period satisfied ("; Val (PInt 90);
         Lit " >= "; Val (PInt 90); Lit " days)"];
        [Lit "Metro city adjustment applied: +10%"];
        [Lit "Senior citizen adjustment applied: +15%"];
        [Lit "Final decision: "; Val (PStr "Approved"); Lit ", Amount: ";
         Val (PInt 189749)]].
Proof. vm_compute. split_and!; reflexivity. Qed.

(** ** End to end *)

(** C8 (amended). For the query "46M, knee surgery, Pune, 3-month policy"
    the extraction yields age 46, gender Male, procedure "knee surgery",
    location "Pune", policy_duration 3 months and no amount; the engine
    computes 90 days and approves with the base amount 150000 (age > 45);
    Pune is not a metro city and 46 is neither senior nor young, so no
    adjustment is applied and the final amount is 150000. *)
Theorem knee_pune_end_to_end :
  let e := extract_entities "46M, knee surgery, Pune, 3-month policy" in
  let r := make_decision (entities_dict e) (PList []) in
  e = {| age := Some 46; gender := Some "Male";
         procedure := Some "knee surgery"; location := Some "Pune";
         policy_duration := Some {| value := 3; unit := "month" |};
         claimed_amount := None |}
  /\ duration_days (policy_duration e) = 90
  /\ is_metro (location e) = false
  /\ decision r = Approved
  /\ amount r = Some 150000
  /\ confidence r = 0.85%Q
  /\ reasoning_steps r
     = [analyzing_step e;
        [Lit "Policy duration: "; Val (PInt 90); Lit " days"];
        [Lit "Processing knee surgery claim"];
        [Lit "Approved: Waiting period satisfied ("; Val (PInt 90);
         Lit " >= "; Val (PInt 90); Lit " days)"];
        [Lit "Final decision: "; Val (PStr "Approved"); Lit ", Amount: ";
         Val (PInt 150000)]].
Proof. vm_compute. split_and!; reflexivity. Qed.

(** C8 fails as stated: "pune" is in the list of cities the extractor scans,
    so the location is "Pune", not None. *)
Lemma knee_pune_location_counterexample :
  location (extract_entities "46M, knee surgery, Pune, 3-month policy")
  = Some "Pune"
  /\ location (extract_entities "46M, knee surgery, Pune, 3-month policy")
     <> None.
Proof. vm_compute. split; [reflexivity|discriminate]. Qed.

(** * Further properties *)

(** ** The decision engine: what every result looks like *)

Lemma procedure_rules_cites (procedure : string) (age pd dd : pyval)
    (steps : list text) (st : locals) :
  procedure_rules procedure age pd dd steps = Ok st ->
  cites_ok (l_decision st) (l_confidence st) (l_source_clauses st)
  /\ exists more, l_steps st = steps ++ more.
Proof.
  unfold procedure_rules, cites_ok, rule_confidences. intros H.
  res_cases; cbn [l_decision l_confidence l_source_clauses l_steps];
    (split;
     [split; [cbn; tauto | (by left) || (right; split; [done|tauto])]
     |rewrite <- ?app_assoc; eauto using app_nil_r]).
Qed.

(** The business rules touch the amount and the trail only. *)
Lemma business_rules_keeps (age location : pyval) (st st' : locals) :
  business_rules age location st = Ok st' ->
  l_decision st' = l_decision st
  /\ l_confidence st' = l_confidence st
  /\ l_source_clauses st' = l_source_clauses st
  /\ l_justification st' = l_justification st
  /\ exists more, l_steps st' = l_steps st ++ more.
Proof.
  unfold business_rules. intros H.
  assert (Ok st = Ok st' ->
          l_decision st' = l_decision st
          /\ l_confidence st' = l_confidence st
          /\ l_source_clauses st' = l_source_clauses st
          /\ l_justification st' = l_justification st
          /\ exists more, l_steps st' = l_steps st ++ more) as Hsame.
  { intros [= <-]. split_and!; try done. exists []. by rewrite app_nil_r. }
  destruct (l_decision st); [|auto].
  destruct (l_amount st) as [b|]; [|auto].
  destruct (b =? 0); [auto|].
  destruct (metro_adjustment location b) as [[a1 s1]|];
    cbn [res_bind] in H; [|discriminate H].
  destruct (age_adjustment age a1) as [[a2 s2]|];
    cbn [res_bind] in H; [|discriminate H].
  injection H as <-. cbn. split_and!; try done. by eexists.
Qed.

Lemma last_snoc {A} (l : list A) (x : A) : last (l ++ [x]) = Some x.
Proof. induction l as [|y [|z l] IH]; done. Qed.

(** What a run of the [try] block that returns looks like. *)
Lemma make_decision_body_shape (entities clauses : pyval)
    (r : DecisionResult) :
  make_decision_body entities clauses = Ok r ->
  cites_ok (decision r) (confidence r) (source_clauses r)
  /\ (last (reasoning_steps r) = Some (final_step (decision r) (amount r))
      \/ (decision r = Rejected
          /\ (last (reasoning_steps r) = Some [Lit "Age validation failed"]
              \/ last (reasoning_steps r)
                 = Some [Lit "No procedure identified"])))
  /\ exists age gender procedure rest,
       reasoning_steps r
       = [Lit "Analyzing query for: Age="; Val age; Lit ", Gender=";
          Val gender; Lit ", Procedure="; Val (PStr procedure)] :: rest.
Proof.
  unfold make_decision_body. intros H.
  repeat match type of H with
    | res_bind ?m _ = Ok _ =>
        destruct m as [?|?]; cbn [res_bind] in H; [|discriminate H]
    end.
  unfold assess in H.
  destruct (fstr _) as [step|] eqn:Estep; cbn [res_bind] in H;
    [|discriminate H].
  apply fstr_inv in Estep as [-> _].
  destruct (duration_in_days _) as [[dd ds]|];
    cbn [res_bind] in H; [|discriminate H].
  destruct (age_out_of_range _) as [[|]|]; cbn [res_bind] in H;
    [| | discriminate H].
  { destruct (fstr _) as [why|]; cbn [res_bind] in H; [|discriminate H].
    injection H as <-. cbn [decision confidence source_clauses amount
                             reasoning_steps _format_result].
    split_and!.
    - split; [cbn; tauto|by left].
    - right. split; [done|]. left. apply (last_snoc (_ :: _)).
    - by eexists _, _, _, _. }
  destruct (String.eqb _ "").
  { injection H as <-. cbn [decision confidence source_clauses amount
                             reasoning_steps _format_result].
    split_and!.
    - split; [cbn; tauto|by left].
    - right. split; [done|]. right. apply (last_snoc (_ :: _)).
    - by eexists _, _, _, _. }
  destruct (procedure_rules _ _ _ _ _) as [st|] eqn:Ep;
    cbn [res_bind] in H; [|discriminate H].
  destruct (business_rules _ _ st) as [st'|] eqn:Eb;
    cbn [res_bind] in H; [|discriminate H].
  destruct (fstr _) as [final|] eqn:Efinal; cbn [res_bind] in H;
    [|discriminate H].
  apply fstr_inv in Efinal as [-> _].
  injection H as <-. cbn [decision confidence source_clauses amount
                           reasoning_steps _format_result].
  apply procedure_rules_cites in Ep as [Hc [m1 Hs1]].
  apply business_rules_keeps in Eb as (-> & -> & -> & _ & [m2 Hs2]).
  split_and!.
  - done.
  - left. apply last_snoc.
  - rewrite Hs2, Hs1. cbn. by eexists _, _, _, _.
Qed.

(** X1. Whatever the input, an Approved result cites exactly one of the two
    built-in clauses (BAJ-003 or HDFC-001), with the result's confidence as
    its similarity, and a Rejected result cites no clause. *)
Theorem cited_clauses_follow_decision (entities clauses : pyval) :
  let r := make_decision entities clauses in
  (source_clauses r = [] <-> decision r = Rejected)
  /\ (decision r = Approved ->
      source_clauses r = [BAJ_003 (confidence r)]
      \/ source_clauses r = [HDFC_001 (confidence r)]).
Proof.
  cbn zeta. unfold make_decision.
  destruct (make_decision_body entities clauses) as [r|err] eqn:E.
  - apply make_decision_body_shape in E
      as [[_ [[-> ->]|[-> Hcl]]] _].
    + by split.
    + split; [|done]. split; [|done]. by destruct Hcl as [-> | ->].
  - by split.
Qed.

Lemma cited_clauses_follow_decision_witness :
  let r := make_decision
             (entities_dict (extract_entities "52F, cabg, Chennai")) PNone in
  source_clauses r = [BAJ_003 (confidence r)]
  \/ source_clauses r = [HDFC_001 (confidence r)].
Proof.
  apply (proj2 (cited_clauses_follow_decision
                  (entities_dict (extract_entities "52F, cabg, Chennai"))
                  PNone)).
  vm_compute. reflexivity.
Defined.

(** X2. Whatever the input, the confidence of the result is one of 0.95,
    0.9, 0.85, 0.8, 0.5 and 0.1, and it is 0.1 exactly when the [try] block
    raised: the fail-safe rejection is told apart from every business
    rejection by its confidence. *)
Theorem confidence_marks_failure (entities clauses : pyval) :
  let r := make_decision entities clauses in
  In (confidence r) (rule_confidences ++ [0.1%Q])
  /\ (confidence r = 0.1%Q
      <-> exists err, make_decision_body entities clauses = Raise err).
Proof.
  cbn zeta. unfold make_decision.
  destruct (make_decision_body entities clauses) as [r|err] eqn:E.
  - apply make_decision_body_shape in E as [[Hc _] _].
    split; [apply in_or_app; by left|].
    split; [|by intros [? ?]].
    intros H01. rewrite H01 in Hc. cbn in Hc.
    repeat destruct Hc as [Hc|Hc]; discriminate || done.
  - split; [cbn; tauto|]. split; [eauto|done].
Qed.

Lemma confidence_marks_failure_witness :
  exists err, make_decision_body (PList []) PNone = Raise err.
Proof.
  apply (proj1 (proj2 (confidence_marks_failure (PList []) PNone))).
  reflexivity.
Defined.

(** X3. Whatever the input, the last reasoning step tells how the run
    ended: "Age validation failed" or "No procedure identified" for the two
    terminal gates, the error message for the exception handler, and
    otherwise the "Final decision" step, which carries exactly the decision
    and the amount of the returned record; a run that ends at a gate or in
    the handler is a rejection. *)
Theorem last_step_reports_outcome (entities clauses : pyval) :
  let r := make_decision entities clauses in
  (last (reasoning_steps r) = Some (final_step (decision r) (amount r))
   \/ (decision r = Rejected
       /\ (last (reasoning_steps r) = Some [Lit "Age validation failed"]
           \/ last (reasoning_steps r) = Some [Lit "No procedure identified"]
           \/ exists err,
                reasoning_steps r = [[Lit "Error: "; ExnMsg err]])))
  /\ (forall d a,
        last (reasoning_steps r) = Some (final_step d a) ->
        d = decision r /\ a = amount r).
Proof.
  cbn zeta.
  assert (forall d a d' a', final_step d a = final_step d' a' ->
                            d = d' /\ a = a') as Hinj.
  { intros d a d' a' [= Hd Ha]. split.
    - by destruct d, d'.
    - destruct a, a'; cbn in Ha; congruence. }
  unfold make_decision.
  destruct (make_decision_body entities clauses) as [r|err] eqn:E.
  - apply make_decision_body_shape in E as [_ [Hlast _]].
    destruct Hlast as [Hl|[Hrej [Hl|Hl]]].
    + split; [by left|]. intros d a. rewrite Hl. intros Hf.
      destruct (Hinj (decision r) (amount r) d a); [congruence|done].
    + split; [|intros d a; rewrite Hl; discriminate].
      right. split; [done|]. by left.
    + split; [|intros d a; rewrite Hl; discriminate].
      right. split; [done|]. right. by left.
  - split.
    + right. split; [done|]. right; right. by exists err.
    + intros d a. cbn. discriminate.
Qed.

Lemma last_step_reports_outcome_witness :
  let r := make_decision
             (entities_dict (extract_entities "33M, cataract, 2 months"))
             PNone in
  Approved = decision r /\ Some 60000 = amount r.
Proof.
  apply (proj2 (last_step_reports_outcome
                  (entities_dict (extract_entities "33M, cataract, 2 months"))
                  PNone)).
  vm_compute. reflexivity.
Defined.

(** ** The decision engine on entity records: the remaining paths *)

(** On an entity record the [try] block is the following: it fails at once
    when the age or the duration in days cannot be printed, and past the
    procedure and business rules the final step is always printed. *)
Lemma make_decision_body_entity (e : Entities) (clauses : pyval) :
  make_decision_body (entities_dict e) clauses
  = if age_prints (age e)
       && int_renders (duration_days (policy_duration e))
    then
      let q := lower (default "" (procedure e)) in
      let a := opt_val PInt (age e) in
      let steps :=
        [analyzing_step e] ++ duration_steps (policy_duration e) in
      if match age e with
         | Some z => negb (z =? 0) && ((z <? 18) || (z >? 70))
         | None => false
         end
      then
        Ok (_format_result Rejected None
              [Lit "Age "; Val a;
               Lit " is outside the eligible range (18-70 years)"]
              0.95 [] (steps ++ [[Lit "Age validation failed"]]))
      else if String.eqb q "" then
        Ok (_format_result Rejected None
              [Lit "No medical procedure identified in the query"]
              0.8 [] (steps ++ [[Lit "No procedure identified"]]))
      else
        let* st :=
          procedure_rules q a (opt_val duration_dict (policy_duration e))
            (PInt (duration_days (policy_duration e))) steps in
        let* st' := business_rules a (opt_val PStr (location e)) st in
        Ok (_format_result (l_decision st') (l_amount st')
              (l_justification st') (l_confidence st')
              (l_source_clauses st')
              (l_steps st' ++ [final_step (l_decision st') (l_amount st')]))
    else Raise int_to_str_error.
Proof.
  rewrite make_decision_body_typed. unfold assess.
  fold (analyzing_step e). rewrite fstr_analyzing_step.
  destruct (age_prints (age e)) eqn:Hap; [|done]. cbn [res_bind andb].
  rewrite duration_in_days_typed.
  destruct (int_renders _) eqn:Hd; [|done]. cbn [res_bind]. cbn zeta.
  rewrite age_out_of_range_typed. cbn [res_bind].
  destruct (match age e with Some z => _ | None => false end) eqn:Hgate.
  - rewrite fstr_ok; [done|]. cbn [forallb piece_renders].
    destruct (age e); cbn [opt_val renders age_prints] in *;
      by rewrite ?Hap.
  - destruct (String.eqb _ ""); [done|].
    destruct (procedure_rules _ _ _ _ _) as [st|] eqn:Ep;
      cbn [res_bind]; [|done].
    destruct (business_rules _ _ st) as [st'|] eqn:Eb;
      cbn [res_bind]; [|done].
    fold (final_step (l_decision st') (l_amount st')).
    rewrite (business_rules_final_step _ _ _ _ Eb)
      by eauto using procedure_rules_outcome.
    done.
Qed.

(** On an entity record whose duration can be printed the procedure rules
    fail in one case only. *)
Lemma procedure_rules_typed (q : string) (age : option Z)
    (pd : option Duration) (steps : list text) :
  int_renders (duration_days pd) = true ->
  (age = None /\ contains "knee" q = true /\ 90 <= duration_days pd
   /\ procedure_rules q (opt_val PInt age) (opt_val duration_dict pd)
        (PInt (duration_days pd)) steps
      = Raise (TypeError ">" "NoneType" "int"))
  \/ (~ (age = None /\ contains "knee" q = true /\ 90 <= duration_days pd)
      /\ exists st,
           procedure_rules q (opt_val PInt age) (opt_val duration_dict pd)
             (PInt (duration_days pd)) steps = Ok st).
Proof.
  intros Hr.
  destruct (contains "knee" q) eqn:Hk.
  - destruct age as [a|].
    + right. split; [by intros [? _]|].
      destruct (knee_rules q a pd steps Hk Hr) as (st & Hst & _).
      exists st. exact Hst.
    + unfold procedure_rules. rewrite Hk.
      unfold py_ge, py_gt, py_cmp. cbn [as_int res_bind opt_val].
      destruct (duration_days pd >=? 90) eqn:E.
      * left. split_and!; [done|done|lia|done].
      * right. split; [intros (_ & _ & ?); lia|].
        do 2 fstr_next. by eexists.
  - right. split; [by intros (_ & ? & _)|].
    unfold procedure_rules. rewrite Hk.
    destruct (_ || _ || _); [by eexists|].
    destruct (contains "cancer" q); [by eexists|].
    destruct (_ || _); [|by eexists].
    unfold py_ge, py_cmp. cbn [as_int res_bind].
    destruct (_ >=? _); fstr_next; by eexists.
Qed.

(** X4. On an entity record (every field of the right type), the [try]
    block of [make_decision] raises in exactly three cases: the age has
    more than 4300 digits, the policy duration in days has more than 4300
    digits (both cannot be printed in the reasoning steps; the result is
    the fail-safe record with the ValueError of the conversion), or the age
    is None while the lower-cased procedure contains "knee" and the policy
    duration is at least 90 days (the TypeError of [None > 45], so a claim
    that has waited long enough is rejected with the fail-safe record). *)
Theorem entity_record_failure (e : Entities) (clauses : pyval) :
  let days := duration_days (policy_duration e) in
  let unprintable :=
    age_prints (age e) = false \/ int_renders days = false in
  let knee_without_age :=
    age e = None
    /\ contains "knee" (lower (default "" (procedure e))) = true
    /\ 90 <= days in
  ((exists err, make_decision_body (entities_dict e) clauses = Raise err)
   <-> unprintable \/ knee_without_age)
  /\ (unprintable ->
      make_decision (entities_dict e) clauses
      = error_result int_to_str_error)
  /\ (knee_without_age -> int_renders days = true ->
      make_decision (entities_dict e) clauses
      = error_result (TypeError ">" "NoneType" "int")).
Proof.
  cbn zeta. unfold make_decision. rewrite make_decision_body_entity.
  destruct (age_prints (age e)) eqn:Hap; cbn [andb].
  2:{ split_and!.
      - split; [intros _; left; by left|by eexists].
      - done.
      - intros (Ha & _) _. rewrite Ha in Hap. discriminate Hap. }
  destruct (int_renders (duration_days (policy_duration e))) eqn:Hd.
  2:{ split_and!.
      - split; [intros _; left; by right|by eexists].
      - done.
      - intros _ ?. discriminate. }
  cbn zeta.
  destruct (match age e with Some z => _ | None => false end) eqn:Hgate.
  { split_and!.
    - split; [intros [? ?]; discriminate|].
      intros [[?|?]|(Ha & _)]; try discriminate.
      rewrite Ha in Hgate. discriminate Hgate.
    - intros [?|?]; discriminate.
    - intros (Ha & _). rewrite Ha in Hgate. discriminate Hgate. }
  destruct (procedure_rules_typed (lower (default "" (procedure e))) (age e)
              (policy_duration e)
              ([analyzing_step e] ++ duration_steps (policy_duration e)) Hd)
    as [(Ha & Hk & Hdays & Hr)|(Hnot & st & Hst)].
  - rewrite (contains_nonempty "knee" _ ltac:(done) Hk), Hr.
    cbn [res_bind]. split_and!.
    + split; [intros _; by right|by eexists].
    + intros [?|?]; discriminate.
    + done.
  - assert (exists r,
              (if String.eqb (lower (default "" (procedure e))) ""
               then Ok (_format_result Rejected None
                          [Lit "No medical procedure identified in the query"]
                          0.8 []
                          (([analyzing_step e]
                            ++ duration_steps (policy_duration e))
                           ++ [[Lit "No procedure identified"]]))
               else
                 let* st :=
                   procedure_rules (lower (default "" (procedure e)))
                     (opt_val PInt (age e))
                     (opt_val duration_dict (policy_duration e))
                     (PInt (duration_days (policy_duration e)))
                     ([analyzing_step e]
                      ++ duration_steps (policy_duration e)) in
                 let* st' :=
                   business_rules (opt_val PInt (age e))
                     (opt_val PStr (location e)) st in
                 Ok (_format_result (l_decision st') (l_amount st')
                       (l_justification st') (l_confidence st')
                       (l_source_clauses st')
                       (l_steps st'
                        ++ [final_step (l_decision st') (l_amount st')])))
              = Ok r) as [r ->].
    { destruct (String.eqb _ ""); [by eexists|].
      rewrite Hst. cbn [res_bind].
      destruct (business_rules_typed (age e) (location e) st)
        as (st' & -> & _); [eauto using procedure_rules_outcome|].
      by eexists. }
    split_and!.
    + split; [intros [? ?]; discriminate|].
      intros [[?|?]|?]; [discriminate..|done].
    + intros [?|?]; discriminate.
    + done.
Qed.

Lemma entity_record_failure_witness :
  make_decision
    (entities_dict (extract_entities "knee replacement in Kolkata, 1 year"))
    PNone
  = error_result (TypeError ">" "NoneType" "int").
Proof.
  apply (proj2 (proj2 (entity_record_failure
                         (extract_entities
                            "knee replacement in Kolkata, 1 year")
                         PNone))).
  - vm_compute. split_and!; [reflexivity|reflexivity|discriminate].
  - vm_compute. reflexivity.
Defined.

Lemma unmatched_procedure_result (e : Entities) (clauses : pyval)
    (p : string) :
  procedure e = Some p ->
  lower p <> "" ->
  age_eligible (age e) ->
  int_renders (duration_days (policy_duration e)) = true ->
  contains "knee" (lower p) = false ->
  heart_group (lower p) = false ->
  contains "cancer" (lower p) = false ->
  contains "eye" (lower p) = false ->
  contains "cataract" (lower p) = false ->
  make_decision (entities_dict e) clauses
  = {| decision := Rejected;
       amount := None;
       justification := [Lit "No matching coverage found"];
       confidence := 0.5;
       source_clauses := [];
       reasoning_steps :=
         [analyzing_step e] ++ duration_steps (policy_duration e)
         ++ [final_step Rejected None] |}.
Proof.
  intros Hp Hne Hage Hdays Hk Hh Hc He Hcat.
  unfold make_decision.
  rewrite make_decision_body_entity, (age_eligible_prints _ Hage), Hdays.
  cbn [andb]. cbn zeta. rewrite (age_gate_passes _ Hage).
  rewrite Hp. change (default "" (Some p)) with p.
  destruct (String.eqb_spec (lower p) ""); [done|].
  unfold procedure_rules. unfold heart_group in Hh.
  rewrite Hk, Hh, Hc, He, Hcat. cbn [res_bind orb business_rules l_decision].
  unfold _format_result.
  cbn [l_decision l_amount l_justification l_confidence l_source_clauses
       l_steps].
  by rewrite <- app_assoc.
Qed.

(** X5. On an entity record whose age passes the gate, whose duration in
    days can be printed (at most 4300 digits) and whose lower-cased
    procedure is not empty and contains none of "knee", "heart", "cardiac",
    "cabg", "cancer", "eye", "cataract", the result is the default
    rejection: no amount, justification "No matching coverage found",
    confidence 0.5, no clause, and a trail that goes straight from the
    analysis (and the duration step) to the final decision. *)
Theorem unmatched_procedure_rejected (e : Entities) (clauses : pyval)
    (p : string) :
  procedure e = Some p ->
  lower p <> "" ->
  age_eligible (age e) ->
  int_renders (duration_days (policy_duration e)) = true ->
  contains "knee" (lower p) = false ->
  heart_group (lower p) = false ->
  contains "cancer" (lower p) = false ->
  contains "eye" (lower p) = false ->
  contains "cataract" (lower p) = false ->
  make_decision (entities_dict e) clauses
  = {| decision := Rejected;
       amount := None;
       justification := [Lit "No matching coverage found"];
       confidence := 0.5;
       source_clauses := [];
       reasoning_steps :=
         [analyzing_step e] ++ duration_steps (policy_duration e)
         ++ [final_step Rejected None] |}.
Proof. apply unmatched_procedure_result. Qed.

Lemma unmatched_procedure_rejected_witness :
  confidence
    (make_decision
       (entities_dict (extract_entities "29F, lasik, Lucknow, 2-year policy"))
       PNone)
  = 0.5%Q.
Proof.
  rewrite (unmatched_procedure_rejected
             (extract_entities "29F, lasik, Lucknow, 2-year policy") PNone
             "lasik"); [reflexivity|..]; vm_compute;
    try reflexivity; try discriminate.
  right. split; discriminate.
Defined.

(** X6. On an entity record whose age passes the gate, whose duration in
    days can be printed (at most 4300 digits) and whose procedure is absent
    or the empty string, the result is a rejection with confidence 0.8 and
    the justification "No medical procedure identified in the query"; the
    trail ends with "No procedure identified" and has no final-decision
    step. *)
Theorem missing_procedure_rejected (e : Entities) (clauses : pyval) :
  procedure e = None \/ procedure e = Some "" ->
  age_eligible (age e) ->
  int_renders (duration_days (policy_duration e)) = true ->
  make_decision (entities_dict e) clauses
  = {| decision := Rejected;
       amount := None;
       justification := [Lit "No medical procedure identified in the query"];
       confidence := 0.8;
       source_clauses := [];
       reasoning_steps :=
         [analyzing_step e] ++ duration_steps (policy_duration e)
         ++ [[Lit "No procedure identified"]] |}.
Proof.
  intros Hp Hage Hdays.
  unfold make_decision.
  rewrite make_decision_body_entity, (age_eligible_prints _ Hage), Hdays.
  cbn [andb]. cbn zeta. rewrite (age_gate_passes _ Hage).
  unfold _format_result.
  destruct Hp as [-> | ->]; cbn [default lower String.eqb];
    by rewrite <- app_assoc.
Qed.

Lemma missing_procedure_rejected_witness :
  confidence
    (make_decision
       (entities_dict (extract_entities "46M, Pune, 3-month policy")) PNone)
  = 0.8%Q.
Proof.
  rewrite (missing_procedure_rejected
             (extract_entities "46M, Pune, 3-month policy") PNone);
    [reflexivity| left; vm_compute; reflexivity
    | vm_compute; right; split; discriminate
    | vm_compute; reflexivity].
Defined.

(** ** The amount of an approval *)

Lemma procedure_rules_typed_base (q : string) (age : option Z)
    (pd dd : pyval) (steps : list text) (st : locals) :
  procedure_rules q (opt_val PInt age) pd dd steps = Ok st ->
  l_decision st = Approved ->
  l_amount st = Some (rule_base q age) /\ In (rule_base q age) base_amounts.
Proof.
  unfold procedure_rules, rule_base, heart_group, base_amounts.
  intros H Hd.
  destruct (contains "knee" q).
  - destruct (py_ge dd 90) as [[|]|]; cbn [res_bind] in H;
      [| | discriminate H].
    2:{ res_cases. discriminate Hd. }
    destruct age as [z|]; [|discriminate H].
    cbn [opt_val py_gt py_cmp as_int res_bind] in H.
    res_cases. cbn [l_amount].
    destruct (z >? 45); cbn; tauto.
  - destruct (_ || _ || _); [injection H as <-; cbn; tauto|].
    destruct (contains "cancer" q); [injection H as <-; cbn; tauto|].
    res_cases; cbn in Hd; try discriminate Hd; cbn; tauto.
Qed.

(** Evaluate a product of a literal amount and a literal factor. *)
Ltac eval_mul :=
  match goal with
  | |- context [int_mul_float ?b ?f] =>
      let v := eval vm_compute in (int_mul_float b f) in
      change (int_mul_float b f) with v
  end.

Lemma business_rules_typed_exact (age : option Z) (loc : option string)
    (st : locals) (b : Z) :
  l_decision st = Approved ->
  l_amount st = Some b ->
  In b base_amounts ->
  exists st',
    business_rules (opt_val PInt age) (opt_val PStr loc) st = Ok st'
    /\ l_amount st'
       = Some (exact_amount b (is_metro loc) (band_of age)
               - if (b =? 150000) && is_metro loc
                    && match band_of age with Senior => true | _ => false end
                 then 1 else 0).
Proof.
  intros Hd Ha Hb. unfold business_rules, metro_adjustment, age_adjustment.
  rewrite Hd, Ha, in_metro_typed. cbn [res_bind].
  assert (age_above (opt_val PInt age) 60
          = Ok match band_of age with Senior => true | _ => false end
          /\ (match band_of age with Senior => true | _ => false end = false ->
              age_below (opt_val PInt age) 25
              = Ok match band_of age with Young => true | _ => false end))
    as [Hs Hy].
  { rewrite age_above_typed, age_below_typed. unfold band_of.
    destruct age as [z|]; [|done].
    destruct (negb (z =? 0) && (z >? 60)); [done|].
    by destruct (negb (z =? 0) && (z <? 25)). }
  cbn in Hb.
  destruct Hb as [<-|[<-|[<-|[<-|[<-|[]]]]]]; cbn [Z.eqb Pos.eqb];
    destruct (is_metro loc); cbn [res_bind];
    try eval_mul; cbn [res_bind]; rewrite Hs;
    destruct (band_of age) eqn:Eband; cbn [res_bind];
    try (rewrite (Hy eq_refl); cbn [res_bind]);
    try eval_mul; cbn [res_bind];
    eexists; (split; [reflexivity|]); reflexivity.
Qed.





(** X7. For every entity record with an admitted age that [make_decision]
    approves, the amount is the base amount of the matching rule (knee:
    150000 above age 45 and 120000 otherwise; heart, cardiac, cabg: 500000;
    cancer: 1000000; eye, cataract: 60000), increased by 10% in a metro
    city and then by 15% above age 60 or reduced by 10% below age 25, in
    exact arithmetic; the one exception is the base 150000 of a senior in
    a metro city, where the truncated double gives one unit less. *)
Theorem approved_amount_exact (e : Entities) (clauses : pyval) :
  let r := make_decision (entities_dict e) clauses in
  let base := rule_base (lower (default "" (procedure e))) (age e) in
  let metro := is_metro (location e) in
  age_eligible (age e) ->
  decision r = Approved ->
  amount r
  = Some (exact_amount base metro (band_of (age e))
          - if (base =? 150000) && metro
               && match band_of (age e) with Senior => true | _ => false end
            then 1 else 0).
Proof.
  cbn zeta. intros Hage.
  unfold make_decision.
  rewrite make_decision_body_entity, (age_eligible_prints _ Hage).
  cbn [andb].
  destruct (int_renders _); [|discriminate]. cbn zeta.
  rewrite (age_gate_passes _ Hage).
  destruct (String.eqb _ ""); [discriminate|].
  destruct (procedure_rules _ _ _ _ _) as [st|err] eqn:Ep;
    cbn [res_bind]; [|discriminate].
  destruct (l_decision st) eqn:Hd.
  - destruct (procedure_rules_typed_base _ _ _ _ _ _ Ep Hd) as [Ha Hb].
    destruct (business_rules_typed_exact (age e) (location e) st _ Hd Ha Hb)
      as (st' & -> & Ha').
    cbn [res_bind amount _format_result]. by intros _.
  - unfold business_rules. rewrite Hd. cbn [res_bind decision _format_result].
    rewrite Hd. discriminate.
Qed.

Lemma approved_amount_exact_witness :
  amount
    (make_decision
       (entities_dict
          (extract_entities "22F, eye surgery, Hyderabad, 2-month policy"))
       PNone)
  = Some 59400.
Proof.
  rewrite (approved_amount_exact
             (extract_entities "22F, eye surgery, Hyderabad, 2-month policy")
             PNone); [reflexivity| |];
    vm_compute; [right; split; discriminate|reflexivity].
Defined.

(** ** The extractor *)

Lemma find_app {A} (f : A -> bool) (l1 l2 : list A) :
  find f (l1 ++ l2)
  = match find f l1 with Some x => Some x | None => find f l2 end.
Proof.
  induction l1 as [|x l1 IH]; [done|]. cbn. by destruct (f x).
Qed.

Lemma extract_procedure_flat (table : list (string * list string))
    (query_lower : string) :
  extract_procedure table query_lower
  = find (fun pattern => contains pattern query_lower)
      (concat (map snd table)).
Proof.
  induction table as [|[category patterns] table IH]; [done|].
  cbn [extract_procedure map snd concat]. rewrite find_app, IH.
  by destruct (find _ patterns).
Qed.

(** The extractor returns what its [try] block returns, or the record
    without entities. *)
Lemma extract_entities_cases (query : string) :
  extract_entities_body query = Ok (extract_entities query)
  \/ (extraction_failed query /\ extract_entities query = no_entities).
Proof.
  unfold extract_entities, extraction_failed.
  destruct (extract_entities_body query) as [e|err]; [by left|].
  right. split; [by exists err|done].
Qed.

Lemma on_match_some {A} (m : option groups) (f : groups -> res A) (a : A) :
  on_match m f = Ok (Some a) -> exists g, m = Some g /\ f g = Ok a.
Proof.
  destruct m as [g|]; [|done]. cbn [on_match].
  destruct (f g) as [a'|] eqn:E; cbn [res_bind]; [|done].
  intros [= <-]. by exists g.
Qed.

Lemma on_match_none {A} (m : option groups) (f : groups -> res A) :
  on_match m f = Ok None -> m = None.
Proof.
  destruct m as [g|]; [|done]. cbn [on_match].
  by destruct (f g); cbn [res_bind].
Qed.

(** The fields of a record the [try] block returns. *)
Lemma extract_entities_body_ok (query : string) (e : Entities) :
  extract_entities_body query = Ok e ->
  on_match (re_search age_gender_re query) (fun m => py_int (group 1 m))
  = Ok (age e)
  /\ gender e
     = (fun m => if String.eqb (upper (group 2 m)) "M"
                 then "Male" else "Female") <$> re_search age_gender_re query
  /\ on_match (search_first duration_patterns query)
       (fun m =>
          let* v := py_int (group 1 m) in
          Ok {| value := v; unit := normalize_unit (lower (group 2 m)) |})
     = Ok (policy_duration e)
  /\ procedure e = extract_procedure medical_patterns (lower query)
  /\ location e
     = title <$> find (fun city => contains city (lower query)) indian_cities
  /\ on_match (search_first amount_patterns query)
       (fun m => py_int (remove_char "," (group 1 m)))
     = Ok (claimed_amount e).
Proof.
  unfold extract_entities_body. intros H.
  destruct (nlp _) as [doc|]; cbn [res_bind] in H; [|discriminate H].
  destruct (on_match (re_search _ _) _) as [a|]; cbn [res_bind] in H;
    [|discriminate H].
  destruct (on_match (search_first duration_patterns _) _) as [pd|];
    cbn [res_bind] in H; [|discriminate H].
  destruct (on_match (search_first amount_patterns _) _) as [amt|];
    cbn [res_bind] in H; [|discriminate H].
  by injection H as <-.
Qed.

(** X8. The two nested loops of the procedure extraction (with their two
    [break]s) return the first of the 17 patterns, in table order, that
    occurs in the lower-cased query, unless the [try] block raises (the
    query has more than 1000000 characters, or a matched age, duration or
    amount has more than 4300 digits): a procedure that is returned is one
    of the patterns and occurs in the query, no earlier pattern occurs, and
    none is returned exactly when the extraction failed or no pattern
    occurs. *)
Theorem extracted_procedure_first_match (query : string) :
  let found := procedure (extract_entities query) in
  (~ extraction_failed query ->
   found = find (fun pattern => contains pattern (lower query)) all_patterns)
  /\ (forall p, found = Some p ->
        contains p (lower query) = true
        /\ exists before after,
             all_patterns = before ++ p :: after
             /\ Forall (fun p' => contains p' (lower query) = false) before)
  /\ (found = None <->
      extraction_failed query
      \/ Forall (fun p => contains p (lower query) = false) all_patterns).
Proof.
  cbn zeta.
  assert (forall l p,
            find (fun pattern => contains pattern (lower query)) l = Some p ->
            contains p (lower query) = true
            /\ exists before after,
                 l = before ++ p :: after
                 /\ Forall (fun p' => contains p' (lower query) = false)
                      before) as Hfirst.
  { induction l as [|p0 l IH]; [done|]. intros p. cbn [find].
    destruct (contains p0 (lower query)) eqn:E.
    + intros [= <-]. split; [done|]. by exists [], l.
    + intros H. destruct (IH p H) as (Hc & before & after & -> & Hb).
      split; [done|]. exists (p0 :: before), after. split; [done|].
      by constructor. }
  assert (forall l,
            find (fun pattern => contains pattern (lower query)) l = None
            <-> Forall (fun p => contains p (lower query) = false) l)
    as Hnone.
  { induction l as [|p0 l IH]; [done|]. cbn [find].
    destruct (contains p0 (lower query)) eqn:E.
    + split; [done|]. intros H. apply Forall_cons in H as [H _]. congruence.
    + rewrite IH. split; [by constructor|]. intros H.
      by apply Forall_cons in H as [_ H]. }
  destruct (extract_entities_cases query) as [Hok|[Hfail ->]].
  - assert (~ extraction_failed query) as Hnot.
    { intros [err Herr]. rewrite Hok in Herr. discriminate Herr. }
    apply extract_entities_body_ok in Hok as (_ & _ & _ & -> & _).
    rewrite extract_procedure_flat. fold all_patterns.
    split_and!; [done|apply Hfirst|].
    rewrite Hnone. split; [by right|]. by intros [?|?].
  - cbn [procedure no_entities]. split_and!; [done|done|].
    split; [by left|done].
Qed.

Lemma extracted_procedure_first_match_witness :
  contains "cabg" (lower "Need CABG after a heart attack") = true.
Proof.
  apply (proj1 (proj2 (extracted_procedure_first_match
                         "Need CABG after a heart attack")) "cabg").
  vm_compute. reflexivity.
Defined.

(** X9. Whenever the extractor recognises one of "bypass", "tumor",
    "oncology", "chemotherapy", "lasik", "day care", "daycare" and
    "outpatient" (patterns of its heart, cancer, eye and day-care
    categories), the extracted age passes the gate and the extracted
    duration in days can be printed (at most 4300 digits), the engine has
    no branch for the procedure and returns the default rejection: no
    amount, "No matching coverage found", confidence 0.5. *)
Theorem recognised_but_uncovered (query : string) (clauses : pyval)
    (p : string) :
  let e := extract_entities query in
  procedure e = Some p ->
  In p unmatched_patterns ->
  age_eligible (age e) ->
  int_renders (duration_days (policy_duration e)) = true ->
  make_decision (entities_dict e) clauses
  = {| decision := Rejected;
       amount := None;
       justification := [Lit "No matching coverage found"];
       confidence := 0.5;
       source_clauses := [];
       reasoning_steps :=
         [analyzing_step e] ++ duration_steps (policy_duration e)
         ++ [final_step Rejected None] |}.
Proof.
  cbn zeta. intros Hp Hin Hage Hdays.
  apply (unmatched_procedure_result _ _ p Hp); [|done|done|..];
    cbn in Hin;
    repeat (destruct Hin as [<-|Hin]; [vm_compute; done|]);
    destruct Hin.
Qed.

Lemma recognised_but_uncovered_witness :
  decision
    (make_decision
       (entities_dict
          (extract_entities "58M, bypass surgery, Chennai, 2-year policy"))
       PNone)
  = Rejected.
Proof.
  rewrite (recognised_but_uncovered
             "58M, bypass surgery, Chennai, 2-year policy" PNone "bypass");
    [reflexivity| vm_compute; reflexivity | cbn; tauto
    | vm_compute; right; split; discriminate
    | vm_compute; reflexivity].
Defined.

Lemma lower_char_idem (c : ascii) : lower_char (lower_char c) = lower_char c.
Proof. destruct c as [[] [] [] [] [] [] [] []]; reflexivity. Qed.

Lemma lower_upper_char (c : ascii) : lower_char (upper_char c) = lower_char c.
Proof. destruct c as [[] [] [] [] [] [] [] []]; reflexivity. Qed.

(** Title-casing changes the case of letters only. *)
Lemma lower_title_from (prev_cased : bool) (s : string) :
  lower (title_from prev_cased s) = lower s.
Proof.
  revert prev_cased. induction s as [|c s IH]; intros b; [done|].
  cbn [title_from lower]. rewrite IH.
  by destruct b; rewrite ?lower_char_idem, ?lower_upper_char.
Qed.

Lemma str_in_In (s : string) (l : list string) :
  str_in s l = true <-> In s l.
Proof.
  unfold str_in. rewrite existsb_exists. split.
  - intros (x & Hx & Heq). apply String.eqb_eq in Heq. by subst.
  - intros H. exists s. split; [done|]. apply String.eqb_refl.
Qed.

(** X10. The location the extractor returns is the title-cased form of the
    first city of its list that occurs in the lower-cased query, and
    lower-casing it, as the engine does, gives that city back; so the metro
    surcharge applies exactly when that first city is one of the six metro
    cities.  No location is returned exactly when the [try] block of the
    extractor raised or no listed city occurs. *)
Theorem extracted_location_round_trip (query : string) :
  let e := extract_entities query in
  (forall loc, location e = Some loc ->
     exists city,
       find (fun city => contains city (lower query)) indian_cities
       = Some city
       /\ loc = title city
       /\ lower loc = city
       /\ In city indian_cities
       /\ contains city (lower query) = true
       /\ (is_metro (location e) = true <-> In city metro_cities))
  /\ (location e = None <->
      extraction_failed query
      \/ Forall (fun city => contains city (lower query) = false)
           indian_cities).
Proof.
  cbn zeta.
  destruct (extract_entities_cases query) as [Hok|[Hfail ->]].
  2:{ cbn [location no_entities]. split; [done|]. split; [by left|done]. }
  assert (~ extraction_failed query) as Hnot.
  { intros [err Herr]. rewrite Hok in Herr. discriminate Herr. }
  apply extract_entities_body_ok in Hok as (_ & _ & _ & _ & -> & _).
  split.
  - intros loc Hloc.
    destruct (find _ indian_cities) as [city|] eqn:Ef; [|discriminate Hloc].
    injection Hloc as <-. exists city.
    apply find_some in Ef as [Hin Hc].
    assert (lower (title city) = city) as Hl.
    { unfold title. rewrite lower_title_from.
      cbn in Hin. repeat (destruct Hin as [<-|Hin]; [reflexivity|]).
      destruct Hin. }
    split_and!; try done.
    cbn [fmap option_fmap option_map is_metro]. rewrite Hl.
    apply str_in_In.
  - destruct (find _ indian_cities) as [city|] eqn:Ef.
    + split; [discriminate|]. intros [?|Hall]; [done|].
      apply find_some in Ef as [Hin Hc].
      rewrite List.Forall_forall in Hall. specialize (Hall _ Hin). cbn in Hall.
      congruence.
    + split; [|done]. intros _. right.
      apply List.Forall_forall. intros city Hin.
      by apply (find_none _ _ Ef).
Qed.

Lemma extracted_location_round_trip_witness :
  exists city,
    find (fun city => contains city (lower "eye surgery in NEW DELHI"))
      indian_cities = Some city
    /\ "Delhi" = title city
    /\ lower "Delhi" = city
    /\ In city indian_cities
    /\ contains city (lower "eye surgery in NEW DELHI") = true
    /\ (is_metro (location (extract_entities "eye surgery in NEW DELHI"))
        = true <-> In city metro_cities).
Proof.
  apply (proj1 (extracted_location_round_trip "eye surgery in NEW DELHI")).
  vm_compute. reflexivity.
Defined.

(** ** Regular expressions: the matcher finds matches only *)

Lemma append_cons (x : ascii) (a b : string) :
  String x a +:+ b = String x (a +:+ b).
Proof. reflexivity. Qed.

Lemma append_nil_l (b : string) : "" +:+ b = b.
Proof. reflexivity. Qed.

Lemma append_assoc (a b c : string) : (a +:+ b) +:+ c = a +:+ (b +:+ c).
Proof.
  induction a as [|x a IH]; [done|]. rewrite !append_cons. by f_equal.
Qed.

Lemma append_nil_r (a : string) : a +:+ "" = a.
Proof.
  induction a as [|x a IH]; [done|]. rewrite append_cons. by f_equal.
Qed.

Lemma length_append (a b : string) :
  String.length (a +:+ b) = (String.length a + String.length b)%nat.
Proof.
  induction a as [|x a IH]; [done|]. rewrite append_cons. cbn. by f_equal.
Qed.

Lemma str_take_append (a b : string) :
  str_take (String.length a) (a +:+ b) = a.
Proof.
  induction a as [|x a IH]; [by destruct b|]. rewrite append_cons. cbn.
  by f_equal.
Qed.

Lemma consumed_append (m rest : string) : consumed (m +:+ rest) rest = m.
Proof.
  unfold consumed. rewrite length_append.
  replace (String.length m + String.length rest - String.length rest)%nat
    with (String.length m) by lia.
  apply str_take_append.
Qed.

(** Soundness of the matcher: a successful run hands its continuation the
    rest of a real match. *)
Lemma rmatch_sound (r : regex) :
  forall {A} (s : string) (g : groups) (k : string -> groups -> option A)
         (x : A),
    rmatch r s g k = Some x ->
    exists m rest g',
      s = m +:+ rest /\ matches r m rest g g' /\ k rest g' = Some x.
Proof.
  induction r as [|p|r1 IH1 r2 IH2|r1 IH1 r2 IH2|r1 IH1|r1 IH1|n r1 IH1|];
    intros A s g k x H; cbn [rmatch] in H.
  - exists "", s, g. split_and!; [done|apply m_eps|done].
  - destruct s as [|c s]; [done|]. destruct (p c) eqn:Ep; [|done].
    exists (String c ""), s, g. split_and!; [done|by apply m_char|done].
  - apply IH1 in H as (m1 & rest1 & g1 & -> & Hm1 & H).
    apply IH2 in H as (m2 & rest & g2 & -> & Hm2 & H).
    exists (m1 +:+ m2), rest, g2.
    split_and!; [by rewrite append_assoc|by eapply m_seq|done].
  - destruct (rmatch r1 s g k) as [y|] eqn:E1.
    + injection H as ->.
      apply IH1 in E1 as (m & rest & g' & -> & Hm & Hk).
      exists m, rest, g'. split_and!; [done|by apply m_alt_l|done].
    + apply IH2 in H as (m & rest & g' & -> & Hm & Hk).
      exists m, rest, g'. split_and!; [done|by apply m_alt_r|done].
  - revert H. generalize (String.length s) as fuel. intros fuel.
    revert s g. induction fuel as [|fuel IHf]; intros s g H.
    + exists "", s, g. split_and!; [done|apply m_star_nil|done].
    + match type of H with
      | match ?scrut with _ => _ end = _ => destruct scrut as [y|] eqn:E1
      end.
      * injection H as ->.
        apply IH1 in E1 as (m1 & rest1 & g1 & -> & Hm1 & Hk).
        destruct (_ <? _)%nat; [|done].
        apply IHf in Hk as (m2 & rest & g2 & -> & Hm2 & Hk).
        exists (m1 +:+ m2), rest, g2.
        split_and!; [by rewrite append_assoc|by eapply m_star_cons|done].
      * exists "", s, g. split_and!; [done|apply m_star_nil|done].
  - destruct (rmatch r1 s g k) as [y|] eqn:E1.
    + injection H as ->.
      apply IH1 in E1 as (m & rest & g' & -> & Hm & Hk).
      exists m, rest, g'. split_and!; [done|by apply m_opt_some|done].
    + exists "", s, g. split_and!; [done|apply m_opt_none|done].
  - apply IH1 in H as (m & rest & g' & -> & Hm & Hk).
    rewrite consumed_append in Hk.
    exists m, rest, ((n, m) :: g'). split_and!; [done|by apply m_group|done].
  - destruct (_ || _) eqn:E; [|done].
    exists "", s, g. split_and!; [done| |done]. apply m_end.
    apply orb_true_iff in E as [E|E]; apply String.eqb_eq in E; auto.
Qed.

Lemma re_search_sound (r : regex) (s : string) (g : groups) :
  re_search r s = Some g ->
  exists before m rest,
    s = before +:+ m +:+ rest /\ matches r m rest [] g.
Proof.
  induction s as [|c s IH]; cbn [re_search].
  - destruct (rmatch r "" [] _) as [g0|] eqn:E; [|done].
    intros [= ->]. apply rmatch_sound in E as (m & rest & g' & -> & Hm & [= ->]).
    by exists "", m, rest.
  - destruct (rmatch r (String c s) [] _) as [g0|] eqn:E.
    + intros [= ->].
      apply rmatch_sound in E as (m & rest & g' & Hs & Hm & [= ->]).
      exists "", m, rest. by rewrite Hs.
    + intros H. destruct (IH H) as (before & m & rest & -> & Hm).
      by exists (String c before), m, rest.
Qed.

Lemma search_first_sound (patterns : list regex) (s : string) (g : groups) :
  search_first patterns s = Some g ->
  exists r before m rest,
    In r patterns /\ s = before +:+ m +:+ rest /\ matches r m rest [] g.
Proof.
  induction patterns as [|r patterns IH]; [done|]. cbn [search_first].
  destruct (re_search r s) as [g0|] eqn:E.
  - intros [= ->]. apply re_search_sound in E as (before & m & rest & Hs & Hm).
    exists r, before, m, rest. split_and!; [by left|done..].
  - intros H. destruct (IH H) as (r' & before & m & rest & Hin & Hs & Hm).
    exists r', before, m, rest. split_and!; [by right|done..].
Qed.

Lemma matches_group_free (r : regex) (m rest : string) (g g' : groups) :
  matches r m rest g g' -> group_free r = true -> g' = g.
Proof.
  induction 1; cbn [group_free]; intros Hf;
    rewrite ?andb_true_iff in Hf; try done.
  - destruct Hf as [H1 H2]. by rewrite IHmatches2, IHmatches1.
  - destruct Hf as [H1 H2]. auto.
  - destruct Hf as [H1 H2]. auto.
  - rewrite IHmatches2, IHmatches1; done.
  - auto.
Qed.

Lemma matches_word_i (w m rest : string) (g g' : groups) :
  matches (word_i w) m rest g g' -> lower m = lower w /\ g' = g.
Proof.
  revert m rest g g'. induction w as [|c w IH]; intros m rest g g' H;
    cbn [word_i] in H.
  - by inversion H.
  - inversion H as [| |r1 r2 m1 m2 rest' g0 g1 g2 H1 H2| | | | | | | |]; subst.
    apply IH in H2 as [Hl ->].
    inversion H1 as [|p c' rest' g0 Hp| | | | | | | | |]; subst.
    split; [|done]. rewrite append_cons, append_nil_l. cbn [lower].
    rewrite Hl. f_equal. by apply Ascii.eqb_eq in Hp.
Qed.

Lemma matches_chr_i (c : ascii) (m rest : string) (g g' : groups) :
  matches (chr_i c) m rest g g' ->
  lower m = String (lower_char c) "" /\ g' = g.
Proof.
  intros H. inversion H as [|p c' rest' g0 Hp| | | | | | | | |]; subst.
  split; [|done]. cbn. f_equal. by apply Ascii.eqb_eq in Hp.
Qed.

Lemma matches_seq_inv (r1 r2 : regex) (m rest : string) (g g2 : groups) :
  matches (RSeq r1 r2) m rest g g2 ->
  exists m1 m2 g1,
    m = m1 +:+ m2 /\ matches r1 m1 (m2 +:+ rest) g g1
    /\ matches r2 m2 rest g1 g2.
Proof. intros H. inversion H; subst. by eexists _, _, _. Qed.

Lemma matches_group_inv (n : nat) (r : regex) (m rest : string)
    (g g2 : groups) :
  matches (RGroup n r) m rest g g2 ->
  exists g1, g2 = (n, m) :: g1 /\ matches r m rest g g1.
Proof. intros H. inversion H; subst. by eexists. Qed.

Lemma matches_alt_inv (r1 r2 : regex) (m rest : string) (g g' : groups) :
  matches (RAlt r1 r2) m rest g g' ->
  matches r1 m rest g g' \/ matches r2 m rest g g'.
Proof. intros H. inversion H; subst; auto. Qed.

(** The second group of a match of a duration pattern spells, up to case,
    one of the four unit words. *)
Lemma duration_pattern_unit (r : regex) (m rest : string) (g : groups) :
  In r duration_patterns ->
  matches r m rest [] g ->
  In (lower (group 2 g)) ["month"; "year"; "m"; "y"].
Proof.
  intros [<-|[<-|[]]] H; unfold seq in H; cbn [fold_right] in H.
  - apply matches_seq_inv in H as (m1 & ? & g1 & _ & H1 & H).
    apply matches_group_inv in H1 as (g0 & -> & H1).
    apply matches_group_free in H1 as ->; [|done].
    apply matches_seq_inv in H as (? & ? & ? & _ & H2 & H).
    apply matches_group_free in H2 as ->; [|done].
    apply matches_seq_inv in H as (? & ? & ? & _ & H2 & H).
    apply matches_group_free in H2 as ->; [|done].
    apply matches_seq_inv in H as (? & ? & ? & _ & H2 & H).
    apply matches_group_free in H2 as ->; [|done].
    apply matches_seq_inv in H as (m5 & ? & ? & _ & H2 & H).
    apply matches_group_inv in H2 as (? & -> & H2).
    apply matches_group_free in H as ->; [|done].
    cbn [group Nat.eqb].
    apply matches_alt_inv in H2 as [H2|H2];
      apply matches_word_i in H2 as [-> _]; cbn; tauto.
  - apply matches_seq_inv in H as (m1 & ? & g1 & _ & H1 & H).
    apply matches_group_inv in H1 as (g0 & -> & H1).
    apply matches_group_free in H1 as ->; [|done].
    apply matches_seq_inv in H as (? & ? & ? & _ & H2 & H).
    apply matches_group_free in H2 as ->; [|done].
    apply matches_seq_inv in H as (? & ? & ? & _ & H2 & H).
    apply matches_group_free in H2 as ->; [|done].
    apply matches_seq_inv in H as (? & ? & ? & _ & H2 & H).
    apply matches_group_free in H2 as ->; [|done].
    apply matches_seq_inv in H as (m5 & ? & ? & _ & H2 & H).
    apply matches_group_inv in H2 as (? & -> & H2).
    apply matches_group_free in H as ->; [|done].
    cbn [group Nat.eqb].
    apply matches_alt_inv in H2 as [H2|H2];
      apply matches_chr_i in H2 as [-> _]; cbn; tauto.
Qed.

(** X12. Whatever the query, an extracted policy duration has the unit
    "month" or "year" (never the abbreviation or another word), so the
    engine's conversion to days always takes one of its two branches: the
    duration in days is 30 or 365 times the value. *)
Theorem extracted_duration_unit (query : string) (d : Duration) :
  policy_duration (extract_entities query) = Some d ->
  (unit d = "month" \/ unit d = "year")
  /\ (duration_days (Some d) = value d * 30
      \/ duration_days (Some d) = value d * 365).
Proof.
  destruct (extract_entities_cases query) as [Hok|[_ ->]]; [|done].
  apply extract_entities_body_ok in Hok as (_ & _ & Hpd & _).
  intros Hd. rewrite Hd in Hpd.
  apply on_match_some in Hpd as (g & E & Hv).
  destruct (py_int (group 1 g)) as [v|]; cbn [res_bind] in Hv;
    [|discriminate Hv].
  injection Hv as <-.
  apply search_first_sound in E as (r & before & m & rest & Hin & _ & Hm).
  pose proof (duration_pattern_unit r m rest g Hin Hm) as Hu.
  cbn [unit value duration_days].
  cbn in Hu. destruct Hu as [<-|[<-|[<-|[<-|[]]]]]; cbn; tauto.
Qed.

Lemma extracted_duration_unit_witness :
  (unit {| value := 18; unit := "month" |} = "month"
   \/ unit {| value := 18; unit := "month" |} = "year")
  /\ (duration_days (Some {| value := 18; unit := "month" |}) = 18 * 30
      \/ duration_days (Some {| value := 18; unit := "month" |}) = 18 * 365).
Proof.
  apply (extracted_duration_unit "policy held for 18 M").
  vm_compute. reflexivity.
Defined.

(** A repetition of one character class matches characters of the class
    only, and captures nothing. *)
Lemma matches_star_class (p : ascii -> bool) (m rest : string)
    (g g' : groups) :
  matches (RStar (RChar p)) m rest g g' ->
  all_chars p m = true /\ g' = g.
Proof.
  intros H. remember (RStar (RChar p)) as r eqn:Er.
  induction H as [| | | | | |r m1 m2 rest g g1 g2 H1 _ H2 IH2| | | |];
    try discriminate Er; [done|].
  injection Er as ->. destruct (IH2 eq_refl) as [Hall ->].
  inversion H1 as [|p' c rest' g0 Hp| | | | | | | | |]; subst.
  rewrite append_cons, append_nil_l. cbn [all_chars].
  by rewrite Hp, Hall.
Qed.

Lemma matches_plus_class (p : ascii -> bool) (m rest : string)
    (g g' : groups) :
  matches (plus (RChar p)) m rest g g' ->
  m <> "" /\ all_chars p m = true /\ g' = g.
Proof.
  unfold plus. intros H.
  apply matches_seq_inv in H as (m1 & m2 & g1 & -> & H1 & H2).
  apply matches_star_class in H2 as [Hall ->].
  inversion H1 as [|p' c rest' g0 Hp| | | | | | | | |]; subst.
  rewrite append_cons, append_nil_l. cbn [all_chars].
  by rewrite Hp, Hall.
Qed.

(** A numeral of [n] digits is below [10 ^ n]. *)
Lemma int_of_digits_from_bound (acc : Z) (s : string) :
  all_chars is_digit s = true ->
  0 <= acc ->
  0 <= int_of_digits_from acc s
  < (acc + 1) * 10 ^ Z.of_nat (String.length s).
Proof.
  revert acc. induction s as [|c s IH]; intros acc Hall Hacc.
  - cbn. lia.
  - cbn [all_chars] in Hall. apply andb_true_iff in Hall as [Hc Hall].
    cbn [int_of_digits_from String.length].
    assert (0 <= Z.of_nat (nat_of_ascii c - 48) <= 9) as Hd.
    { unfold is_digit in Hc. cbn zeta in Hc. lia. }
    specialize (IH (10 * acc + Z.of_nat (nat_of_ascii c - 48)) Hall
                  ltac:(lia)).
    rewrite Nat2Z.inj_succ, Z.pow_succ_r by lia.
    assert (0 < 10 ^ Z.of_nat (String.length s)) by (apply Z.pow_pos_nonneg; lia).
    nia.
Qed.

Lemma py_int_digits (s : string) (z : Z) :
  py_int s = Ok z ->
  all_chars is_digit s = true ->
  (String.length s <= 4300)%nat /\ z = int_of_digits s
  /\ 0 <= z /\ int_renders z = true.
Proof.
  unfold py_int. destruct (4300 <? String.length s)%nat eqn:E; [done|].
  intros [= <-] Hall.
  pose proof (int_of_digits_from_bound 0 s Hall ltac:(lia)) as Hb.
  fold (int_of_digits s) in Hb.
  split_and!; [lia|done|lia|].
  unfold int_renders, int_str_limit. apply Z.ltb_lt.
  rewrite Z.abs_eq by lia.
  eapply Z.lt_le_trans; [apply Hb|]. rewrite Z.mul_1_l.
  apply Z.pow_le_mono_r; lia.
Qed.

Lemma gender_letter (c : ascii) :
  (lower_char c = "m"%char -> upper_char c = "M"%char)
  /\ (lower_char c = "f"%char -> upper_char c = "F"%char).
Proof.
  destruct c as [[] [] [] [] [] [] [] []];
    split; intros H; (reflexivity || discriminate H).
Qed.

(** X11. An extracted age is written in the query: the query contains a
    non-empty run of at most 4300 decimal digits directly followed by the
    letter M or F, in either case; the age is the number these digits
    spell, so it is not negative and the engine can always print it; the
    gender is "Male" for M or m and "Female" for F or f. *)
Theorem extracted_age_is_written (query : string) (a : Z) :
  let e := extract_entities query in
  age e = Some a ->
  exists before digits letter rest,
    query = before +:+ digits +:+ String letter rest
    /\ digits <> ""
    /\ all_chars is_digit digits = true
    /\ (String.length digits <= 4300)%nat
    /\ a = int_of_digits digits
    /\ (lower_char letter = "m"%char /\ gender e = Some "Male"
        \/ lower_char letter = "f"%char /\ gender e = Some "Female")
    /\ 0 <= a
    /\ int_renders a = true.
Proof.
  cbn zeta.
  destruct (extract_entities_cases query) as [Hok|[_ ->]]; [|done].
  apply extract_entities_body_ok in Hok as (Hage & Hgender & _).
  intros Ha. rewrite Ha in Hage. rewrite Hgender.
  apply on_match_some in Hage as (g & E & Hint). rewrite E.
  apply re_search_sound in E as (before & m & rest & -> & Hm).
  unfold age_gender_re, seq in Hm. cbn [fold_right] in Hm.
  apply matches_seq_inv in Hm as (m1 & m' & g1 & -> & H1 & Hm).
  apply matches_group_inv in H1 as (g0 & -> & H1).
  fold (plus (RChar is_digit)) in H1. unfold digit in H1.
  apply matches_plus_class in H1 as (Hne & Hall & ->).
  apply matches_seq_inv in Hm as (m2 & m3 & g2 & -> & H2 & H3).
  apply matches_group_inv in H2 as (g3 & -> & H2).
  assert (g3 = [(1%nat, m1)]) as ->.
  { apply matches_alt_inv in H2 as [H2|H2];
      by apply matches_chr_i in H2 as [_ ->]. }
  inversion H3; subst.
  cbn [group Nat.eqb] in Hint |- *.
  destruct (py_int_digits _ _ Hint Hall) as (Hlen & -> & Hpos & Hr).
  assert (exists letter,
            m2 = String letter ""
            /\ (lower_char letter = "m"%char \/ lower_char letter = "f"%char))
    as (letter & -> & Hl).
  { apply matches_alt_inv in H2 as [H2|H2];
      apply matches_chr_i in H2 as [H2 _];
      destruct m2 as [|c [|]]; try discriminate H2;
      injection H2 as H2; exists c; (split; [done|]);
      first [left; exact H2 | right; exact H2]. }
  exists before, m1, letter, rest.
  split_and!; try done.
  - by rewrite append_nil_r, !append_assoc.
  - cbn [fmap option_fmap option_map group Nat.eqb upper].
    destruct (gender_letter letter) as [Hm' Hf'].
    destruct Hl as [Hl|Hl]; [left|right]; (split; [done|]).
    + by rewrite (Hm' Hl).
    + by rewrite (Hf' Hl).
Qed.

Lemma extracted_age_is_written_witness :
  exists before digits letter rest,
    "claim of a 46m patient" = before +:+ digits +:+ String letter rest
    /\ digits <> ""
    /\ all_chars is_digit digits = true
    /\ (String.length digits <= 4300)%nat
    /\ 46 = int_of_digits digits
    /\ (lower_char letter = "m"%char
        /\ gender (extract_entities "claim of a 46m patient") = Some "Male"
        \/ lower_char letter = "f"%char
           /\ gender (extract_entities "claim of a 46m patient")
              = Some "Female")
    /\ 0 <= 46
    /\ int_renders 46 = true.
Proof.
  apply (extracted_age_is_written "claim of a 46m patient" 46).
  vm_compute. reflexivity.
Defined.

(** ** Substrings *)

Lemma prefix_spec (a s : string) :
  String.prefix a s = true <-> exists post, s = a +:+ post.
Proof.
  revert s. induction a as [|x a IH]; intros s.
  - split; [intros _; by exists s|intros _; by destruct s].
  - destruct s as [|y s]; cbn [String.prefix].
    + split; [done|]. by intros [post Hpost].
    + destruct (ascii_dec x y) as [->|Hne].
      * rewrite IH. split; intros [post Hpost]; exists post.
        -- by rewrite append_cons, Hpost.
        -- rewrite append_cons in Hpost. congruence.
      * split; [done|]. intros [post Hpost].
        rewrite append_cons in Hpost. congruence.
Qed.

Lemma contains_unfold (sub s : string) :
  contains sub s
  = if String.prefix sub s then true
    else match s with
         | EmptyString => false
         | String _ s' => contains sub s'
         end.
Proof. by destruct s. Qed.

Lemma contains_spec (sub s : string) :
  contains sub s = true <-> exists pre post, s = pre +:+ sub +:+ post.
Proof.
  split.
  - induction s as [|c s IH]; rewrite contains_unfold;
      destruct (String.prefix sub _) eqn:E;
      try (apply prefix_spec in E as [post ->]; intros _; by exists "", post).
    + done.
    + intros H. destruct (IH H) as (pre & post & ->).
      by exists (String c pre), post.
  - intros (pre & post & ->). induction pre as [|c pre IH];
      rewrite contains_unfold.
    + rewrite append_nil_l.
      by rewrite (proj2 (prefix_spec sub (sub +:+ post))) by eauto.
    + rewrite append_cons. by destruct (String.prefix _ _).
Qed.

Lemma contains_trans (a b s : string) :
  contains a b = true -> contains b s = true -> contains a s = true.
Proof.
  rewrite !contains_spec. intros (p1 & q1 & ->) (p2 & q2 & ->).
  exists (p2 +:+ p1), (q1 +:+ q2). by rewrite !append_assoc.
Qed.

Lemma str_take_drop (n : nat) (s : string) :
  str_take n s +:+ str_drop n s = s.
Proof.
  revert s. induction n as [|n IH]; intros [|c s]; try done.
  cbn [str_take str_drop]. rewrite append_cons. by f_equal.
Qed.

Lemma contains_slice (s : string) (a b : nat) :
  contains (slice s a b) s = true.
Proof.
  apply contains_spec.
  exists (str_take a s), (str_drop (b - a) (str_drop a s)).
  unfold slice. by rewrite str_take_drop, str_take_drop.
Qed.

Lemma lstrip_suffix (s : string) : exists pre, s = pre +:+ lstrip s.
Proof.
  induction s as [|c s [pre IH]]; [by exists ""|]. cbn [lstrip].
  destruct (is_space c); [|by exists ""].
  exists (String c pre). rewrite append_cons. by f_equal.
Qed.

Lemma rstrip_prefix (s : string) : exists post, s = rstrip s +:+ post.
Proof.
  induction s as [|c s [post IH]]; [by exists ""|]. cbn [rstrip].
  destruct (rstrip s) as [|d r] eqn:E.
  - destruct (is_space c).
    + by exists (String c s).
    + exists post. rewrite append_cons. f_equal. by rewrite IH.
  - exists post. rewrite append_cons. by f_equal.
Qed.

Lemma contains_strip (s : string) : contains (strip s) s = true.
Proof.
  apply contains_spec. unfold strip.
  destruct (lstrip_suffix s) as [pre Hpre].
  destruct (rstrip_prefix (lstrip s)) as [post Hpost].
  exists pre, post. by rewrite <- Hpost.
Qed.

(** ** Clause categories *)

(** X13. [_categorize_clause] never files a clause under "exclusions"
    because of the words "not cover": such a text also contains "cover" and
    is filed under "definitions" or "coverage"; a clause is an exclusion
    only if it contains "exclude" or "limitation" (in any letter case) and
    none of the definition and coverage words. *)
Theorem not_cover_is_coverage (text : string) :
  (contains "not cover" (lower text) = true ->
   _categorize_clause text = "definitions"
   \/ _categorize_clause text = "coverage")
  /\ (_categorize_clause text = "exclusions" ->
      (contains "exclude" (lower text) = true
       \/ contains "limitation" (lower text) = true)
      /\ contains "not cover" (lower text) = false
      /\ any_in ["define"; "means"; "definition"; "cover"; "benefit";
                 "include"] (lower text) = false).
Proof.
  assert (contains "not cover" (lower text) = true ->
          contains "cover" (lower text) = true) as Hnc.
  { intros H. by apply (contains_trans "cover" "not cover"). }
  unfold _categorize_clause, any_in. cbn [existsb]. split.
  - intros H. rewrite (Hnc H).
    destruct (_ || _); [by left|by right].
  - destruct (contains "define" _), (contains "means" _),
      (contains "definition" _); cbn [orb]; try discriminate.
    destruct (contains "cover" (lower text)) eqn:Ec; cbn [orb];
      [discriminate|].
    destruct (contains "benefit" _), (contains "include" _); cbn [orb];
      try discriminate.
    destruct (contains "not cover" (lower text)) eqn:En;
      [discriminate (Hnc eq_refl)|].
    destruct (contains "exclude" _), (contains "limitation" _); cbn [orb];
      try tauto.
    destruct (_ || _); [discriminate|]. by destruct (_ || _).
Qed.

Lemma not_cover_is_coverage_witness :
  _categorize_clause "OPD treatments NOT covered as day care procedures"
  = "definitions"
  \/ _categorize_clause "OPD treatments NOT covered as day care procedures"
     = "coverage".
Proof.
  apply (proj1 (not_cover_is_coverage
                  "OPD treatments NOT covered as day care procedures")).
  vm_compute. reflexivity.
Defined.

(** ** The chunk splitter: what the chunks are *)

Lemma split_loop_invariant (P : string -> Prop) (c : TextChunker)
    (text : string) :
  (forall start,
     P (strip (slice text start (chunk_end c text start)))) ->
  forall fuel start chunks res,
    split_loop fuel c text start chunks = Some res ->
    Forall P chunks -> Forall P res.
Proof.
  intros HP. induction fuel as [|fuel IH]; intros start chunks res H Hall;
    cbn [split_loop] in H;
    destruct ((start <? String.length text)%nat
              && (length chunks <? max_chunks)%nat).
  - done.
  - by injection H as <-.
  - assert (Forall P (keep_chunk chunks
              (strip (slice text start (chunk_end c text start))))) as Hk.
    { unfold keep_chunk. destruct (_ && _); [|done].
      apply Forall_app. split; [done|]. by apply Forall_singleton. }
    destruct (_ <=? _)%nat; [by injection H as <-|]. by eapply IH.
  - by injection H as <-.
Qed.

(** X14. With a configuration whose loop advances, every chunk the
    splitter returns is a verbatim piece of the preprocessed text: a
    contiguous substring of it, with the white space at its two ends
    removed. *)
Theorem chunks_are_verbatim (c : TextChunker) (text : string) :
  advances c ->
  exists chunks,
    (forall fuel, (String.length (_preprocess_text text) <= fuel)%nat ->
                  split_text_optimized fuel c text = Some chunks)
    /\ Forall (fun chunk =>
                 contains chunk (_preprocess_text text) = true
                 /\ strip chunk = chunk) chunks.
Proof.
  intros Hadv.
  destruct (split_text_chunks c text Hadv) as (chunks & Hrun & Hok & _).
  exists chunks. split; [done|].
  specialize (Hrun _ (Nat.le_refl _)). unfold split_text_optimized in Hrun.
  destruct (String.eqb text "" || _).
  - injection Hrun as <-. constructor.
  - eapply split_loop_invariant; [|exact Hrun|constructor].
    intros start. split; [|apply strip_idem].
    eapply contains_trans; [apply contains_strip|apply contains_slice].
Qed.

Lemma chunks_are_verbatim_witness :
  exists chunks,
    (forall fuel,
       (String.length (_preprocess_text (fill 60 "x" +:+ "   ")) <= fuel)%nat ->
       split_text_optimized fuel text_chunker (fill 60 "x" +:+ "   ")
       = Some chunks)
    /\ Forall (fun chunk =>
                 contains chunk (_preprocess_text (fill 60 "x" +:+ "   "))
                 = true
                 /\ strip chunk = chunk) chunks.
Proof.
  apply (chunks_are_verbatim text_chunker (fill 60 "x" +:+ "   ")).
  unfold advances. cbn. lia.
Defined.

(** ** From the extracted text to the stored chunks *)

Lemma text_chunker_advances : advances text_chunker.
Proof. unfold advances. cbn. lia. Qed.

(** X15. In [process_pdf_qa] the 50-chunk limit never cuts anything: for
    every extracted text the request either fails with status 400 (too
    little text, or no chunk) or hands the vector store exactly the chunks
    the splitter returned, which are at least one and at most 40, each of
    51 to 601 characters. *)
Theorem chunk_limit_never_applies (pdf_text : string) :
  exists res,
    (forall fuel, (String.length (_preprocess_text pdf_text) <= fuel)%nat ->
                  chunks_for_store fuel pdf_text = Some res)
    /\ match res with
       | HttpError status_code _ => status_code = 400%nat
       | HttpOk chunks =>
           (forall fuel,
              (String.length (_preprocess_text pdf_text) <= fuel)%nat ->
              split_text_optimized fuel text_chunker pdf_text = Some chunks)
           /\ (1 <= length chunks <= 40)%nat
           /\ Forall (fun chunk =>
                        (51 <= String.length chunk <= 601)%nat) chunks
       end.
Proof.
  destruct (split_text_chunks text_chunker pdf_text text_chunker_advances)
    as (chunks & Hrun & Hok & Hlen).
  unfold chunks_for_store.
  destruct (String.eqb pdf_text "" || _).
  { eexists. split; [done|]. done. }
  destruct chunks as [|chunk chunks].
  { eexists. split; [intros fuel Hf; by rewrite (Hrun fuel Hf)|]. done. }
  exists (HttpOk (chunk :: chunks)). split.
  - intros fuel Hf. rewrite (Hrun fuel Hf).
    unfold max_chunks in Hlen.
    by replace (50 <? length (chunk :: chunks))%nat with false by lia.
  - split_and!; [done|cbn; lia|exact Hlen|].
    eapply Forall_impl; [exact Hok|]. intros ch (_ & Hch).
    cbn in Hch. lia.
Qed.

(** ** The prompt *)

Lemma length_join_le (sep : string) (parts : list string) :
  (String.length (join sep parts)
   <= total_length parts + String.length sep * (length parts - 1))%nat.
Proof.
  induction parts as [|part parts IH]; [cbn; lia|].
  destruct parts as [|part' parts]; [cbn; lia|].
  change (join sep (part :: part' :: parts))
    with (part +:+ sep +:+ join sep (part' :: parts)).
  rewrite !length_append. cbn [total_length foldr length] in *. lia.
Qed.

Lemma context_loop_spec (chunks : list string) :
  forall (i : nat) (parts : list string) (cur : nat),
    exists n,
      (n <= length chunks)%nat
      /\ context_loop i chunks parts cur
         = parts
           ++ imap (fun k chunk =>
                      "Context " +:+ str_of_nat (i + k + 1) +:+ ": " +:+ chunk)
                (take n chunks)
      /\ ((cur <= max_context_length)%nat ->
          (cur + total_length (take n chunks) <= max_context_length)%nat)
      /\ ((n < length chunks)%nat ->
          (max_context_length < cur + total_length (take (S n) chunks))%nat).
Proof.
  induction chunks as [|chunk chunks IH]; intros i parts cur.
  - exists 0%nat. cbn. rewrite app_nil_r. split_and!; [lia|done|lia|lia].
  - cbn [context_loop].
    destruct (max_context_length <? cur + String.length chunk)%nat eqn:E.
    + exists 0%nat. cbn. rewrite app_nil_r. split_and!; [lia|done|lia|lia].
    + destruct (IH (S i)
                  (parts ++ ["Context " +:+ str_of_nat (i + 1) +:+ ": "
                             +:+ chunk])
                  (cur + String.length chunk)%nat)
        as (n & Hn & -> & Hsum & Hmax).
      exists (S n). cbn [length take imap total_length foldr].
      split_and!.
      * lia.
      * rewrite <- app_assoc. f_equal. cbn [app]. f_equal.
        -- by rewrite Nat.add_0_r.
        -- apply imap_ext. intros k ch _. cbn [compose].
           by replace (S i + k + 1)%nat with (i + S k + 1)%nat by lia.
      * intros _. fold (total_length (take n chunks)).
        assert (cur + String.length chunk <= max_context_length)%nat by lia.
        specialize (Hsum ltac:(done)). lia.
      * intros Hlt. fold (total_length (take (S n) chunks)).
        specialize (Hmax ltac:(lia)). lia.
Qed.

Lemma length_context_line (k : nat) (chunk : string) :
  (k < 3)%nat ->
  String.length ("Context " +:+ str_of_nat (k + 1) +:+ ": " +:+ chunk)
  = (String.length chunk + 11)%nat.
Proof.
  intros Hk. rewrite !length_append.
  assert (String.length (str_of_nat (k + 1)) = 1%nat) as ->.
  { destruct k as [|[|[|k]]]; [by vm_compute..|lia]. }
  cbn. lia.
Qed.

Lemma total_length_imap (f : nat -> string -> string) (extra : nat)
    (l : list string) :
  (forall k s, (k < length l)%nat ->
               String.length (f k s) = (String.length s + extra)%nat) ->
  total_length (imap f l) = (total_length l + extra * length l)%nat.
Proof.
  revert f. induction l as [|x l IH]; intros f Hf; [cbn; lia|].
  cbn [imap total_length foldr length].
  fold (total_length (imap (f ∘ S) l)). fold (total_length l).
  rewrite Hf by (cbn; lia). rewrite IH; [lia|].
  intros k s Hk. cbn [compose]. apply Hf. cbn. lia.
Qed.

Lemma total_length_bound (bound : nat) (l : list string) :
  Forall (fun s => (String.length s <= bound)%nat) l ->
  (total_length l <= bound * length l)%nat.
Proof.
  induction 1 as [|x l Hx Hl IH]; cbn [total_length foldr length]; [lia|].
  fold (total_length l). lia.
Qed.

(** X16. The prompt carries a prefix of the first three context chunks, in
    order and numbered from 1: chunks are added while their total length
    stays within 2000 characters and the first one that does not fit ends
    the loop (later, shorter chunks are not tried).  The prompt is never
    longer than the question plus 2343 characters; and when the first three
    chunks have at most 666 characters each, as the chunks of the 600/100
    splitter have, all of them are in the prompt. *)
Theorem prompt_context_prefix (question : string) (chunks : list string) :
  exists n,
    (n <= 3)%nat /\ (n <= length chunks)%nat
    /\ _create_optimized_prompt question chunks
       = prompt_head
         +:+ join (String newline (String newline ""))
               (context_lines (take n chunks))
         +:+ prompt_middle +:+ question +:+ prompt_tail
    /\ (total_length (take n chunks) <= 2000)%nat
    /\ ((n < Nat.min 3 (length chunks))%nat ->
        (2000 < total_length (take (S n) chunks))%nat)
    /\ (String.length (_create_optimized_prompt question chunks)
        <= String.length question + 2343)%nat
    /\ (Forall (fun chunk => (String.length chunk <= 666)%nat)
          (take 3 chunks) ->
        n = Nat.min 3 (length chunks)).
Proof.
  unfold _create_optimized_prompt.
  destruct (context_loop_spec (take 3 chunks) 0 [] 0)
    as (n & Hn & -> & Hsum & Hmax).
  rewrite length_take in Hn. rewrite take_take in Hsum.
  replace (n `min` 3)%nat with n in Hsum by lia.
  exists n. cbn [app]. fold (context_lines (take n (take 3 chunks))).
  rewrite take_take. replace (n `min` 3)%nat with n by lia.
  assert (total_length (take n chunks) <= 2000)%nat as Hsum'
    by (apply Hsum; unfold max_context_length; lia).
  split_and!; [lia|lia|done|done| | |].
  - intros Hlt. rewrite length_take in Hmax. specialize (Hmax Hlt).
    rewrite take_take in Hmax.
    by replace (S n `min` 3)%nat with (S n) in Hmax by lia.
  - rewrite !length_append.
    pose proof (length_join_le (String newline (String newline ""))
                  (context_lines (take n chunks))) as Hj.
    assert (total_length (context_lines (take n chunks))
            <= total_length (take n chunks) + 11 * n)%nat as Hl.
    { unfold context_lines. rewrite (total_length_imap _ 11).
      - rewrite length_take. lia.
      - intros k s0 Hk. rewrite length_take in Hk.
        apply length_context_line. lia. }
    assert (length (context_lines (take n chunks)) <= 3)%nat as Hc.
    { unfold context_lines. rewrite length_imap, length_take. lia. }
    cbn [String.length] in Hj.
    change (String.length prompt_head) with 85%nat.
    change (String.length prompt_middle) with 12%nat.
    change (String.length prompt_tail) with 209%nat.
    change (imap _ (take n chunks)) with (context_lines (take n chunks)).
    lia.
  - intros Hall. rewrite length_take in Hmax.
    destruct (decide (n < 3 `min` length chunks)%nat) as [Hlt|]; [|lia].
    specialize (Hmax Hlt). rewrite take_take in Hmax.
    replace (S n `min` 3)%nat with (S n) in Hmax by lia.
    assert (total_length (take (S n) chunks) <= 666 * S n)%nat.
    { assert (Forall (fun chunk => (String.length chunk <= 666)%nat)
                (take (S n) chunks)) as Hall'.
      { replace (take (S n) chunks) with (take (S n) (take 3 chunks))
          by (rewrite take_take; f_equal; lia).
        by apply Forall_take. }
      assert (length (take (S n) chunks) <= S n)%nat
        by (rewrite length_take; lia).
      pose proof (total_length_bound 666 _ Hall'). nia. }
    unfold max_context_length in Hmax. lia.
Qed.

Lemma prompt_context_prefix_witness :
  exists n,
    n = 3%nat
    /\ _create_optimized_prompt "Is knee surgery covered?"
         [fill 601 "a"; fill 601 "b"; fill 601 "c"; fill 601 "d"]
       = prompt_head
         +:+ join (String newline (String newline ""))
               (context_lines
                  (take n [fill 601 "a"; fill 601 "b"; fill 601 "c";
                           fill 601 "d"]))
         +:+ prompt_middle +:+ "Is knee surgery covered?" +:+ prompt_tail.
Proof.
  destruct (prompt_context_prefix "Is knee surgery covered?"
              [fill 601 "a"; fill 601 "b"; fill 601 "c"; fill 601 "d"])
    as (n & _ & _ & Hp & _ & _ & _ & Hall).
  exists n. split; [|exact Hp].
  rewrite Hall; [reflexivity|].
  repeat constructor; vm_compute; lia.
Defined.

(** ** The answer returned to the client *)

Lemma after_first_opt_none (sep s : string) :
  contains sep s = false -> after_first_opt sep s = None.
Proof.
  induction s as [|c s IH]; rewrite contains_unfold; cbn [after_first_opt];
    destruct (String.prefix sep _); try done.
Qed.

Lemma clean_answer_unchanged (answer : string) :
  contains "ANSWER:" answer = false ->
  strip answer = answer ->
  (5 <= String.length answer <= 500)%nat ->
  clean_answer answer = answer.
Proof.
  intros Hc Hstrip Hlen. unfold clean_answer.
  set (a1 := if negb (String.eqb answer "") && _ then _ else answer).
  assert (a1 = answer) as ->.
  { subst a1. destruct (_ && _); [|done].
    unfold after_first. by rewrite (after_first_opt_none _ _ Hc). }
  rewrite Hstrip.
  assert (answer <> "") by (intros ->; cbn in Hlen; lia).
  destruct (String.eqb_spec answer ""); [done|]. cbn [orb].
  replace (String.length answer <? 5)%nat with false by lia.
  by replace (500 <? String.length answer)%nat with false by lia.
Qed.

(** X17. The answer [process_pdf_qa] returns for a question is never empty
    and never longer than 503 characters.  The "ANSWER:" prefix is tested
    in any letter case but cut in upper case only: a trimmed answer that
    does not contain "ANSWER:" in capitals, has at least 5 and at most 500
    characters, is returned unchanged, whatever it starts with. *)
Theorem clean_answer_bounds (answer : string) :
  clean_answer answer <> ""
  /\ (String.length (clean_answer answer) <= 503)%nat
  /\ (contains "ANSWER:" answer = false ->
      strip answer = answer ->
      (5 <= String.length answer <= 500)%nat ->
      clean_answer answer = answer).
Proof.
  unfold clean_answer.
  set (a1 := if negb (String.eqb answer "") && _ then _ else answer).
  set (a2 := if String.eqb a1 "" || _ then no_answer else a1).
  assert (a2 <> "") as Hne.
  { subst a2. destruct (String.eqb_spec a1 ""); [done|].
    cbn [orb]. by destruct (_ <? _)%nat. }
  split_and!.
  - destruct (500 <? String.length a2)%nat eqn:E; [|done].
    destruct a2; [done|]. discriminate.
  - destruct (500 <? String.length a2)%nat eqn:E; [|lia].
    rewrite length_append. pose proof (length_str_take 500 a2).
    change (String.length "...") with 3%nat. lia.
  - intros Hc Hstrip Hlen.
    pose proof (clean_answer_unchanged answer Hc Hstrip Hlen) as Hsame.
    unfold clean_answer in Hsame. exact Hsame.
Qed.

Lemma clean_answer_bounds_witness :
  clean_answer "Answer: knee surgery is covered after 90 days"
  = "Answer: knee surgery is covered after 90 days".
Proof.
  apply (proj2 (proj2 (clean_answer_bounds
                         "Answer: knee surgery is covered after 90 days")));
    vm_compute; (reflexivity || lia).
Defined.

(** ** The vector store *)

Lemma range_step_count (n step : nat) :
  (0 < step)%nat ->
  let m := ((n + step - 1) / step)%nat in
  (n <= m * step)%nat /\ ((0 < n)%nat -> (0 < m /\ (m - 1) * step < n)%nat)
  /\ (n = 0%nat -> m = 0%nat).
Proof.
  intros Hs. cbn zeta.
  pose proof (Nat.div_mod (n + step - 1) step ltac:(lia)) as Hdm.
  pose proof (Nat.mod_upper_bound (n + step - 1) step ltac:(lia)) as Hmod.
  set (m := ((n + step - 1) / step)%nat) in *.
  set (r := ((n + step - 1) mod step)%nat) in *.
  split_and!.
  - nia.
  - intros Hn. assert (0 < m)%nat by (destruct m; [nia|lia]). split; [done|].
    nia.
  - intros ->. destruct m; [done|]. nia.
Qed.

Lemma concat_batches_upto {A} (size : nat) (l : list A) (m : nat) :
  concat (map (fun k => take size (drop (k * size) l)) (List.seq 0 m))
  = take (m * size) l.
Proof.
  induction m as [|m IH]; [done|].
  rewrite seq_S, map_app, concat_app, IH. cbn [map concat].
  rewrite app_nil_r, take_take_drop. f_equal. lia.
Qed.

Lemma batches_map {A} (size : nat) (l : list A) :
  batches size l
  = map (fun k => take size (drop (k * size) l))
      (List.seq 0 ((length l + size - 1) / size)).
Proof. unfold batches, range_step. by rewrite map_map. Qed.

(** The batches partition the list, in order. *)
Lemma concat_batches {A} (size : nat) (l : list A) :
  (0 < size)%nat -> concat (batches size l) = l.
Proof.
  intros Hs. rewrite batches_map, concat_batches_upto.
  apply take_ge. by apply (range_step_count (length l) size Hs).
Qed.

Lemma batches_sizes {A} (size : nat) (l : list A) :
  (0 < size)%nat ->
  Forall (fun batch => (0 < length batch <= size)%nat) (batches size l).
Proof.
  intros Hs. rewrite batches_map. apply Forall_map, Forall_forall.
  intros k Hk. apply elem_of_seq in Hk. cbn.
  rewrite length_take, length_drop.
  destruct (range_step_count (length l) size Hs) as (_ & Hpos & _).
  destruct (decide (length l = 0)%nat) as [H0|Hn0].
  - rewrite H0 in Hk. rewrite Nat.div_small in Hk by lia. lia.
  - destruct (Hpos ltac:(lia)) as [Hm Hlast]. nia.
Qed.

Lemma length_batches {A} (size : nat) (l : list A) :
  length (batches size l) = ((length l + size - 1) / size)%nat.
Proof. by rewrite batches_map, length_map, length_seq. Qed.

Lemma append_inj_length (a a' b b' : string) :
  String.length a = String.length a' ->
  a +:+ b = a' +:+ b' -> a = a' /\ b = b'.
Proof.
  revert a'. induction a as [|x a IH]; intros [|x' a'] Hlen Heq;
    try discriminate Hlen.
  - done.
  - rewrite !append_cons in Heq. injection Heq as -> Heq.
    injection Hlen as Hlen. destruct (IH a' Hlen Heq) as [-> ->]. done.
Qed.

Lemma create_chunk_id_inj (doc_id doc_id' : string) (i j : nat) :
  String.length doc_id = String.length doc_id' ->
  _create_chunk_id doc_id i = _create_chunk_id doc_id' j ->
  doc_id = doc_id' /\ i = j.
Proof.
  unfold _create_chunk_id. intros Hlen Heq.
  apply append_inj_length in Heq as [-> Heq]; [|done].
  split; [done|].
  apply append_inj_length in Heq as [_ Heq]; [|done].
  by apply (inj pretty) in Heq.
Qed.

(** X18. Chunk ids are unique: for document ids of the same length (the
    document id is always the first 12 characters of an MD5 hex digest),
    two chunk ids are equal only if the document ids and the chunk indexes
    are; in particular the ids given to the chunks of one document are
    pairwise different. *)
Theorem chunk_ids_unique (doc_id doc_id' : string) (i j : nat) :
  String.length doc_id = String.length doc_id' ->
  _create_chunk_id doc_id i = _create_chunk_id doc_id' j ->
  doc_id = doc_id' /\ i = j.
Proof. apply create_chunk_id_inj. Qed.

Lemma chunk_ids_unique_witness :
  "0123456789ab" = "0123456789ab" /\ 7%nat = 7%nat.
Proof.
  apply (chunk_ids_unique "0123456789ab" "0123456789ab" 7 7); reflexivity.
Defined.

Section VectorStoreProperties.
Variable embedding : Type.
Variable encode : list string -> list embedding.
Variable md5_hexdigest : string -> string.
(** The model returns one embedding for each text of a batch. *)
Hypothesis encode_length : forall texts, length (encode texts) = length texts.

Lemma length_generate_embeddings (texts : list string) :
  length (_generate_embeddings embedding encode texts) = length texts.
Proof.
  unfold _generate_embeddings. destruct texts as [|t texts]; [done|].
  set (l := t :: texts).
  rewrite <- (concat_batches 8 l) at 2 by lia.
  generalize (batches 8 l). intros bs.
  induction bs as [|b bs IH]; [done|].
  cbn [map concat]. rewrite !length_app, encode_length, IH. done.
Qed.

Lemma length_document_vectors (doc_id doc_title : string)
    (chunks : list string) :
  length (document_vectors embedding doc_id doc_title chunks
            (_generate_embeddings embedding encode chunks))
  = length chunks.
Proof.
  unfold document_vectors.
  rewrite length_imap, length_zip, length_generate_embeddings. lia.
Qed.

Lemma document_vectors_lookup (doc_id doc_title : string)
    (chunks : list string) (i : nat) (chunk : string) :
  chunks !! i = Some chunk ->
  exists v,
    document_vectors embedding doc_id doc_title chunks
      (_generate_embeddings embedding encode chunks) !! i = Some v
    /\ v_id embedding v = _create_chunk_id doc_id i
    /\ v_doc_id embedding v = doc_id
    /\ v_chunk_index embedding v = i
    /\ v_text embedding v = str_take 1000 chunk
    /\ v_chunk_length embedding v = String.length chunk.
Proof.
  intros Hi. unfold document_vectors.
  assert (is_Some (_generate_embeddings embedding encode chunks !! i))
    as [emb Hemb].
  { apply lookup_lt_is_Some. rewrite length_generate_embeddings.
    by eapply lookup_lt_Some. }
  eexists. rewrite list_lookup_imap.
  erewrite (proj2 (lookup_zip_with_Some _ _ _ _ _)); [|by eexists _, _].
  cbn. split_and!; reflexivity.
Qed.

(** X19. Provided the embedding model returns one embedding per text,
    [store_document_chunks_optimized] upserts exactly one vector for every
    chunk, in document order and in batches of 1 to 25 vectors appended to
    the earlier upserts; the vector of chunk i has the id
    "<doc_id>_chunk_<i>", the first 1000 characters of the chunk as its
    text and the full length of the chunk, and the ids are pairwise
    different. *)
Theorem store_upserts_every_chunk (chunks : list string)
    (doc_title : string) (upserted : list (list (vector embedding))) :
  let doc_id := str_take 12 (md5_hexdigest doc_title) in
  exists new,
    store_document_chunks_optimized embedding encode md5_hexdigest chunks
      doc_title upserted
    = (doc_id, upserted ++ new)
    /\ Forall (fun batch => (0 < length batch <= 25)%nat) new
    /\ length (concat new) = length chunks
    /\ (forall i chunk,
          chunks !! i = Some chunk ->
          exists v,
            concat new !! i = Some v
            /\ v_id embedding v = _create_chunk_id doc_id i
            /\ v_chunk_index embedding v = i
            /\ v_text embedding v = str_take 1000 chunk
            /\ v_chunk_length embedding v = String.length chunk)
    /\ NoDup (map (v_id embedding) (concat new)).
Proof.
  cbn zeta. unfold store_document_chunks_optimized.
  set (doc_id := str_take 12 (md5_hexdigest doc_title)).
  set (vectors := document_vectors embedding doc_id doc_title chunks _).
  exists (batches 25 vectors).
  rewrite concat_batches by lia.
  split_and!.
  - done.
  - apply batches_sizes. lia.
  - apply length_document_vectors.
  - intros i chunk Hi.
    destruct (document_vectors_lookup doc_id doc_title chunks i chunk Hi)
      as (v & Hv & Hid & _ & Hidx & Htext & Hlen).
    by exists v.
  - apply NoDup_alt. intros i j id Hi Hj.
    change (map ?f ?l) with (f <$> l) in Hi, Hj.
    apply list_lookup_fmap_Some in Hi as (vi & -> & Hvi).
    apply list_lookup_fmap_Some in Hj as (vj & Heq & Hvj).
    assert (i < length chunks)%nat as Hil.
    { rewrite <- (length_document_vectors doc_id doc_title).
      by eapply lookup_lt_Some. }
    assert (j < length chunks)%nat as Hjl.
    { rewrite <- (length_document_vectors doc_id doc_title).
      by eapply lookup_lt_Some. }
    apply lookup_lt_is_Some in Hil as [ci Hci].
    apply lookup_lt_is_Some in Hjl as [cj Hcj].
    destruct (document_vectors_lookup doc_id doc_title chunks i ci Hci)
      as (vi' & Hvi' & Hidi & _).
    destruct (document_vectors_lookup doc_id doc_title chunks j cj Hcj)
      as (vj' & Hvj' & Hidj & _).
    fold vectors in Hvi', Hvj'.
    assert (vi' = vi) as -> by congruence.
    assert (vj' = vj) as -> by congruence.
    rewrite Hidi, Hidj in Heq.
    by apply create_chunk_id_inj in Heq as [_ ?].
Qed.
End VectorStoreProperties.

Lemma store_upserts_every_chunk_witness :
  exists new,
    store_document_chunks_optimized nat (map String.length) (fun s => s)
      ["Knee surgery is covered."; "Waiting period is 90 days."]
      "Policy wording" []
    = ("Policy wordi", new)
    /\ length (concat new) = 2%nat.
Proof.
  destruct (store_upserts_every_chunk nat (map String.length) (fun s => s)
              (fun texts => length_map String.length texts)
              ["Knee surgery is covered."; "Waiting period is 90 days."]
              "Policy wording" [])
    as (new & Hstore & _ & Hlen & _).
  exists new. split; [exact Hstore | exact Hlen].
Defined.

(** ** The reply of the language model *)

Lemma prefix_app (sep x y : string) :
  String.prefix sep x = true -> String.prefix sep (x +:+ y) = true.
Proof.
  rewrite !prefix_spec. intros [post ->]. exists (post +:+ y).
  by rewrite append_assoc.
Qed.

(** A character that does not occur in [sep] is a barrier: no occurrence
    of [sep] runs across it. *)
Lemma prefix_barrier (sep x y : string) (c : ascii) :
  contains (String c "") sep = false ->
  String.prefix sep (x +:+ String c y) = true ->
  String.prefix sep x = true.
Proof.
  revert x. induction sep as [|d sep IH]; intros x Hc Hp.
  - by destruct x.
  - rewrite contains_unfold in Hc. cbn [String.prefix] in Hc.
    destruct (ascii_dec c d) as [->|Hcd].
    { by destruct sep. }
    destruct x as [|e x].
    + rewrite append_nil_l in Hp. cbn [String.prefix] in Hp.
      destruct (ascii_dec d c); [congruence|done].
    + rewrite append_cons in Hp. cbn [String.prefix] in Hp |- *.
      destruct (ascii_dec d e); [|done]. by apply IH.
Qed.

Lemma prefix_barrier_eq (sep x y : string) (c : ascii) :
  contains (String c "") sep = false ->
  String.prefix sep (x +:+ String c y) = String.prefix sep x.
Proof.
  intros Hc.
  destruct (String.prefix sep x) eqn:Ex.
  - by apply prefix_app.
  - destruct (String.prefix sep (x +:+ String c y)) eqn:Exy; [|done].
    apply prefix_barrier in Exy; [congruence|done].
Qed.

Lemma contains_barrier (sep x y : string) (c : ascii) :
  contains (String c "") sep = false ->
  sep <> "" ->
  contains sep (x +:+ String c y) = contains sep x || contains sep y.
Proof.
  intros Hc Hne. induction x as [|e x IH].
  - rewrite append_nil_l, (contains_unfold sep (String c y)).
    rewrite <- (append_nil_l (String c y)), prefix_barrier_eq by done.
    destruct sep; [done|]. done.
  - rewrite (contains_unfold sep (String e x +:+ _)), prefix_barrier_eq
      by done.
    rewrite (contains_unfold sep (String e x)), append_cons.
    destruct (String.prefix sep (String e x)); [done|]. exact IH.
Qed.

Lemma find_first_none (sep s : string) :
  contains sep s = false -> find_first sep s = None.
Proof.
  induction s as [|c s IH]; rewrite contains_unfold; cbn [find_first];
    destruct (String.prefix sep _); try done.
  intros H. by rewrite IH.
Qed.

Lemma find_first_barrier (sep x y : string) (c : ascii) :
  contains (String c "") sep = false ->
  sep <> "" ->
  contains sep x = false ->
  find_first sep (x +:+ String c y)
  = match find_first sep y with
    | Some (before, after) => Some (x +:+ String c before, after)
    | None => None
    end.
Proof.
  intros Hc Hne. induction x as [|e x IH]; intros Hx.
  - rewrite !append_nil_l. cbn [find_first].
    rewrite <- (append_nil_l (String c y)), prefix_barrier_eq by done.
    destruct sep; [done|]. cbn [String.prefix].
    by destruct (find_first _ y) as [[? ?]|].
  - rewrite contains_unfold in Hx.
    destruct (String.prefix sep (String e x)) eqn:Ep; [done|].
    rewrite append_cons. cbn [find_first].
    rewrite <- append_cons, prefix_barrier_eq, Ep by done.
    rewrite (IH Hx).
    destruct (find_first sep y) as [[? ?]|]; by rewrite ?append_cons.
Qed.

Lemma rstrip_app (x y : string) :
  rstrip (x +:+ y)
  = match rstrip y with
    | EmptyString => rstrip x
    | _ => x +:+ rstrip y
    end.
Proof.
  induction x as [|c x IH].
  - rewrite append_nil_l. by destruct (rstrip y).
  - rewrite append_cons. cbn [rstrip]. rewrite IH.
    destruct (rstrip y) as [|d r]; [done|].
    rewrite append_cons. by destruct x.
Qed.

Lemma strip_fixed (s : string) :
  strip s = s -> lstrip s = s /\ rstrip s = s.
Proof.
  unfold strip. intros Hs.
  destruct (lstrip_suffix s) as [pre Hpre].
  destruct (rstrip_prefix (lstrip s)) as [post Hpost].
  rewrite Hs in Hpost.
  assert (pre = "") as ->.
  { apply (f_equal String.length) in Hpre, Hpost.
    rewrite length_append in Hpre, Hpost. rewrite Hpost in Hpre.
    destruct pre; [done|]. cbn in Hpre. lia. }
  rewrite append_nil_l in Hpre. rewrite <- Hpre in Hs. by rewrite <- Hpre.
Qed.

Lemma lstrip_fixed_app (s y : string) :
  s <> "" -> lstrip s = s -> lstrip (s +:+ y) = s +:+ y.
Proof.
  destruct s as [|c s]; [done|]. intros _ Hs. rewrite append_cons.
  cbn [lstrip] in Hs |- *. destruct (is_space c); [|done].
  destruct (lstrip_suffix s) as [pre Hpre]. rewrite Hs in Hpre.
  apply (f_equal String.length) in Hpre. rewrite length_append in Hpre.
  cbn in Hpre. lia.
Qed.

(** A stripped text between one blank on the left and blanks on the right
    is recovered by [strip]. *)
Lemma strip_padded (s post : string) :
  strip s = s -> rstrip post = "" ->
  strip (String " " (s +:+ post)) = s.
Proof.
  intros Hs Hpost. destruct (strip_fixed s Hs) as [Hl Hr].
  unfold strip. change (lstrip (String " " (s +:+ post)))
    with (lstrip (s +:+ post)).
  destruct (String.eqb_spec s "") as [->|Hne].
  - rewrite append_nil_l.
    destruct (lstrip_suffix post) as [pre Hpre].
    pose proof (rstrip_app pre (lstrip post)) as Happ.
    rewrite <- Hpre, Hpost in Happ.
    destruct (rstrip (lstrip post)); [done|]. by destruct pre.
  - rewrite (lstrip_fixed_app s post Hne Hl), rstrip_app, Hpost. exact Hr.
Qed.

Lemma contains_prefix_false (sep x y : string) :
  contains sep (x +:+ y) = false -> contains sep x = false.
Proof.
  intros H. destruct (contains sep x) eqn:E; [|done].
  apply contains_spec in E as (pre & post & ->).
  rewrite <- H. symmetry. apply contains_spec.
  exists pre, (post +:+ y). by rewrite !append_assoc.
Qed.

Lemma str_drop_append (x y : string) :
  str_drop (String.length x) (x +:+ y) = y.
Proof.
  induction x as [|c x IH]; [by rewrite append_nil_l|].
  by rewrite append_cons.
Qed.

Lemma prefix_here (sep y : string) : String.prefix sep (sep +:+ y) = true.
Proof. apply prefix_spec. by exists y. Qed.

Lemma find_first_here (sep y : string) :
  find_first sep (sep +:+ y) = Some ("", y).
Proof.
  destruct (sep +:+ y) eqn:E; cbn [find_first]; rewrite <- E;
    by rewrite prefix_here, str_drop_append.
Qed.

Lemma contains_here (sep y : string) : contains sep (sep +:+ y) = true.
Proof. by rewrite contains_unfold, prefix_here. Qed.

(** The parsing of a content of the shape
    "ANSWER: <a>\nREASONING:<y>". *)
Lemma parse_content (a y : string) :
  let content :=
    "ANSWER:" +:+ String " " (a +:+ String newline ("REASONING:" +:+ y)) in
  contains "ANSWER:" a = false ->
  contains "REASONING:" a = false ->
  contains "REASONING:" y = false ->
  strip a = a ->
  strip content = content ->
  parse_reply content = (a, strip y).
Proof.
  cbn zeta. intros Ha Hra Hry Hsa Hsc. unfold parse_reply. rewrite Hsc.
  set (content := "ANSWER:" +:+ _).
  assert (find_first "REASONING:" content
          = Some ("ANSWER:" +:+ String " " (a +:+ String newline ""), y))
    as Hfind.
  { subst content.
    rewrite (find_first_barrier "REASONING:" "ANSWER:") by done.
    rewrite (find_first_barrier "REASONING:" a) by done.
    by rewrite find_first_here. }
  assert (contains "ANSWER:" content = true) as ->
    by apply contains_here.
  assert (contains "REASONING:" content = true) as ->.
  { subst content.
    rewrite (contains_barrier "REASONING:" "ANSWER:") by done.
    rewrite (contains_barrier "REASONING:" a) by done.
    by rewrite Hra, contains_here. }
  cbn [andb]. unfold str_split.
  assert (exists n, String.length content = S (S n)) as [n ->].
  { subst content. by eexists. }
  cbn [split_fuel]. rewrite Hfind, (find_first_none _ _ Hry).
  cbn [nth]. f_equal.
  unfold str_replace.
  assert (exists m,
            String.length ("ANSWER:" +:+ String " " (a +:+ String newline ""))
            = S m) as [m ->] by by eexists.
  cbn [replace_fuel].
  rewrite find_first_here.
  assert (replace_fuel m "ANSWER:" "" (String " " (a +:+ String newline ""))
          = String " " (a +:+ String newline "")) as ->.
  { assert (find_first "ANSWER:" (String " " (a +:+ String newline ""))
            = None) as Hnone.
    { apply find_first_none.
      rewrite <- (append_nil_l (String " " _)).
      rewrite (contains_barrier "ANSWER:" "") by done.
      rewrite (contains_barrier "ANSWER:" a) by done.
      by rewrite Ha. }
    destruct m; [done|]. cbn [replace_fuel]. by rewrite Hnone. }
  rewrite !append_nil_l. by apply strip_padded.
Qed.

Lemma find_first_length (sep s before after : string) :
  find_first sep s = Some (before, after) ->
  String.length s
  = (String.length before + String.length sep + String.length after)%nat.
Proof.
  revert before. induction s as [|c s IH]; intros before; cbn [find_first].
  - destruct (String.prefix sep "") eqn:E; [|done].
    apply prefix_spec in E as [post E]. intros [= <- <-].
    pose proof (f_equal String.length E) as HL.
    rewrite length_append in HL.
    replace (str_drop (String.length sep) "") with post
      by (rewrite E; symmetry; apply str_drop_append).
    cbn [String.length] in *. lia.
  - destruct (String.prefix sep (String c s)) eqn:E.
    + apply prefix_spec in E as [post E]. intros [= <- <-].
      pose proof (f_equal String.length E) as HL.
      rewrite length_append in HL.
      replace (str_drop (String.length sep) (String c s)) with post
        by (rewrite E; symmetry; apply str_drop_append).
      cbn [String.length] in *. lia.
    + destruct (find_first sep s) as [[b a]|]; [|done].
      intros [= <- <-]. cbn [String.length]. rewrite (IH b eq_refl). lia.
Qed.

Lemma find_first_empty (sep : string) :
  sep <> "" -> find_first sep "" = None.
Proof. by destruct sep. Qed.

(** The fuel of [str_split] and [str_replace] never runs out. *)
Lemma split_fuel_enough (sep s : string) (fuel fuel' : nat) :
  sep <> "" ->
  (String.length s <= fuel)%nat -> (String.length s <= fuel')%nat ->
  split_fuel fuel sep s = split_fuel fuel' sep s.
Proof.
  intros Hne. revert fuel' s.
  assert (forall fuel s, String.length s = 0%nat ->
                         split_fuel fuel sep s = [s]) as Hempty.
  { intros [|f] [|c s] Hs; try done. cbn [split_fuel].
    by rewrite find_first_empty. }
  induction fuel as [|fuel IH]; intros fuel' s Hf Hf'.
  - rewrite (Hempty fuel') by lia. by rewrite (Hempty 0%nat) by lia.
  - destruct fuel' as [|fuel'].
    { rewrite (Hempty (S fuel)) by lia. by rewrite (Hempty 0%nat) by lia. }
    cbn [split_fuel].
    destruct (find_first sep s) as [[b a]|] eqn:E; [|done].
    apply find_first_length in E.
    assert (0 < String.length sep)%nat by (destruct sep; [done|cbn; lia]).
    f_equal. apply IH; lia.
Qed.

Lemma replace_fuel_enough (old new s : string) (fuel fuel' : nat) :
  old <> "" ->
  (String.length s <= fuel)%nat -> (String.length s <= fuel')%nat ->
  replace_fuel fuel old new s = replace_fuel fuel' old new s.
Proof.
  intros Hne. revert fuel' s.
  assert (forall fuel s, String.length s = 0%nat ->
                         replace_fuel fuel old new s = s) as Hempty.
  { intros [|f] [|c s] Hs; try done. cbn [replace_fuel].
    by rewrite find_first_empty. }
  induction fuel as [|fuel IH]; intros fuel' s Hf Hf'.
  - rewrite (Hempty fuel') by lia. by rewrite (Hempty 0%nat) by lia.
  - destruct fuel' as [|fuel'].
    { rewrite (Hempty (S fuel)) by lia. by rewrite (Hempty 0%nat) by lia. }
    cbn [replace_fuel].
    destruct (find_first old s) as [[b a]|] eqn:E; [|done].
    apply find_first_length in E.
    assert (0 < String.length old)%nat by (destruct old; [done|cbn; lia]).
    do 2 f_equal. apply IH; lia.
Qed.

Ltac str_norm :=
  repeat (rewrite append_assoc || rewrite append_cons
          || rewrite append_nil_l).

Lemma parse_reply_strip (raw raw' : string) :
  strip raw = strip raw' -> parse_reply raw = parse_reply raw'.
Proof. unfold parse_reply. by intros ->. Qed.

(** [strip] removes from the requested format at most the blank that
    precedes an empty reasoning. *)
Lemma strip_reply_format (a r : string) :
  strip r = r ->
  exists y,
    strip y = r
    /\ contains "REASONING:" y = contains "REASONING:" r
    /\ let content :=
         "ANSWER:" +:+
         String " " (a +:+ String newline ("REASONING:" +:+ y)) in
       strip (reply_format a r) = content /\ strip content = content.
Proof.
  intros Hsr. destruct (strip_fixed r Hsr) as [Hlr Hrr].
  set (P := "ANSWER: " +:+ a +:+ String newline "REASONING:").
  assert (rstrip P = P) as HP.
  { subst P.
    replace ("ANSWER: " +:+ a +:+ String newline "REASONING:")
      with (("ANSWER: " +:+ a +:+ String newline "REASONING") +:+ ":")
      by (str_norm; reflexivity).
    by rewrite rstrip_app. }
  assert (forall y, rstrip y = y -> strip (P +:+ y) = P +:+ y) as Hfix.
  { intros y Hy. unfold strip.
    assert (lstrip (P +:+ y) = P +:+ y) as -> by reflexivity.
    rewrite rstrip_app, Hy. destruct y; [|done].
    by rewrite HP, append_nil_r. }
  assert (forall y,
            P +:+ y
            = "ANSWER:" +:+
              String " " (a +:+ String newline ("REASONING:" +:+ y)))
    as Hshape.
  { intros y. subst P. str_norm. reflexivity. }
  assert (reply_format a r = P +:+ String " " r) as Hraw.
  { unfold reply_format. subst P. str_norm. reflexivity. }
  destruct r as [|c r].
  - exists "". split_and!; [done|done|]. cbn zeta.
    rewrite <- Hshape. split; [|by apply Hfix].
    rewrite Hraw. unfold strip.
    assert (lstrip (P +:+ String " " "") = P +:+ String " " "") as ->
      by reflexivity.
    rewrite rstrip_app. cbn [rstrip is_space]. 
    by rewrite HP, append_nil_r.
  - assert (rstrip (String " " (String c r)) = String " " (String c r))
      as Hy.
    { change (String " " (String c r)) with (String " " "" +:+ String c r).
      by rewrite rstrip_app, Hrr. }
    exists (String " " (String c r)). split_and!.
    + unfold strip.
      change (lstrip (String " " (String c r))) with (lstrip (String c r)).
      by rewrite Hlr.
    + rewrite <- (append_nil_l (String " " (String c r))).
      by rewrite (contains_barrier "REASONING:" "").
    + cbn zeta. rewrite <- Hshape, Hraw. split; by apply Hfix.
Qed.

(** X20. A reply in the format the prompt asks for is parsed back into its
    two parts: for a trimmed answer that contains neither "ANSWER:" nor
    "REASONING:" and a trimmed reasoning that does not contain
    "REASONING:", [generate_answer_optimized] returns exactly that answer
    and that reasoning; and when the answer has 5 to 500 characters,
    [process_pdf_qa] returns it to the client unchanged. *)
Theorem reply_round_trip (a r : string) :
  contains "ANSWER:" a = false ->
  contains "REASONING:" a = false ->
  contains "REASONING:" r = false ->
  strip a = a ->
  strip r = r ->
  parse_reply (reply_format a r) = (a, r)
  /\ ((5 <= String.length a <= 500)%nat ->
      clean_answer (fst (parse_reply (reply_format a r))) = a).
Proof.
  intros Ha Hra Hrr Hsa Hsr.
  assert (parse_reply (reply_format a r) = (a, r)) as Hparse.
  { destruct (strip_reply_format a r Hsr) as (y & Hy & Hcy & Hraw & Hfix).
    rewrite Hrr in Hcy.
    rewrite (parse_reply_strip _ _ (eq_trans Hraw (eq_sym Hfix))).
    rewrite <- Hy. by apply parse_content. }
  split; [exact Hparse|].
  intros Hlen. rewrite Hparse. cbn [fst].
  by apply clean_answer_unchanged.
Qed.

Lemma reply_round_trip_witness :
  parse_reply
    (reply_format "Knee surgery is covered after 90 days."
       "Clause 4.2 sets the waiting period.")
  = ("Knee surgery is covered after 90 days.",
     "Clause 4.2 sets the waiting period.").
Proof.
  apply (reply_round_trip "Knee surgery is covered after 90 days."
           "Clause 4.2 sets the waiting period."); reflexivity.
Defined.
(** ** The text of a PDF *)

Lemma rmatch_spaces (s : string) (g : groups) :
  rmatch (RStar space) s g (fun rest _ => Some rest) = Some (lstrip s).
Proof.
  cbn [rmatch].
  assert (String.length s <= String.length s)%nat as Hle by lia.
  revert Hle. generalize (String.length s) at 2 3. intros fuel.
  revert s g. induction fuel as [|fuel IH]; intros s g Hle.
  - destruct s; [done|cbn in Hle; lia].
  - destruct s as [|c s]; [done|]. unfold space at 1. cbn [rmatch lstrip].
    destruct (is_space c); [|done].
    cbn [String.length]. replace (String.length s <? S (String.length s))%nat
      with true by lia.
    rewrite IH by (cbn in Hle; lia). done.
Qed.

Lemma rmatch_plus_space (c : ascii) (s : string) :
  rmatch (plus space) (String c s) [] (fun rest _ => Some rest)
  = if is_space c then Some (lstrip s) else None.
Proof.
  unfold plus. cbn [rmatch]. unfold space at 1. cbn [rmatch].
  destruct (is_space c); [|done]. apply rmatch_spaces.
Qed.

Lemma lstrip_head (s : string) :
  match lstrip s with
  | String c _ => is_space c = false
  | EmptyString => True
  end.
Proof.
  induction s as [|c s IH]; [done|]. cbn [lstrip].
  by destruct (is_space c) eqn:E.
Qed.

Lemma re_sub_spaces_step (fuel : nat) (c : ascii) (s : string) :
  re_sub_from (S fuel) (plus space) " " (String c s)
  = if is_space c
    then String " " (re_sub_from fuel (plus space) " " (lstrip s))
    else String c (re_sub_from fuel (plus space) " " s).
Proof.
  cbn [re_sub_from]. rewrite rmatch_plus_space.
  destruct (is_space c); [|done].
  pose proof (length_lstrip s). cbn [String.length].
  by replace (String.length (lstrip s) <? S (String.length s))%nat
    with true by lia.
Qed.

Lemma re_sub_spaces_head (fuel : nat) (s : string) :
  match s with
  | String c _ =>
      is_space c = false ->
      exists t, re_sub_from fuel (plus space) " " s = String c t
  | EmptyString => re_sub_from fuel (plus space) " " s = ""
  end.
Proof.
  destruct s as [|c s]; [by destruct fuel|]. intros Hc.
  destruct fuel as [|fuel]; [by eexists|].
  rewrite re_sub_spaces_step, Hc. by eexists.
Qed.

Lemma re_sub_spaces_clean (fuel : nat) (s : string) :
  (String.length s <= fuel)%nat ->
  blanks_only (re_sub_from fuel (plus space) " " s) = true
  /\ no_pair is_space is_space (re_sub_from fuel (plus space) " " s) = true.
Proof.
  revert s. induction fuel as [|fuel IH]; intros s Hle.
  - destruct s; [done|cbn in Hle; lia].
  - destruct s as [|c s]; [done|]. rewrite re_sub_spaces_step.
    cbn [String.length] in Hle.
    destruct (is_space c) eqn:Ec.
    + pose proof (length_lstrip s).
      destruct (IH (lstrip s)) as [Hb Hn]; [lia|].
      pose proof (lstrip_head s) as Hh.
      pose proof (re_sub_spaces_head fuel (lstrip s)) as Hhead.
      destruct (lstrip s) as [|d s'].
      * rewrite Hhead. done.
      * destruct (Hhead Hh) as [t Ht]. rewrite Ht in Hb, Hn |- *.
        change (blanks_only (String " " (String d t)))
          with (blanks_only (String d t)).
        change (no_pair is_space is_space (String " " (String d t)))
          with (negb (is_space d)
                && no_pair is_space is_space (String d t)).
        by rewrite Hb, Hn, Hh.
    + destruct (IH s) as [Hb Hn]; [lia|].
      cbn [blanks_only no_pair]. by rewrite Ec, Hb, Hn.
Qed.

(** A pattern that starts with a newline finds nothing in a text without
    newlines. *)
Lemma re_sub_no_newline (fuel : nat) (rs : list regex) (repl s : string) :
  contains (String newline "") s = false ->
  re_sub_from fuel (seq (chr newline :: rs)) repl s = s.
Proof.
  revert fuel. induction s as [|c s IH]; intros fuel Hs; [by destruct fuel|].
  destruct fuel as [|fuel]; [done|].
  rewrite contains_unfold in Hs. cbn [String.prefix] in Hs.
  destruct (ascii_dec newline c) as [->|Hc].
  { by destruct s. }
  cbn [re_sub_from seq fold_right rmatch]. unfold chr at 1. cbn [rmatch].
  destruct (Ascii.eqb_spec newline c); [done|]. by rewrite IH.
Qed.

Lemma blanks_only_no_newline (s : string) :
  blanks_only s = true -> contains (String newline "") s = false.
Proof.
  induction s as [|c s IH]; [done|]. cbn [blanks_only].
  intros [Hc Hs]%andb_true_iff. rewrite contains_unfold.
  cbn [String.prefix]. destruct (ascii_dec newline c) as [<-|_]; [done|].
  by apply IH.
Qed.

Lemma consumed_one (c : ascii) (s : string) :
  consumed (String c s) s = String c "".
Proof. apply (consumed_append (String c "") s). Qed.

Section TwoChars.
Variables p q : ascii -> bool.

Lemma two_chars_match (s : string) :
  rmatch (two_chars p q) s [] (fun rest g => Some (rest, g))
  = match s with
    | String c (String d rest) =>
        if p c && q d
        then Some (rest, [(2%nat, String d ""); (1%nat, String c "")])
        else None
    | _ => None
    end.
Proof.
  unfold two_chars. cbn [seq fold_right rmatch].
  destruct s as [|c [|d rest]]; [done|by destruct (p c)|].
  destruct (p c); [|done]. destruct (q d); [|done].
  cbn [andb]. by rewrite !consumed_one.
Qed.

Lemma re_sub_two_chars_nil (fuel : nat) :
  re_sub_groups_from fuel (two_chars p q) spaced_groups "" = "".
Proof. by destruct fuel. Qed.

Lemma re_sub_two_chars_step (fuel : nat) (c d : ascii) (rest : string) :
  re_sub_groups_from (S fuel) (two_chars p q) spaced_groups
    (String c (String d rest))
  = if p c && q d
    then String c (String " " (String d
           (re_sub_groups_from fuel (two_chars p q) spaced_groups rest)))
    else String c (re_sub_groups_from fuel (two_chars p q) spaced_groups
                     (String d rest)).
Proof.
  cbn [re_sub_groups_from]. rewrite two_chars_match.
  destruct (p c && q d); [|done].
  cbn [String.length].
  replace (String.length rest <? S (S (String.length rest)))%nat
    with true by lia.
  done.
Qed.

Lemma re_sub_two_chars_one (fuel : nat) (c : ascii) :
  re_sub_groups_from fuel (two_chars p q) spaced_groups (String c "")
  = String c "".
Proof.
  destruct fuel as [|fuel]; [done|].
  cbn [re_sub_groups_from]. rewrite two_chars_match.
  by rewrite re_sub_two_chars_nil.
Qed.

(** The substitution keeps the first character. *)
Lemma re_sub_two_chars_head (fuel : nat) (c : ascii) (s : string) :
  exists t,
    re_sub_groups_from fuel (two_chars p q) spaced_groups (String c s)
    = String c t.
Proof.
  destruct fuel as [|fuel]; [by eexists|].
  destruct s as [|d rest]; [rewrite re_sub_two_chars_one; by eexists|].
  rewrite re_sub_two_chars_step. destruct (p c && q d); by eexists.
Qed.

Hypothesis p_not_space : forall c, p c = true -> is_space c = false.
Hypothesis q_not_space : forall c, q c = true -> is_space c = false.

Lemma re_sub_two_chars_blanks (fuel : nat) (s : string) :
  blanks_only s = true ->
  blanks_only (re_sub_groups_from fuel (two_chars p q) spaced_groups s)
  = true.
Proof.
  revert s. induction fuel as [|fuel IH]; intros s Hs; [done|].
  destruct s as [|c [|d rest]];
    [done|by rewrite re_sub_two_chars_one|].
  rewrite re_sub_two_chars_step.
  cbn [blanks_only] in Hs.
  apply andb_true_iff in Hs as [Hc Hs].
  destruct (p c && q d).
  - apply andb_true_iff in Hs as [Hd Hs].
    cbn [blanks_only]. rewrite Hc, Hd, (IH rest Hs). done.
  - cbn [blanks_only]. rewrite Hc. by apply IH.
Qed.

Lemma re_sub_two_chars_spaces (fuel : nat) (s : string) :
  no_pair is_space is_space s = true ->
  no_pair is_space is_space
    (re_sub_groups_from fuel (two_chars p q) spaced_groups s) = true.
Proof.
  revert s. induction fuel as [|fuel IH]; intros s Hs; [done|].
  destruct s as [|c [|d rest]];
    [done|by rewrite re_sub_two_chars_one|].
  rewrite re_sub_two_chars_step.
  destruct (p c && q d) eqn:Epq.
  - apply andb_true_iff in Epq as [Epc Eqd].
    apply p_not_space in Epc. apply q_not_space in Eqd.
    assert (no_pair is_space is_space rest = true) as Hrest.
    { cbn [no_pair] in Hs. by repeat apply andb_true_iff in Hs as [_ Hs]. }
    specialize (IH rest Hrest).
    cbn [no_pair]. rewrite Epc, Eqd. cbn [negb andb].
    destruct rest as [|e rest]; [by rewrite re_sub_two_chars_nil|].
    destruct (re_sub_two_chars_head fuel e rest) as [t Ht].
    rewrite Ht in IH |- *. by rewrite IH.
  - assert (no_pair is_space is_space (String d rest) = true) as Hrest.
    { cbn [no_pair] in Hs. by apply andb_true_iff in Hs as [_ Hs]. }
    specialize (IH _ Hrest).
    destruct (re_sub_two_chars_head fuel d rest) as [t Ht].
    rewrite Ht in IH |- *.
    cbn [no_pair] in Hs |- *. apply andb_true_iff in Hs as [Hcd _].
    rewrite Hcd. exact IH.
Qed.

(** Pairs of other classes are not created, provided a blank belongs to
    neither class. *)
Lemma re_sub_two_chars_keeps (p' q' : ascii -> bool) (fuel : nat)
    (s : string) :
  p' " "%char = false -> q' " "%char = false ->
  no_pair p' q' s = true ->
  no_pair p' q'
    (re_sub_groups_from fuel (two_chars p q) spaced_groups s) = true.
Proof.
  intros Hp' Hq'.
  revert s. induction fuel as [|fuel IH]; intros s Hs; [done|].
  destruct s as [|c [|d rest]];
    [done|by rewrite re_sub_two_chars_one|].
  rewrite re_sub_two_chars_step.
  destruct (p c && q d) eqn:Epq.
  - cbn [no_pair] in Hs.
    apply andb_true_iff in Hs as [_ Hs].
    assert (no_pair p' q' rest = true) as Hrest
      by by apply andb_true_iff in Hs as [_ Hs].
    specialize (IH rest Hrest).
    cbn [no_pair]. rewrite Hp', Hq', andb_false_r. cbn [negb andb].
    destruct rest as [|e rest].
    { rewrite re_sub_two_chars_nil. by rewrite andb_false_r. }
    destruct (re_sub_two_chars_head fuel e rest) as [t Ht].
    rewrite Ht in IH |- *. rewrite IH.
    apply andb_true_iff in Hs as [Hde _]. by rewrite Hde.
  - assert (no_pair p' q' (String d rest) = true) as Hrest.
    { cbn [no_pair] in Hs. by apply andb_true_iff in Hs as [_ Hs]. }
    specialize (IH _ Hrest).
    destruct (re_sub_two_chars_head fuel d rest) as [t Ht].
    rewrite Ht in IH |- *.
    cbn [no_pair] in Hs |- *. apply andb_true_iff in Hs as [Hcd _].
    rewrite Hcd. exact IH.
Qed.

Hypothesis q_not_p : forall c, q c = true -> p c = false.

(** After the substitution no pair of the two classes is left. *)
Lemma re_sub_two_chars_separates (fuel : nat) (s : string) :
  (String.length s <= fuel)%nat ->
  no_pair p q (re_sub_groups_from fuel (two_chars p q) spaced_groups s)
  = true.
Proof.
  assert (p " "%char = false) as Hpb.
  { destruct (p " "%char) eqn:E; [|done]. by apply p_not_space in E. }
  assert (q " "%char = false) as Hqb.
  { destruct (q " "%char) eqn:E; [|done]. by apply q_not_space in E. }
  revert s. induction fuel as [|fuel IH]; intros s Hle.
  { destruct s; [done|cbn in Hle; lia]. }
  destruct s as [|c [|d rest]];
    [done|rewrite re_sub_two_chars_one; cbn; by rewrite andb_false_r|].
  cbn [String.length] in Hle.
  rewrite re_sub_two_chars_step.
  destruct (p c && q d) eqn:Epq.
  - apply andb_true_iff in Epq as [Epc Eqd].
    specialize (IH rest ltac:(lia)).
    cbn [no_pair]. rewrite Hpb, Hqb, andb_false_r, (q_not_p d Eqd).
    cbn [negb andb]. exact IH.
  - specialize (IH (String d rest) ltac:(cbn; lia)).
    destruct (re_sub_two_chars_head fuel d rest) as [t Ht].
    rewrite Ht in IH |- *. cbn [no_pair]. rewrite Epq. exact IH.
Qed.
End TwoChars.

Lemma rstrip_head (c : ascii) (s r : string) :
  rstrip s = String c r -> exists s', s = String c s'.
Proof.
  destruct s as [|d s]; [done|]. cbn [rstrip].
  destruct (rstrip s); [destruct (is_space d)|];
    intros [= -> _]; by eexists.
Qed.

Lemma blanks_only_lstrip (s : string) :
  blanks_only s = true -> blanks_only (lstrip s) = true.
Proof.
  induction s as [|c s IH]; [done|]. cbn [lstrip]. intros Hs.
  destruct (is_space c); [|done]. apply IH.
  cbn [blanks_only] in Hs. by apply andb_true_iff in Hs as [_ Hs].
Qed.

Lemma blanks_only_rstrip (s : string) :
  blanks_only s = true -> blanks_only (rstrip s) = true.
Proof.
  induction s as [|c s IH]; [done|]. cbn [blanks_only rstrip].
  intros [Hc Hs]%andb_true_iff. specialize (IH Hs).
  destruct (rstrip s) as [|d r].
  - destruct (is_space c) eqn:Ec; [done|]. cbn [blanks_only].
    by rewrite Ec.
  - cbn [blanks_only] in IH |- *. by rewrite Hc, IH.
Qed.

Lemma no_pair_lstrip (p q : ascii -> bool) (s : string) :
  no_pair p q s = true -> no_pair p q (lstrip s) = true.
Proof.
  induction s as [|c s IH]; [done|]. cbn [lstrip]. intros Hs.
  destruct (is_space c); [|done]. apply IH.
  cbn [no_pair] in Hs. by apply andb_true_iff in Hs as [_ Hs].
Qed.

Lemma no_pair_rstrip (p q : ascii -> bool) (s : string) :
  no_pair p q s = true -> no_pair p q (rstrip s) = true.
Proof.
  induction s as [|c s IH]; [done|]. cbn [no_pair rstrip].
  intros [Hc Hs]%andb_true_iff. specialize (IH Hs).
  destruct (rstrip s) as [|d r] eqn:Er.
  - destruct (is_space c); [done|]. cbn [no_pair].
    by rewrite andb_false_r.
  - apply rstrip_head in Er as [s' ->].
    cbn [no_pair] in IH |- *. by rewrite Hc, IH.
Qed.

Lemma is_lower_not_space (c : ascii) : is_lower c = true -> is_space c = false.
Proof. unfold is_lower, is_space. cbn zeta. lia. Qed.

Lemma is_upper_not_space (c : ascii) : is_upper c = true -> is_space c = false.
Proof. unfold is_upper, is_space. cbn zeta. lia. Qed.

Lemma is_upper_not_lower (c : ascii) : is_upper c = true -> is_lower c = false.
Proof. unfold is_upper, is_lower. cbn zeta. lia. Qed.

Lemma is_dot_not_space (c : ascii) : is_dot c = true -> is_space c = false.
Proof. unfold is_dot. by intros <-%Ascii.eqb_eq. Qed.

Lemma is_upper_not_dot (c : ascii) : is_upper c = true -> is_dot c = false.
Proof.
  unfold is_dot. intros Hc. destruct (Ascii.eqb_spec "." c) as [<-|]; done.
Qed.

Lemma clean_text_shape (text : string) :
  let t := _clean_text text in
  blanks_only t = true
  /\ no_pair is_space is_space t = true
  /\ strip t = t
  /\ no_pair is_lower is_upper t = true
  /\ no_pair is_dot is_upper t = true
  /\ re_sub (seq [chr newline; RStar space; chr newline])
       (String newline (String newline ""))
       (re_sub (plus space) " " text)
     = re_sub (plus space) " " text.
Proof.
  cbn zeta. unfold _clean_text.
  set (t1 := re_sub (plus space) " " text).
  destruct (re_sub_spaces_clean (String.length text) text (le_n _))
    as [Hb1 Hn1]. fold (re_sub (plus space) " " text) in Hb1, Hn1.
  fold t1 in Hb1, Hn1.
  assert (re_sub (seq [chr newline; RStar space; chr newline])
            (String newline (String newline "")) t1 = t1) as Hdead.
  { apply re_sub_no_newline. by apply blanks_only_no_newline. }
  rewrite Hdead.
  set (t3 := re_sub_groups (two_chars is_lower is_upper) spaced_groups t1).
  set (t4 := re_sub_groups (two_chars is_dot is_upper) spaced_groups t3).
  assert (blanks_only t3 = true) as Hb3
    by by apply re_sub_two_chars_blanks.
  assert (no_pair is_space is_space t3 = true) as Hn3.
  { apply re_sub_two_chars_spaces;
      auto using is_lower_not_space, is_upper_not_space. }
  assert (no_pair is_lower is_upper t3 = true) as Hlu3.
  { apply re_sub_two_chars_separates;
      auto using is_lower_not_space, is_upper_not_space, is_upper_not_lower. }
  assert (blanks_only t4 = true) as Hb4
    by by apply re_sub_two_chars_blanks.
  assert (no_pair is_space is_space t4 = true) as Hn4.
  { apply re_sub_two_chars_spaces;
      auto using is_dot_not_space, is_upper_not_space. }
  assert (no_pair is_lower is_upper t4 = true) as Hlu4
    by by apply re_sub_two_chars_keeps.
  assert (no_pair is_dot is_upper t4 = true) as Hdu4.
  { apply re_sub_two_chars_separates;
      auto using is_dot_not_space, is_upper_not_space, is_upper_not_dot. }
  split_and!; [| | | | |done].
  - by apply blanks_only_rstrip, blanks_only_lstrip.
  - by apply no_pair_rstrip, no_pair_lstrip.
  - apply strip_idem.
  - by apply no_pair_rstrip, no_pair_lstrip.
  - by apply no_pair_rstrip, no_pair_lstrip.
Qed.

(** X21. The text [_clean_text] returns is normalised, whatever the input:
    its only white-space characters are blanks (no newline or tab is
    left), no two of them are adjacent, there is none at either end, no
    lower-case letter is directly followed by an upper-case letter and no
    full stop is directly followed by an upper-case letter.  The second
    substitution (of blank lines) never changes anything, because the
    first one has already removed every newline. *)
Theorem clean_text_normalised (text : string) :
  let t := _clean_text text in
  blanks_only t = true
  /\ no_pair is_space is_space t = true
  /\ strip t = t
  /\ no_pair is_lower is_upper t = true
  /\ no_pair is_dot is_upper t = true
  /\ re_sub (seq [chr newline; RStar space; chr newline])
       (String newline (String newline ""))
       (re_sub (plus space) " " text)
     = re_sub (plus space) " " text.
Proof. apply clean_text_shape. Qed.

(** ** From the PDF processor to the chunker *)

Lemma no_pair_weaken (p q p' q' : ascii -> bool) (s : string) :
  (forall c, p' c = true -> p c = true) ->
  (forall c, q' c = true -> q c = true) ->
  no_pair p q s = true -> no_pair p' q' s = true.
Proof.
  intros Hp Hq. induction s as [|c s IH]; [done|]. cbn [no_pair].
  intros [Hc Hs]%andb_true_iff. rewrite (IH Hs), andb_true_r.
  destruct (p' c) eqn:Ep; [|done]. apply Hp in Ep. rewrite Ep in Hc.
  destruct s as [|d s]; [done|].
  destruct (q' d) eqn:Eq; [|done]. apply Hq in Eq. by rewrite Eq in Hc.
Qed.

Lemma no_pair_take (p q : ascii -> bool) (n : nat) (s : string) :
  no_pair p q s = true -> no_pair p q (str_take n s) = true.
Proof.
  revert s. induction n as [|n IH]; intros s Hs; [by destruct s|].
  destruct s as [|c s]; [done|]. cbn [str_take no_pair] in Hs |- *.
  apply andb_true_iff in Hs as [Hc Hs]. rewrite (IH s Hs), andb_true_r.
  destruct n as [|n]; [cbn [str_take]; by rewrite andb_false_r|].
  destruct s as [|d s]; [cbn [str_take]; by rewrite andb_false_r|].
  exact Hc.
Qed.

Lemma no_pair_app (p q : ascii -> bool) (x : string) (e : ascii)
    (y : string) :
  q e = false ->
  no_pair p q x = true -> no_pair p q (String e y) = true ->
  no_pair p q (x +:+ String e y) = true.
Proof.
  intros He. induction x as [|c x IH]; intros Hx Hy.
  - by rewrite append_nil_l.
  - rewrite append_cons. cbn [no_pair] in Hx.
    apply andb_true_iff in Hx as [Hc Hx]. specialize (IH Hx Hy).
    change (no_pair p q (String c (x +:+ String e y)))
      with (negb (p c && match x +:+ String e y with
                         | String d _ => q d
                         | EmptyString => false
                         end)
            && no_pair p q (x +:+ String e y)).
    rewrite IH, andb_true_r.
    destruct x as [|d x]; [|exact Hc].
    rewrite append_nil_l, He. by rewrite andb_false_r.
Qed.

(** Replacing every run of blanks by one blank changes nothing where no
    two blanks are adjacent. *)
Lemma re_sub_blanks_id (fuel : nat) (s : string) :
  no_pair is_blank is_blank s = true ->
  re_sub_from fuel (plus (chr " ")) " " s = s.
Proof.
  revert fuel. induction s as [|c s IH]; intros fuel Hs; [by destruct fuel|].
  destruct fuel as [|fuel]; [done|].
  cbn [no_pair] in Hs. apply andb_true_iff in Hs as [Hc Hs].
  cbn [re_sub_from]. unfold plus. cbn [rmatch]. unfold chr at 1.
  cbn [rmatch]. fold (is_blank c).
  destruct (is_blank c) eqn:Ec; [|by rewrite (IH _ Hs)].
  unfold is_blank in Ec. apply Ascii.eqb_eq in Ec as <-.
  assert (rmatch (RStar (chr " ")) s [] (fun rest _ => Some rest) = Some s)
    as Hstar.
  { cbn [rmatch]. destruct s as [|d s]; [done|].
    cbn [String.length]. unfold chr. cbn [rmatch]. fold (is_blank d).
    cbn [andb negb] in Hc. by destruct (is_blank d). }
  cbn [rmatch] in Hstar. rewrite Hstar. cbn [String.length].
  replace (String.length s <? S (String.length s))%nat with true by lia.
  by rewrite (IH _ Hs).
Qed.

Lemma re_sub_prefix_no_newline (rs : list regex) (repl x y : string) :
  contains (String newline "") x = false ->
  (forall fuel, re_sub_from fuel (seq (chr newline :: rs)) repl y = y) ->
  forall fuel,
    re_sub_from fuel (seq (chr newline :: rs)) repl (x +:+ y) = x +:+ y.
Proof.
  intros Hx Hy. induction x as [|c x IH]; intros fuel.
  - rewrite append_nil_l. apply Hy.
  - rewrite append_cons. destruct fuel as [|fuel]; [done|].
    rewrite contains_unfold in Hx. cbn [String.prefix] in Hx.
    destruct (ascii_dec newline c) as [->|Hc].
    { by destruct x. }
    cbn [re_sub_from seq fold_right rmatch]. unfold chr at 1.
    cbn [rmatch]. destruct (Ascii.eqb_spec newline c); [done|].
    by rewrite (IH Hx).
Qed.

Lemma contains_take_false (sub s : string) (n : nat) :
  contains sub s = false -> contains sub (str_take n s) = false.
Proof.
  intros Hs. destruct (contains sub (str_take n s)) eqn:E; [|done].
  rewrite <- Hs. symmetry.
  apply (contains_trans sub (str_take n s) s); [done|].
  apply contains_spec. exists "", (str_drop n s).
  by rewrite append_nil_l, str_take_drop.
Qed.

Lemma re_sub_from_step_none (fuel : nat) (r : regex) (repl : string)
    (c : ascii) (s : string) :
  rmatch r (String c s) [] (fun rest _ => Some rest) = None ->
  re_sub_from (S fuel) r repl (String c s)
  = String c (re_sub_from fuel r repl s).
Proof. cbn [re_sub_from]. by intros ->. Qed.

Lemma preprocess_text_id (u : string) :
  no_pair is_blank is_blank u = true ->
  (forall fuel,
     re_sub_from fuel
       (seq [chr newline; RStar space; chr newline; RStar space;
             plus (chr newline)])
       (String newline (String newline "")) u = u) ->
  strip u = u ->
  _preprocess_text u = u.
Proof.
  intros Hb Hn Hs. unfold _preprocess_text, re_sub.
  rewrite (re_sub_blanks_id _ u Hb), Hn. exact Hs.
Qed.

Lemma is_blank_is_space (c : ascii) : is_blank c = true -> is_space c = true.
Proof. unfold is_blank. by intros <-%Ascii.eqb_eq. Qed.

Lemma truncation_note_untouched (fuel : nat) :
  re_sub_from fuel
    (seq [chr newline; RStar space; chr newline; RStar space;
          plus (chr newline)])
    (String newline (String newline "")) truncation_note
  = truncation_note.
Proof.
  destruct fuel as [|fuel]; [done|]. unfold truncation_note.
  rewrite re_sub_from_step_none by reflexivity.
  by rewrite re_sub_no_newline.
Qed.

(** X22. The preprocessing of the chunker changes nothing in a text that
    comes from the PDF processor (cleaned, and cut to 100000 characters
    with the truncation note appended when it is longer): such a text has
    no run of blanks, no run of newlines and no white space at its ends.
    So the chunks of a PDF are cut from the very text the processor
    returned. *)
Theorem preprocess_after_clean (text_content : string) :
  _preprocess_text (clean_and_limit text_content)
  = clean_and_limit text_content.
Proof.
  unfold clean_and_limit.
  destruct (clean_text_shape text_content)
    as (Hb & Hn & Hs & _).
  set (t := _clean_text text_content) in *.
  assert (no_pair is_blank is_blank t = true) as Hbb
    by (revert Hn; apply no_pair_weaken; apply is_blank_is_space).
  pose proof (blanks_only_no_newline t Hb) as Hnl.
  destruct (max_text_length <? String.length t)%nat eqn:Elen.
  - apply preprocess_text_id.
    + apply no_pair_app; [done|by apply no_pair_take|done].
    + apply re_sub_prefix_no_newline.
      * by apply contains_take_false.
      * apply truncation_note_untouched.
    + assert (exists m, max_text_length = S m) as [m Hm].
      { exists (Nat.pred max_text_length). unfold max_text_length. lia. }
      destruct (strip_fixed t Hs) as [Hl _].
      pose proof (lstrip_head t) as Hh. rewrite Hl in Hh.
      destruct t as [|c t']; [cbn in Elen; lia|].
      rewrite Hm. cbn [str_take]. rewrite append_cons.
      unfold strip. cbn [lstrip]. rewrite Hh.
      rewrite <- append_cons, rstrip_app. done.
  - apply preprocess_text_id; [done| |done].
    intros fuel. by apply re_sub_no_newline.
Qed.
